(** * Periodic-table card generator: a shallow embedding and its properties

    The repository holds two programs that draw one PNG card per chemical
    element: [main.go] (flags, fetched element list, coloured border) and an
    earlier self-contained version with an embedded element list (a filled
    background, fixed geometry), called [part_000] below.

    Representation of Go values:
    - [int] is a 64-bit two's-complement integer: a [Z] with its wrap-around
      written out ([GoInt.wrap]); [/] truncates toward zero ([Z.quot]).
    - [float64] is the binary64 format of the Standard Library's [SpecFloat]
      (precision 53, [emax] 1024), with round-to-nearest-even operations.
    - A string handled byte-wise by the code ([len], indexing, hex parsing,
      map keys, paths) is a [string], one [ascii] per byte.
    - A string handled through the [unicode] tables ([strings.ToLower],
      [strings.Fields]) is the list of code points a [range] loop decodes
      from it; every string of the program comes out of [encoding/json],
      which only yields well-formed UTF-8.
    - A Go map is a [gmap]; a missing key reads as the zero value. *)

From Stdlib Require Import ZArith Lia List String Ascii Bool SpecFloat.
From stdpp Require Import gmap strings pretty sorting.

Local Open Scope string_scope.
Local Open Scope list_scope.
Local Open Scope Z_scope.

(** ** Go's [int] *)

Module GoInt.

Definition minInt : Z := - 2 ^ 63.
Definition maxInt : Z := 2 ^ 63 - 1.

Definition inRange (z : Z) : Prop := minInt <= z <= maxInt.

(** Two's-complement wrap-around of an exact result. *)
Definition wrap (z : Z) : Z := (z + 2 ^ 63) mod 2 ^ 64 - 2 ^ 63.

Definition add (a b : Z) : Z := wrap (a + b).
Definition sub (a b : Z) : Z := wrap (a - b).

(** [a / b] for [b <> 0]: truncated division; only [minInt / -1] wraps. *)
Definition quo (a b : Z) : Z := wrap (Z.quot a b).

(** [int32], the type under [fixed.Int26_6]. *)
Definition wrap32 (z : Z) : Z := (z + 2 ^ 31) mod 2 ^ 32 - 2 ^ 31.

End GoInt.

(** ** UTF-8 and white space: packages [unicode/utf8] and [unicode] *)

Module Utf8.

Definition rune : Type := Z.

(** The value of a byte. *)
Definition code (a : ascii) : Z := Z.of_N (N_of_ascii a).

Definition between (lo c hi : Z) : bool := (lo <=? c) && (c <=? hi).

Definition RuneError : rune := 65533.

(** [s[n:]], empty when [n] exceeds the length. *)
Fixpoint drop (n : nat) (s : string) : string :=
  match n, s with
  | O, _ => s
  | S k, String _ s' => drop k s'
  | S _, EmptyString => EmptyString
  end.

(** [s[i]], for [i] below [len(s)]. *)
Definition byteAt (s : string) (i : nat) : ascii :=
  match String.get i s with Some a => a | None => zero end.

(** [utf8.DecodeRuneInString]: the first code point of [s] and its width
    in bytes; [(RuneError, 0)] for the empty string and [(RuneError, 1)]
    for an encoding that is invalid or cut short. *)
Definition decodeRune (s : string) : rune * nat :=
  match s with
  | EmptyString => (RuneError, 0%nat)
  | String a0 s1 =>
      let b0 := code a0 in
      let invalid := (RuneError, 1%nat) in
      if b0 <? 128 then (b0, 1%nat)
      else if between 194 b0 223 then
        match s1 with
        | String a1 _ =>
            let b1 := code a1 in
            if between 128 b1 191
            then (Z.lor (Z.shiftl (Z.land b0 31) 6) (Z.land b1 63), 2%nat)
            else invalid
        | _ => invalid
        end
      else if between 224 b0 239 then
        match s1 with
        | String a1 (String a2 _) =>
            let b1 := code a1 in
            let b2 := code a2 in
            let lo := if b0 =? 224 then 160 else 128 in
            let hi := if b0 =? 237 then 159 else 191 in
            if between lo b1 hi && between 128 b2 191
            then (Z.lor (Z.shiftl (Z.land b0 15) 12)
                    (Z.lor (Z.shiftl (Z.land b1 63) 6) (Z.land b2 63)), 3%nat)
            else invalid
        | _ => invalid
        end
      else if between 240 b0 244 then
        match s1 with
        | String a1 (String a2 (String a3 _)) =>
            let b1 := code a1 in
            let b2 := code a2 in
            let b3 := code a3 in
            let lo := if b0 =? 240 then 144 else 128 in
            let hi := if b0 =? 244 then 143 else 191 in
            if between lo b1 hi && between 128 b2 191 && between 128 b3 191
            then (Z.lor (Z.shiftl (Z.land b0 7) 18)
                    (Z.lor (Z.shiftl (Z.land b1 63) 12)
                       (Z.lor (Z.shiftl (Z.land b2 63) 6) (Z.land b3 63))), 4%nat)
            else invalid
        | _ => invalid
        end
      else invalid
  end.

(** [utf8.RuneStart]: the byte is not a continuation byte. *)
Definition RuneStart (a : ascii) : bool := negb (Z.land (code a) 192 =? 128).

(** The backward search of [DecodeLastRuneInString]: from index [start]
    down to [lim], the first index holding a rune start; [lim - 1] when
    there is none (as an [int], here [None] below index 0). *)
Fixpoint findStart (s : string) (start : nat) (steps : nat) : option nat :=
  match steps with
  | O => None
  | S k =>
      if RuneStart (byteAt s start) then Some start
      else match start with
           | O => None
           | S start' => findStart s start' k
           end
  end.

(** [utf8.DecodeLastRuneInString]. *)
Definition decodeLastRune (s : string) : rune * nat :=
  let end_ := String.length s in
  match end_ with
  | O => (RuneError, 0%nat)
  | S start =>
      let r := code (byteAt s start) in
      if r <? 128 then (r, 1%nat)
      else
        let lim := (end_ - 4)%nat in
        (* [for start--; start >= lim; start--] *)
        let found :=
          match start with
          | O => None
          | S start' => findStart s start' (start - lim)%nat
          end in
        let start :=
          match found with
          | Some i => i
          | None => (lim - 1)%nat   (* [start < 0] is reset to 0 *)
          end in
        let '(r, size) := decodeRune (substring start (end_ - start) s) in
        if negb (start + size =? end_)%nat then (RuneError, 1%nat)
        else (r, size)
  end.

(** The code points a [range] loop over [s] yields. *)
Fixpoint decodeN (fuel : nat) (s : string) : list rune :=
  match fuel with
  | O => []
  | S k =>
      match decodeRune s with
      | (_, O) => []
      | (r, n) => r :: decodeN k (drop n s)
      end
  end.

Definition decode (s : string) : list rune := decodeN (String.length s) s.

(** [unicode.IsSpace] (the [White_Space] property); the [space] table of
    [fmt] lists the same code points. *)
Definition IsSpace (r : rune) : bool :=
  between 9 r 13 || (r =? 32) || (r =? 133) || (r =? 160)
  || (r =? 5760) || between 8192 r 8202 || (r =? 8232) || (r =? 8233)
  || (r =? 8239) || (r =? 8287) || (r =? 12288).

End Utf8.

(** ** Byte strings: the parts of [strings] and [fmt] that [hexToRGBA] calls *)

Module Str.
Import Utf8.

(** [strings.TrimLeftFunc(s, unicode.IsSpace)]; [fuel] bounds the number
    of runes removed. *)
Fixpoint trimLeft (fuel : nat) (s : string) : string :=
  match fuel with
  | O => s
  | S k =>
      match decodeRune s with
      | (_, O) => s
      | (r, n) => if IsSpace r then trimLeft k (drop n s) else s
      end
  end.

(** [strings.TrimRightFunc(s, unicode.IsSpace)]. *)
Fixpoint trimRight (fuel : nat) (s : string) : string :=
  match fuel with
  | O => s
  | S k =>
      match decodeLastRune s with
      | (_, O) => s
      | (r, n) =>
          if IsSpace r then trimRight k (substring 0 (String.length s - n) s)
          else s
      end
  end.

(** [strings.TrimSpace]. *)
Definition TrimSpace (s : string) : string :=
  let s := trimLeft (String.length s) s in
  trimRight (String.length s) s.

(** [strings.TrimPrefix(s, "#")]. *)
Definition TrimPrefixHash (s : string) : string :=
  match s with
  | String a s' => if code a =? 35 then s' else s
  | EmptyString => s
  end.

(** The value of a hexadecimal digit, as [strconv.ParseUint] reads the
    digits [0123456789aAbBcCdDeEfF] that [fmt] accepts for [%x]. *)
Definition hexVal (a : ascii) : option Z :=
  let c := code a in
  if between 48 c 57 then Some (c - 48)
  else if between 97 c 102 then Some (c - 97 + 10)
  else if between 65 c 70 then Some (c - 65 + 10)
  else None.

(** [SkipSpace] of [fmt]'s scanner as [Sscanf] runs it: white space is
    read away, a newline is an error ([None]). *)
Fixpoint skipSpace (fuel : nat) (s : string) : option string :=
  match fuel with
  | O => Some s
  | S k =>
      match decodeRune s with
      | (_, O) => Some s
      | (r, n) =>
          let rest := drop n s in
          if (r =? 13) && (fst (decodeRune rest) =? 10) then skipSpace k rest
          else if r =? 10 then None
          else if IsSpace r then skipSpace k rest
          else Some s
      end
  end.

(** One [%02x] verb scanned into a [*uint8]: white space before the number
    is skipped and does not count against the width, then one or two
    hexadecimal digits are read.  [None] when the scan stops with an error
    (a newline, the end of the input, no digit). *)
Definition scanHex2 (s : string) : option (Z * string) :=
  match skipSpace (String.length s) s with
  | None => None
  | Some EmptyString => None
  | Some (String a s1) =>
      match hexVal a with
      | None => None
      | Some hi =>
          match s1 with
          | String b s2 =>
              match hexVal b with
              | Some lo => Some (16 * hi + lo, s2)
              | None => Some (hi, s1)
              end
          | EmptyString => Some (hi, s1)
          end
      end
  end.

(** [fmt.Sscanf(h, "%02x%02x%02x", &r, &g, &b)] on zeroed [r], [g], [b],
    its results discarded: the operands scanned before the first error are
    stored, the others keep their zero. *)
Definition Sscanf3 (h : string) : Z * Z * Z :=
  match scanHex2 h with
  | None => (0, 0, 0)
  | Some (r, h1) =>
      match scanHex2 h1 with
      | None => (r, 0, 0)
      | Some (g, h2) =>
          match scanHex2 h2 with
          | None => (r, g, 0)
          | Some (b, _) => (r, g, b)
          end
      end
  end.

End Str.

(** ** Colours: [hexToRGBA] and the border of main.go, [parseHexColor] and the
    background of part_000 *)

Module Colour.
Import Utf8 Str.

(** [color.RGBA]: four [uint8] channels. *)
Record RGBA := mkRGBA { R : Z; G : Z; B : Z; A : Z }.

Definition black : RGBA := mkRGBA 0 0 0 255.

(** The "Default gray" of part_000. *)
Definition gray : RGBA := mkRGBA 224 224 224 255.

(** main.go, [hexToRGBA]. *)
Definition hexToRGBA (h : string) : RGBA :=
  let h := TrimPrefixHash (TrimSpace h) in
  let h :=
    if (String.length h =? 3)%nat
    then String (byteAt h 0) (String (byteAt h 0)
           (String (byteAt h 1) (String (byteAt h 1)
             (String (byteAt h 2) (String (byteAt h 2) EmptyString)))))
    else h in
  if negb (String.length h =? 6)%nat then mkRGBA 0 0 0 255
  else
    let '(r, g, b) := Sscanf3 h in
    mkRGBA r g b 255.

(** main.go, the border colour of the batch loop:
    [border := hexToRGBA(colours[e.Type])], replaced by black when the key
    is missing. *)
Definition border (colours : gmap string string) (ty : string) : RGBA :=
  let border := hexToRGBA (default "" (colours !! ty)) in
  match colours !! ty with
  | None => mkRGBA 0 0 0 255
  | Some _ => border
  end.

(** A call either returns or stops the program with a run-time panic. *)
Inductive outcome (T : Type) : Type :=
| Ret (x : T)
| Panic.
Arguments Ret {T} x.
Arguments Panic {T}.

(** The errors [parseHexColor] builds with [fmt.Errorf]. *)
Inductive hexError : Type :=
| MissingHash
| InvalidHexChar (b : ascii)
| InvalidLength (n : nat).

(** The closure [hexToByte] of [parseHexColor]; it assigns the captured
    [err], threaded here as state. *)
Definition hexToByte (b : ascii) (err : option hexError) : Z * option hexError :=
  let c := code b in
  if between 48 c 57 then (c - 48, err)
  else if between 97 c 102 then (c - 97 + 10, err)
  else if between 65 c 70 then (c - 65 + 10, err)
  else (0, Some (InvalidHexChar b)).

(** [hi<<4 + lo] on [byte]s. *)
Definition byteShl4Add (hi lo : Z) : Z := ((Z.shiftl hi 4) mod 256 + lo) mod 256.

(** part_000, [parseHexColor]: [s[0]] panics on the empty string. *)
Definition parseHexColor (s : string) : outcome (RGBA * option hexError) :=
  match s with
  | EmptyString => Panic
  | String s0 _ =>
      if negb (code s0 =? 35) then Ret (mkRGBA 0 0 0 255, Some MissingHash)
      else
        match String.length s with
        | 7%nat =>
            let err := None in
            let '(r1, err) := hexToByte (byteAt s 1) err in
            let '(r2, err) := hexToByte (byteAt s 2) err in
            let '(g1, err) := hexToByte (byteAt s 3) err in
            let '(g2, err) := hexToByte (byteAt s 4) err in
            let '(b1, err) := hexToByte (byteAt s 5) err in
            let '(b2, err) := hexToByte (byteAt s 6) err in
            Ret (mkRGBA (byteShl4Add r1 r2) (byteShl4Add g1 g2) (byteShl4Add b1 b2) 255,
                 err)
        | n => Ret (mkRGBA 0 0 0 255, Some (InvalidLength n))
        end
  end.

(** part_000, the hex string the batch loop selects:
    [colorMap[el.Category]], else [colorMap["unknown"]] (the empty string
    when that key is missing too). *)
Definition selectHex (colorMap : gmap string string) (category : string) : string :=
  match colorMap !! category with
  | Some hexStr => hexStr
  | None => default "" (colorMap !! "unknown")
  end.

(** part_000, the background colour of the batch loop, with the hex string
    it warns about when the parse fails. *)
Definition bgColor (colorMap : gmap string string) (category : string)
  : outcome (RGBA * option string) :=
  let hexStr := selectHex colorMap category in
  match parseHexColor hexStr with
  | Panic => Panic
  | Ret (c, None) => Ret (c, None)
  | Ret (_, Some _) => Ret (mkRGBA 224 224 224 255, Some hexStr)
  end.

(** The well-formed inputs: six hexadecimal digits and their colour. *)
Definition hex6 (a b c d e f : ascii) : string :=
  String a (String b (String c (String d (String e (String f EmptyString))))).


Definition isHex (a : ascii) : Prop := is_Some (hexVal a).

Definition hv (a : ascii) : Z := default 0 (hexVal a).

Definition rgb6 (a b c d e f : ascii) : RGBA :=
  mkRGBA (16 * hv a + hv b) (16 * hv c + hv d) (16 * hv e + hv f) 255.

End Colour.

(** ** The category normaliser of main.go *)

Module Normaliser.
Import Utf8.

(** A decoded string. *)
Definition text : Type := list rune.

(** A string literal of the source, decoded. *)
Definition runes (s : string) : text := decode s.

(** [unicode.ToLower] on the ASCII range; the case tables of package
    [unicode] decide the other code points. *)
Definition asciiToLower (r : rune) : rune :=
  if between 65 r 90 then r + 32 else r.

Section CaseTable.

(** [unicode.ToLower]. *)
Variable toLowerRune : rune -> rune.

(** [strings.ToLower]: every code point mapped through the case table. *)
Definition ToLower (s : text) : text := map toLowerRune s.

(** [strings.ReplaceAll(s, old, new)] for one-character [old], [new]. *)
Definition ReplaceAll (s : text) (old new : rune) : text :=
  map (fun r => if r =? old then new else r) s.

(** [strings.Fields]: the maximal runs of code points that are not
    white space, in order. *)
Fixpoint Fields (s : text) : list text :=
  match s with
  | [] => []
  | r :: s' =>
      if IsSpace r then Fields s'
      else
        match s' with
        | [] => [[r]]
        | r' :: _ =>
            if IsSpace r' then [r] :: Fields s'
            else
              match Fields s' with
              | [] => [[r]]
              | w :: ws => (r :: w) :: ws
              end
        end
  end.

(** [strings.Join]. *)
Fixpoint Join (elems : list text) (sep : text) : text :=
  match elems with
  | [] => []
  | [e] => e
  | e :: es => e ++ sep ++ Join es sep
  end.

(** One [case] of the [switch]: [c] equals one of the listed literals. *)
Definition isCase (c : text) (cases : list string) : bool :=
  existsb (fun k => bool_decide (c = runes k)) cases.

(** The string the [switch] of [normaliseCategory] works on. *)
Definition clean (c : text) : text :=
  let c := ToLower c in
  let c := ReplaceAll c 45 32 in
  let c := ReplaceAll c 95 32 in
  Join (Fields c) (runes " ").

(** main.go, [normaliseCategory]. *)
Definition normaliseCategory (c : text) : text :=
  let c := clean c in
  if isCase c ["diatomic nonmetal"; "polyatomic nonmetal"]
  then runes "nonmetal"
  else if isCase c ["noble gas"; "noble gases"]
  then runes "noble gas"
  else if isCase c ["alkali metal"; "alkali metals"]
  then runes "alkali metal"
  else if isCase c ["alkaline earth metal"; "alkaline earth metals"]
  then runes "alkaline earth metal"
  else if isCase c ["transition metal"; "transition metals"]
  then runes "transition metal"
  else if isCase c ["post transition metal"; "post transition metals"]
  then runes "post-transition metal"
  else if isCase c ["lanthanide"; "lanthanoid"; "lanthanoids"; "lanthanides"]
  then runes "lanthanide"
  else if isCase c ["actinide"; "actinoid"; "actinoids"; "actinides"]
  then runes "actinide"
  else c.

End CaseTable.

(** What is used of [unicode.ToLower]: its ASCII fast path and that a
    lower-case mapping is not mapped further. *)
Record CaseTableLaws (toLowerRune : rune -> rune) : Prop := {
  lower_ascii : forall r, 0 <= r < 128 -> toLowerRune r = asciiToLower r;
  lower_idem : forall r, toLowerRune (toLowerRune r) = toLowerRune r
}.

End Normaliser.

(** ** [float64] *)

Module F64.

Definition prec : Z := 53.
Definition emax : Z := 1024.

Definition float64 : Type := spec_float.

(** [float64(n)] for an [int] [n]: the nearest binary64 value. *)
Definition of_int (n : Z) : float64 := binary_normalize prec emax n 0 false.

Definition mul (x y : float64) : float64 := SFmul prec emax x y.
Definition div (x y : float64) : float64 := SFdiv prec emax x y.

(** [int(x)]: the fraction is discarded.  A value that does not fit an
    [int] has no result the language fixes; amd64 gives [minInt]. *)
Definition to_int (x : float64) : Z :=
  match x with
  | S754_zero _ => 0
  | S754_finite s m e =>
      let a := if 0 <=? e then Z.pos m * 2 ^ e else Z.pos m / 2 ^ (- e) in
      let v := if s then - a else a in
      if (GoInt.minInt <=? v) && (v <=? GoInt.maxInt) then v else GoInt.minInt
  | _ => GoInt.minInt
  end.

End F64.

(** ** Geometry and text placement of main.go *)

Module Layout.
Import Utf8.

(** The settings of [main]. *)
Definition numSize : F64.float64 := F64.of_int 10.
Definition symSize : F64.float64 := F64.of_int 3.
Definition nameSize : F64.float64 := F64.of_int 7.
Definition massSize : F64.float64 := F64.of_int 10.

Inductive role : Type := Number | Symbol | Name | Mass.

(** The divisor of each text role. *)
Definition divisor (r : role) : Z :=
  match r with
  | Number => 10
  | Symbol => 3
  | Name => 7
  | Mass => 10
  end.

(** The size [loadFont] gets for a role: [float64(tileH)/numSize] and the
    like. *)
Definition fontSize (r : role) (tileH : Z) : F64.float64 :=
  F64.div (F64.of_int tileH)
    match r with
    | Number => numSize
    | Symbol => symSize
    | Name => nameSize
    | Mass => massSize
    end.

(** [ratio := float64(2456) / float64(1882)]. *)
Definition ratio : F64.float64 := F64.div (F64.of_int 2456) (F64.of_int 1882).

(** [tileW := int(ratio * float64(tileH))]. *)
Definition tileW (tileH : Z) : Z := F64.to_int (F64.mul ratio (F64.of_int tileH)).

(** [bt := tileH / 15] and [pad := tileH / 20]. *)
Definition bt (tileH : Z) : Z := GoInt.quo tileH 15.
Definition pad (tileH : Z) : Z := GoInt.quo tileH 20.

(** What the code asks of a [font.Face]: glyph advances and kerning in
    26.6 fixed point, and the line height of its metrics. *)
Record Face : Type := {
  GlyphAdvance : rune -> option Z;
  Kern : rune -> rune -> Z;
  Height : Z
}.

(** [fixed.Int26_6.Round]. *)
Definition Round (x : Z) : Z := Z.shiftr (GoInt.wrap32 (x + 32)) 6.

(** The loop of [font.MeasureString] over the runes of the string:
    [prevC] starts at -1, a rune without glyph is skipped. *)
Fixpoint measureFrom (f : Face) (prevC : rune) (advance : Z) (s : list rune) : Z :=
  match s with
  | [] => advance
  | c :: s' =>
      let advance :=
        if 0 <=? prevC then GoInt.wrap32 (advance + Kern f prevC c) else advance in
      match GlyphAdvance f c with
      | None => measureFrom f prevC advance s'
      | Some a => measureFrom f c (GoInt.wrap32 (advance + a)) s'
      end
  end.

Definition MeasureString (f : Face) (s : string) : Z :=
  measureFrom f (-1) 0 (decode s).

(** The four faces [main] loads. *)
Record Fonts : Type := {
  numFont : Face;
  symFont : Face;
  nameFont : Face;
  massFont : Face
}.

(** The [Dot] each [drawText] call of the batch loop is given. *)
Definition numberOrigin (fonts : Fonts) (tileH : Z) : Z * Z :=
  let bt := bt tileH in
  let pad := pad tileH in
  (GoInt.add bt pad,
   GoInt.add (GoInt.add bt pad) (Round (Height (numFont fonts)))).

Definition massOrigin (fonts : Fonts) (tileW tileH : Z) (massTxt : string) : Z * Z :=
  let bt := bt tileH in
  let pad := pad tileH in
  let mw := Round (MeasureString (massFont fonts) massTxt) in
  (GoInt.sub (GoInt.sub (GoInt.sub tileW bt) pad) mw,
   GoInt.add (GoInt.add bt pad) (Round (Height (massFont fonts)))).

(** [(tileW-symW)/2, tileH/2], for the measured width [symW]. *)
Definition symbolAt (tileW tileH symW : Z) : Z * Z :=
  (GoInt.quo (GoInt.sub tileW symW) 2, GoInt.quo tileH 2).

Definition symbolOrigin (fonts : Fonts) (tileW tileH : Z) (symbol : string) : Z * Z :=
  let symW := Round (MeasureString (symFont fonts) symbol) in
  symbolAt tileW tileH symW.

Definition nameOrigin (fonts : Fonts) (tileW tileH : Z) (name : string) : Z * Z :=
  let pad := pad tileH in
  let nameW := Round (MeasureString (nameFont fonts) name) in
  (GoInt.quo (GoInt.sub tileW nameW) 2,
   GoInt.add (GoInt.add (GoInt.quo tileH 2) (Round (Height (nameFont fonts)))) pad).

End Layout.

(** ** Raster images: the parts of [image] and [image/draw] the programs call *)

Module Raster.

(** [image.Rectangle]: the points with [x0 <= x < x1] and [y0 <= y < y1]. *)
Record Rectangle : Type := mkRect { x0 : Z; y0 : Z; x1 : Z; y1 : Z }.

(** [image.Rect]: the corners are put in order. *)
Definition Rect (ax ay bx by_ : Z) : Rectangle :=
  let '(ax, bx) := if bx <? ax then (bx, ax) else (ax, bx) in
  let '(ay, by_) := if by_ <? ay then (by_, ay) else (ay, by_) in
  mkRect ax ay bx by_.

Definition Empty (r : Rectangle) : bool := (x1 r <=? x0 r) || (y1 r <=? y0 r).

Definition ZR : Rectangle := mkRect 0 0 0 0.

(** [Rectangle.Intersect]. *)
Definition Intersect (r s : Rectangle) : Rectangle :=
  let r := mkRect (if x0 r <? x0 s then x0 s else x0 r)
                  (if y0 r <? y0 s then y0 s else y0 r)
                  (if x1 s <? x1 r then x1 s else x1 r)
                  (if y1 s <? y1 r then y1 s else y1 r) in
  if Empty r then ZR else r.

(** [Rectangle.Add]: translation by a point. *)
Definition Add (r : Rectangle) (dx dy : Z) : Rectangle :=
  mkRect (GoInt.add (x0 r) dx) (GoInt.add (y0 r) dy)
         (GoInt.add (x1 r) dx) (GoInt.add (y1 r) dy).

(** [Point.In]. *)
Definition inside (x y : Z) (r : Rectangle) : bool :=
  (x0 r <=? x) && (x <? x1 r) && (y0 r <=? y) && (y <? y1 r).

(** [*image.RGBA]: the bounds and the pixel at each point of them. *)
Record Image : Type := { Bounds : Rectangle; At : Z -> Z -> Colour.RGBA }.

(** The largest allocation the Go runtime accepts on the 64-bit platforms
    ([maxAlloc], 48 address bits): [make] panics above it. *)
Definition maxAlloc : Z := 2 ^ 48.

(** [image.NewRGBA]: all pixels zero.  The call panics when a side is
    negative or the byte count [4 * Dx * Dy], multiplied out in 64 bits
    from the left, overflows or does not fit an [int]; and its
    [make([]uint8, n)] panics when the byte count exceeds [maxAlloc].
    Whether the machine has that much memory is not modelled. *)
Definition NewRGBA (r : Rectangle) : Colour.outcome Image :=
  let dx := GoInt.sub (x1 r) (x0 r) in
  let dy := GoInt.sub (y1 r) (y0 r) in
  if (dx <? 0) || (dy <? 0) || (2 ^ 64 <=? 4 * dx) || (GoInt.maxInt <? 4 * dx * dy)
  then Colour.Panic
  else if maxAlloc <? 4 * dx * dy then Colour.Panic
  else Colour.Ret {| Bounds := r; At := fun _ _ => Colour.mkRGBA 0 0 0 0 |}.

(** The channels [Color.RGBA()] returns, 16 bits each: of a [color.RGBA]
    and of [color.White]. *)
Definition RGBA16 (c : Colour.RGBA) : Z * Z * Z * Z :=
  let w v := Z.lor v (Z.shiftl v 8) in
  (w (Colour.R c), w (Colour.G c), w (Colour.B c), w (Colour.A c)).

Definition White16 : Z * Z * Z * Z := (65535, 65535, 65535, 65535).

Definition white : Colour.RGBA := Colour.mkRGBA 255 255 255 255.

(** The bounds of an [image.Uniform]. *)
Definition uniformBounds : Rectangle :=
  mkRect (-1000000000) (-1000000000) 1000000000 1000000000.

(** [draw.Draw(dst, r, &image.Uniform{c}, image.Point{}, draw.Src)] for
    the 16-bit channels [src] of [c]: [r] is clipped to the bounds of the
    destination and of the source, moved to the corner of [r]; the pixels
    left are set to the high bytes of the channels. *)
Definition DrawUniform (dst : Image) (r : Rectangle) (src : Z * Z * Z * Z) : Image :=
  let '(sr, sg, sb, sa) := src in
  let r' := Intersect r (Bounds dst) in
  let r' := Intersect r' (Add uniformBounds (GoInt.sub (x0 r) 0) (GoInt.sub (y0 r) 0)) in
  if Empty r' then dst
  else
    let px := Colour.mkRGBA (Z.shiftr sr 8 mod 256) (Z.shiftr sg 8 mod 256)
                (Z.shiftr sb 8 mod 256) (Z.shiftr sa 8 mod 256) in
    {| Bounds := Bounds dst;
       At := fun x y => if inside x y r' then px else At dst x y |}.

(** main.go, the canvas of one iteration before the texts are drawn: a
    white image with four border bars. *)
Definition tile (tileW tileH : Z) (border : Colour.RGBA) : Colour.outcome Image :=
  match NewRGBA (Rect 0 0 tileW tileH) with
  | Colour.Panic => Colour.Panic
  | Colour.Ret img =>
      let img := DrawUniform img (Bounds img) White16 in
      let bt := Layout.bt tileH in
      let img := DrawUniform img (Rect 0 0 tileW bt) (RGBA16 border) in
      let img := DrawUniform img (Rect 0 (GoInt.sub tileH bt) tileW tileH) (RGBA16 border) in
      let img := DrawUniform img (Rect 0 0 bt tileH) (RGBA16 border) in
      let img := DrawUniform img (Rect (GoInt.sub tileW bt) 0 tileW tileH) (RGBA16 border) in
      Colour.Ret img
  end.

(** part_000, the canvas of one iteration before the texts are drawn. *)
Definition card (bgColor : Colour.RGBA) : Colour.outcome Image :=
  match NewRGBA (Rect 0 0 2456 1882) with
  | Colour.Panic => Colour.Panic
  | Colour.Ret img => Colour.Ret (DrawUniform img (Bounds img) (RGBA16 bgColor))
  end.

End Raster.

(** ** The batch loops *)

Module IO.

(** The state of an output file: created and still empty, left incomplete
    by a failed [png.Encode], or holding the encoded card. *)
Inductive file (card : Type) : Type :=
| Empty
| Partial
| Png (c : card).
Arguments Empty {card}.
Arguments Partial {card}.
Arguments Png {card} c.

Definition isPng {card : Type} (f : file card) : bool :=
  match f with Png _ => true | _ => false end.

(** What a run takes from its surroundings: [filepath.Join] and the [%.4f]
    formatting of [fmt] as functions, and for each path whether
    [os.Create] succeeds and whether [png.Encode] to the created file
    succeeds; for part_000 also the [%.3f] formatting and, for a font
    size and a text, the error that [DrawString] of the freetype context
    returns when a glyph of the text cannot be loaded ([None] when the
    text is drawn). *)
Record Env : Type := {
  Join : string -> string -> string;
  formatMass : F64.float64 -> string;
  createOK : string -> bool;
  encodeOK : string -> bool;
  formatMass3 : F64.float64 -> string;
  drawError : Z -> string -> option string
}.

(** The lines written with [log.Printf] and [log.Println]. *)
Inductive logLine : Type :=
| ColourWarning (hexStr name : string)
| CreateFailed (name : string)
| EncodeFailed (name : string)
| DrawFailed (err : string).

Record World (card : Type) : Type := {
  fs : gmap string (file card);
  stdout : list string;
  logged : list logLine
}.
Arguments fs {card} w.
Arguments stdout {card} w.
Arguments logged {card} w.

(** The output files that hold a complete PNG. *)
Definition pngFiles {card : Type} (w : World card) : gmap string (file card) :=
  filter (fun kv => isPng (snd kv) = true) (fs w).

(** [%03d] of [fmt]: zero-padded to width 3, the sign counted in. *)
Definition padZero (width : nat) (digits : string) : string :=
  String.app (string_of_list_ascii (repeat "0"%char (width - String.length digits)))
    digits.

Definition fmt03d (n : Z) : string :=
  if n <? 0 then String.app "-" (padZero 2 (pretty (- n)))
  else padZero 3 (pretty n).

End IO.

Module MainGo.
Import IO.

(** [Element]; the field [Type] holds the normalised category. *)
Record Element : Type := {
  Number : Z;
  Symbol : string;
  Name : string;
  Mass : F64.float64;
  Type_ : string
}.

(** What one iteration draws before it saves. *)
Record Tile : Type := {
  tileW : Z;
  tileH : Z;
  border : Colour.RGBA;
  bt : Z;
  numTxt : string;
  numAt : Z * Z;
  massTxt : string;
  massAt : Z * Z;
  symAt : Z * Z;
  nameAt : Z * Z
}.

Definition draw (env : Env) (colours : gmap string string) (fonts : Layout.Fonts)
    (tileW tileH : Z) (e : Element) : Tile :=
  let massTxt := formatMass env (Mass e) in
  {| tileW := tileW;
     tileH := tileH;
     border := Colour.border colours (Type_ e);
     bt := Layout.bt tileH;
     numTxt := pretty (Number e);
     numAt := Layout.numberOrigin fonts tileH;
     massTxt := massTxt;
     massAt := Layout.massOrigin fonts tileW tileH massTxt;
     symAt := Layout.symbolOrigin fonts tileW tileH (Symbol e);
     nameAt := Layout.nameOrigin fonts tileW tileH (Name e) |}.

(** [fmt.Sprintf("%03d_%s.png", e.Number, e.Symbol)]. *)
Definition fname (e : Element) : string :=
  String.app (fmt03d (Number e)) (String.app "_" (String.app (Symbol e) ".png")).

Definition path (env : Env) (outdir : string) (e : Element) : string :=
  Join env outdir (fname e).

(** The save at the end of an iteration.  The errors of [os.Create],
    [png.Encode] and [Close] are dropped: after a failed [os.Create] the
    file is nil, on which [Encode] and [Close] fail without effect. *)
Definition save (env : Env) (p : string) (img : Tile) (files : gmap string (file Tile))
  : gmap string (file Tile) :=
  if createOK env p then
    if encodeOK env p then <[p := Png img]> files
    else <[p := Partial]> files
  else files.

(** What one iteration of the loop over [elements] does once its canvas
    is allocated. *)
Definition iteration (env : Env) (colours : gmap string string) (fonts : Layout.Fonts)
    (outdir : string) (height : Z) (w : World Tile) (e : Element) : World Tile :=
  let tileH := height in
  let tileW := Layout.tileW tileH in
  let img := draw env colours fonts tileW tileH e in
  {| fs := save env (path env outdir e) img (fs w);
     stdout := stdout w ++ [String.app "Written: " (fname e)];
     logged := logged w |}.

(** One iteration of the loop over [elements]: it starts with
    [image.NewRGBA(image.Rect(0, 0, tileW, tileH))], which panics on a
    canvas that cannot be allocated, before anything is written or
    printed. *)
Definition step (env : Env) (colours : gmap string string) (fonts : Layout.Fonts)
    (outdir : string) (height : Z) (w : World Tile) (e : Element)
  : Colour.outcome (World Tile) :=
  match Raster.NewRGBA (Raster.Rect 0 0 (Layout.tileW height) height) with
  | Colour.Panic => Colour.Panic
  | Colour.Ret _ => Colour.Ret (iteration env colours fonts outdir height w e)
  end.

(** The loop, with loaded faces; [main] returns after it. *)
Fixpoint loop (env : Env) (colours : gmap string string) (fonts : Layout.Fonts)
    (outdir : string) (height : Z) (elements : list Element) (w : World Tile)
  : Colour.outcome (World Tile) :=
  match elements with
  | [] => Colour.Ret w
  | e :: rest =>
      match step env colours fonts outdir height w e with
      | Colour.Panic => Colour.Panic
      | Colour.Ret w' => loop env colours fonts outdir height rest w'
      end
  end.

End MainGo.

Module Part000.
Import IO Colour.

Definition outputDir : string := "elements".

Record Element : Type := {
  Name : string;
  Symbol : string;
  AtomicNumber : Z;
  AtomicMass : F64.float64;
  Category : string
}.

(** What one iteration draws: the background and the element's texts. *)
Record Card : Type := {
  bg : RGBA;
  number : string;
  symbol : string;
  name : string
}.

(** [fmt.Sprintf("%03d-%s.png", el.AtomicNumber, el.Name)]. *)
Definition filename (el : Element) : string :=
  String.app (fmt03d (AtomicNumber el)) (String.app "-" (String.app (Name el) ".png")).

Definition path (env : Env) (el : Element) : string :=
  Join env outputDir (filename el).

(** [log.Println(err)] of [drawCenteredText], for the error of
    [DrawString]. *)
Definition drawLog (err : option string) : list logLine :=
  match err with
  | Some e => [DrawFailed e]
  | None => []
  end.

(** What the three [drawCenteredText] calls of an iteration log: the
    symbol at size 180, the name at size 40 and the mass, formatted with
    [%.3f], at size 28.  (The error of the [DrawString] call for the
    atomic number is dropped.) *)
Definition textErrors (env : Env) (el : Element) : list logLine :=
  drawLog (drawError env 180 (Symbol el))
  ++ drawLog (drawError env 40 (Name el))
  ++ drawLog (drawError env 28 (formatMass3 env (AtomicMass el))).

(** One iteration of the loop over [elements]; [Panic] when
    [parseHexColor] indexes an empty string. *)
Definition step (env : Env) (colorMap : gmap string string) (w : World Card)
    (el : Element) : outcome (World Card) :=
  match bgColor colorMap (Category el) with
  | Panic => Panic
  | Ret (bgColor, warning) =>
      let log0 :=
        match warning with
        | Some hexStr => logged w ++ [ColourWarning hexStr (Name el)]
        | None => logged w
        end in
      let log1 := log0 ++ textErrors env el in
      let img := {| bg := bgColor; number := pretty (AtomicNumber el);
                    symbol := Symbol el; name := Name el |} in
      let filepath := path env el in
      if negb (createOK env filepath) then
        (* logged, [continue] *)
        Ret {| fs := fs w; stdout := stdout w;
               logged := log1 ++ [CreateFailed (Name el)] |}
      else if negb (encodeOK env filepath) then
        Ret {| fs := <[filepath := Partial]> (fs w);
               stdout := stdout w ++ [String.app "Created " filepath];
               logged := log1 ++ [EncodeFailed (Name el)] |}
      else
        Ret {| fs := <[filepath := Png img]> (fs w);
               stdout := stdout w ++ [String.app "Created " filepath];
               logged := log1 |}
  end.

(** The loop; [Ret] is its normal end. *)
Fixpoint loop (env : Env) (colorMap : gmap string string) (elements : list Element)
    (w : World Card) : outcome (World Card) :=
  match elements with
  | [] => Ret w
  | el :: rest =>
      match step env colorMap w el with
      | Panic => Panic
      | Ret w' => loop env colorMap rest w'
      end
  end.

(** [main] from its first [Printf] on: the announcement, the loop, and
    the closing [Printf], whose format starts with a line feed and so
    prints an empty line first.  [Ret] is the normal return of [main]. *)
Definition run (env : Env) (colorMap : gmap string string) (elements : list Element)
    (w : World Card) : outcome (World Card) :=
  let announced :=
    {| fs := fs w;
       stdout := stdout w ++
         [String.app "Generating "
            (String.app (pretty (Z.of_nat (length elements)))
               (String.app " element images in '"
                  (String.app outputDir "/' folder...")))];
       logged := logged w |} in
  match loop env colorMap elements announced with
  | Panic => Panic
  | Ret w' =>
      Ret {| fs := fs w';
             stdout := stdout w' ++
               [EmptyString;
                String.app "Done! All "
                  (String.app (pretty (Z.of_nat (length elements)))
                     " element images have been saved.")];
             logged := logged w' |}
  end.

End Part000.

(** ** Fixed-point coordinates: package [fixed], and [drawText] of main.go *)

Module Fixed.

(** [fixed.I]: an [int] as a 26.6 fixed-point number, an [int32]. *)
Definition I (i : Z) : Z := GoInt.wrap32 (GoInt.wrap (Z.shiftl i 6)).

(** [fixed.P]. *)
Definition P (x y : Z) : Z * Z := (I x, I y).

(** main.go, [drawText]: the [Dot] of the drawer that writes the text,
    for the origin the batch loop computed. *)
Definition drawTextDot (origin : Z * Z) : Z * Z := P (fst origin) (snd origin).

End Fixed.

(** ** Text placement of part_000 *)

Module Part000Text.

Definition imgWidth : Z := 2456.
Definition imgHeight : Z := 1882.

(** part_000, [drawCenteredText]: the point the text is drawn at, for the
    face built from the font at the given size; [pt.X -= width / 2] on
    [int32]. *)
Definition drawCenteredText (face : Layout.Face) (text : string) (pt : Z * Z) : Z * Z :=
  let width := Layout.MeasureString face text in
  (GoInt.wrap32 (fst pt - GoInt.wrap32 (Z.quot width 2)), snd pt).

(** The centre point of the symbol:
    [fixed.Point26_6{X: fixed.I(imgWidth / 2), Y: fixed.I(imgHeight/2 + 30)}]. *)
Definition centerPointSymbol : Z * Z :=
  (Fixed.I (Z.quot imgWidth 2), Fixed.I (Z.quot imgHeight 2 + 30)).

End Part000Text.

(** ** The element list of main.go: what [fetchElements] does with the
    decoded records *)

Module Fetch.
Import Utf8.

Definition byte (b : Z) : ascii := ascii_of_N (Z.to_N (b mod 256)).

(** [utf8.AppendRune]: the UTF-8 encoding of a code point; a surrogate
    or a value outside Unicode is written as [RuneError]. *)
Definition encodeRune (r : rune) : list ascii :=
  let three r :=
    [byte (Z.lor 224 (Z.shiftr r 12));
     byte (Z.lor 128 (Z.land (Z.shiftr r 6) 63));
     byte (Z.lor 128 (Z.land r 63))] in
  if r <? 0 then three RuneError
  else if r <=? 127 then [byte r]
  else if r <=? 2047 then
    [byte (Z.lor 192 (Z.shiftr r 6)); byte (Z.lor 128 (Z.land r 63))]
  else if (1114111 <? r) || between 55296 r 57343 then three RuneError
  else if r <=? 65535 then three r
  else
    [byte (Z.lor 240 (Z.shiftr r 18));
     byte (Z.lor 128 (Z.land (Z.shiftr r 12) 63));
     byte (Z.lor 128 (Z.land (Z.shiftr r 6) 63));
     byte (Z.lor 128 (Z.land r 63))].

(** The Go string holding the given code points. *)
Definition encode (t : list rune) : string :=
  string_of_list_ascii (flat_map encodeRune t).

(** The fields of a record of [SourceRoot.Elements] that are read. *)
Record SourceElement : Type := {
  number : Z;
  symbol : string;
  name : string;
  atomic_mass : F64.float64;
  category : string
}.

Section CaseTable.

Variable toLowerRune : rune -> rune.

(** The body of the loop over [root.Elements]. *)
Definition convert (e : SourceElement) : MainGo.Element :=
  {| MainGo.Number := number e;
     MainGo.Symbol := symbol e;
     MainGo.Name := name e;
     MainGo.Mass := atomic_mass e;
     MainGo.Type_ :=
       encode (Normaliser.normaliseCategory toLowerRune (decode (category e))) |}.

(** [if len(es) > 118 { es = es[:118] }]. *)
Definition cap (es : list MainGo.Element) : list MainGo.Element :=
  if (118 <? length es)%nat then firstn 118 es else es.

(** The slices [fetchElements] can return for the decoded records:
    [sort.Slice] leaves some permutation of the slice that is in
    ascending order of [Number]; it is not stable, so the order of
    elements with equal numbers is not fixed. *)
Definition returns (root : list SourceElement) (es : list MainGo.Element) : Prop :=
  exists sorted,
    Permutation sorted (map convert root)
    /\ StronglySorted Z.le (map MainGo.Number sorted)
    /\ es = cap sorted.

End CaseTable.

End Fetch.

(** ** main.go, [main]: from the inputs to the end of the run *)

Module Program.
Import IO.

(** How a run ends: [main] returns; [log.Fatal] prints a message and
    exits with status 1; a run-time panic. *)
Inductive exit : Type :=
| Returned (w : World MainGo.Tile)
| Fatal (msg : string) (w : World MainGo.Tile)
| Panicked (w : World MainGo.Tile).

Definition worldOf (x : exit) : World MainGo.Tile :=
  match x with
  | Returned w => w
  | Fatal _ w => w
  | Panicked w => w
  end.

(** [os.ReadFile] of the colour file and [json.Unmarshal] into [Colours]. *)
Inductive coloursInput : Type :=
| ColoursUnreadable (err : string)
| ColoursMalformed (err : string)
| ColoursTable (colours : gmap string string).

(** What a run reads besides its flags: whether [Untitled.png] opens (the
    error if not), the colour file, the result of [loadFont] on the font
    path for each size ([None] for the nil face of a failed load), and
    the result of [fetchElements]. *)
Record Inputs : Type := {
  sampleError : option string;
  coloursFile : coloursInput;
  loadFont : F64.float64 -> option Layout.Face;
  fetched : string + list MainGo.Element
}.

Definition println (w : World MainGo.Tile) (line : string) : World MainGo.Tile :=
  {| fs := fs w; stdout := stdout w ++ [line]; logged := logged w |}.

(** A face for the places a nil face is never consulted. *)
Definition nilFace : Layout.Face :=
  {| Layout.GlyphAdvance := fun _ => None;
     Layout.Kern := fun _ _ => 0;
     Layout.Height := 0 |}.

Definition isNil (f : option Layout.Face) : bool :=
  match f with None => true | Some _ => false end.

(** An iteration calls a method of a nil face, which panics: [Metrics]
    on the number, mass and name faces for every element,
    [GlyphAdvance] on the symbol face for a symbol that is not empty. *)
Definition derefsNil (numFont symFont nameFont massFont : option Layout.Face)
    (e : MainGo.Element) : bool :=
  isNil numFont || isNil massFont
  || (isNil symFont && negb (String.eqb (MainGo.Symbol e) ""))
  || isNil nameFont.

(** The loop over [elements] with the faces as loaded; a panic, of
    [image.NewRGBA] or of a nil face, ends the run before the iteration
    has created its file or printed its line. *)
Fixpoint loop (env : Env) (colours : gmap string string)
    (numFont symFont nameFont massFont : option Layout.Face)
    (outdir : string) (height : Z) (elements : list MainGo.Element)
    (w : World MainGo.Tile) : exit :=
  match elements with
  | [] => Returned w
  | e :: rest =>
      let fonts :=
        {| Layout.numFont := default nilFace numFont;
           Layout.symFont := default nilFace symFont;
           Layout.nameFont := default nilFace nameFont;
           Layout.massFont := default nilFace massFont |} in
      match MainGo.step env colours fonts outdir height w e with
      | Colour.Panic => Panicked w
      | Colour.Ret w' =>
          if derefsNil numFont symFont nameFont massFont e then Panicked w
          else loop env colours numFont symFont nameFont massFont outdir height rest w'
      end
  end.

(** main.go, [main], after [flag.Parse]; the errors of the four
    [loadFont] calls and of [os.MkdirAll] are dropped. *)
Definition main (env : Env) (inp : Inputs) (outdir : string) (height : Z)
    (w : World MainGo.Tile) : exit :=
  match sampleError inp with
  | Some err => Fatal err w
  | None =>
      let tileH := height in
      match coloursFile inp with
      | ColoursUnreadable err =>
          Returned (println w (String.app "Error reading colours.json: " err))
      | ColoursMalformed err =>
          Returned (println w (String.app "Error parsing colours.json: " err))
      | ColoursTable colours =>
          let numFont := loadFont inp (Layout.fontSize Layout.Number tileH) in
          let symFont := loadFont inp (Layout.fontSize Layout.Symbol tileH) in
          let nameFont := loadFont inp (Layout.fontSize Layout.Name tileH) in
          let massFont := loadFont inp (Layout.fontSize Layout.Mass tileH) in
          match fetched inp with
          | inl err =>
              Returned (println w (String.app "Error fetching elements: " err))
          | inr elements =>
              loop env colours numFont symFont nameFont massFont outdir height
                elements w
          end
      end
  end.

End Program.

(** * Vocabulary of the statements *)

(** ** Colours *)

(** The inputs [parseHexColor] accepts: ['#'] and six hexadecimal digits. *)
Definition wellFormed7 (s : string) : Prop :=
  exists a b c d e f,
    Colour.isHex a /\ Colour.isHex b /\ Colour.isHex c
    /\ Colour.isHex d /\ Colour.isHex e /\ Colour.isHex f
    /\ s = String "#" (Colour.hex6 a b c d e f).

(** ** Normalised categories *)

Definition asciiText (s : Normaliser.text) : Prop := Forall (fun r => 0 <= r < 128) s.

(** A field: not empty and free of white space. *)
Definition word (w : Normaliser.text) : Prop :=
  w <> [] /\ Forall (fun r => Utf8.IsSpace r = false) w.

(** Two white-space code points in a row. *)
Fixpoint adjacentSpaces (s : Normaliser.text) : bool :=
  match s with
  | r :: s' =>
      match s' with
      | r' :: _ => (Utf8.IsSpace r && Utf8.IsSpace r') || adjacentSpaces s'
      | [] => false
      end
  | [] => false
  end.

(** What the cleaning establishes for every code point: it is its own lower
    case and neither a hyphen nor an underscore. *)
Definition settled (lower : Utf8.rune -> Utf8.rune) (r : Utf8.rune) : Prop :=
  lower r = r /\ r <> 45 /\ r <> 95.

(** The canonical family names the [switch] returns. *)
Definition canon : list string :=
  ["nonmetal"; "noble gas"; "alkali metal"; "alkaline earth metal";
   "transition metal"; "post-transition metal"; "lanthanide"; "actinide"].

(** ** Canvas width *)

(** [M / 2^n] rounded to the nearest integer, ties to even, decided as the
    hardware does from the last bit shifted out and the bits below it. *)
Definition rne (M n : Z) : Z :=
  let a := M / 2 ^ n in
  if Z.odd (M / 2 ^ (n - 1)) then
    if M mod 2 ^ (n - 1) =? 0 then (if Z.even a then a else a + 1) else a + 1
  else a.

(** The width in exact integer arithmetic: the product of the mantissa of
    [ratio] and the mantissa of [float64(h)], rounded to 53 bits, then
    truncated to an integer. *)
Definition widthModel (h : Z) : Z :=
  let s := 52 - Z.log2 h in
  let M := 5877173583858628 * (h * 2 ^ s) in
  let n := Z.log2 M - 52 in
  rne M n / 2 ^ (52 + s - n).

(** The width as the specification words it, [round(height * ratio)] for the
    ratio 2456/1882: the integer nearest to [h * 2456 / 1882]. *)
Definition specWidth (h : Z) : Z := (2 * (h * 2456) + 1882) / (2 * 1882).

(** ** Batch runs *)

(** Both file operations of an element succeed. *)
Definition saved (env : IO.Env) (p : string) : bool :=
  IO.createOK env p && IO.encodeOK env p.

Definition pngCount {card : Type} (w : IO.World card) : nat := size (IO.pngFiles w).

(** The state before a run: an empty output directory, nothing printed. *)
Definition emptyWorld {card : Type} : IO.World card :=
  {| IO.fs := ∅; IO.stdout := []; IO.logged := [] |}.

(** What an element's failed save logs in part_000. *)
Definition failureLines (env : IO.Env) (el : Part000.Element) : list IO.logLine :=
  let filepath := Part000.path env el in
  if negb (IO.createOK env filepath) then [IO.CreateFailed (Part000.Name el)]
  else if negb (IO.encodeOK env filepath) then [IO.EncodeFailed (Part000.Name el)]
  else [].

(** The colour table has a well-formed entry for the element. *)
Definition coloured (colorMap : gmap string string) (el : Part000.Element) : Prop :=
  wellFormed7 (Colour.selectHex colorMap (Part000.Category el)).

(** The font draws the three centred texts of the element without error. *)
Definition fontDraws (env : IO.Env) (el : Part000.Element) : Prop :=
  Part000.textErrors env el = [].

(** The canvas of main.go can be allocated at the given height. *)
Definition allocates (height : Z) : Prop :=
  Raster.NewRGBA (Raster.Rect 0 0 (Layout.tileW height) height) <> Colour.Panic.

(** The worlds the loop of main.go goes through when no iteration
    panics. *)
Definition effects (env : IO.Env) (colours : gmap string string) (fonts : Layout.Fonts)
    (outdir : string) (height : Z) (elements : list MainGo.Element)
    (w : IO.World MainGo.Tile) : IO.World MainGo.Tile :=
  fold_left (MainGo.iteration env colours fonts outdir height) elements w.

(** ** Colours as bytes, and strings around them *)

(** The channels are bytes and the colour is opaque. *)
Definition opaqueBytes (c : Colour.RGBA) : Prop :=
  0 <= Colour.R c <= 255 /\ 0 <= Colour.G c <= 255 /\ 0 <= Colour.B c <= 255
  /\ Colour.A c = 255.

(** A byte that is ASCII white space, and a printable one. *)
Definition blank (a : ascii) : Prop :=
  9 <= Utf8.code a <= 13 \/ Utf8.code a = 32.

Definition plain (a : ascii) : Prop := 33 <= Utf8.code a <= 127.

Definition blanks (s : string) : Prop := Forall blank (list_ascii_of_string s).

(** ** File names *)

Definition isDigit (a : ascii) : Prop := 48 <= Utf8.code a <= 57.

Definition digitString (s : string) : Prop := Forall isDigit (list_ascii_of_string s).

(** The number a string of decimal digits denotes. *)
Fixpoint decimal (s : string) : N :=
  match s with
  | EmptyString => 0
  | String c s' => (N_of_ascii c - 48) * 10 ^ N.of_nat (String.length s') + decimal s'
  end%N.

(** ** Batch runs: exact outcomes *)

(** The colour table gives the element no hex string at all: that of its
    category, or else that of ["unknown"], is missing or empty. *)
Definition noColour (colorMap : gmap string string) (el : Part000.Element) : Prop :=
  Colour.selectHex colorMap (Part000.Category el) = "".

(** The warning part_000 logs for an element whose colour does not parse. *)
Definition colourLines (colorMap : gmap string string) (el : Part000.Element)
  : list IO.logLine :=
  match Colour.bgColor colorMap (Part000.Category el) with
  | Colour.Ret (_, Some hexStr) => [IO.ColourWarning hexStr (Part000.Name el)]
  | _ => []
  end.

(** The lines part_000 prints: its announcement, a line for each element
    whose file could be created, and its closing line. *)
Definition generatingLine (n : nat) : string :=
  String.app "Generating "
    (String.app (pretty (Z.of_nat n))
       (String.app " element images in '" (String.app Part000.outputDir "/' folder..."))).

Definition createdLines (env : IO.Env) (elements : list Part000.Element) : list string :=
  map (fun el => String.app "Created " (Part000.path env el))
    (List.filter (fun el => IO.createOK env (Part000.path env el)) elements).

Definition doneLine (n : nat) : string :=
  String.app "Done! All "
    (String.app (pretty (Z.of_nat n)) " element images have been saved.").

(** The card part_000 draws for an element on background [c]. *)
Definition cardOn (c : Colour.RGBA) (el : Part000.Element) : Part000.Card :=
  {| Part000.bg := c;
     Part000.number := pretty (Part000.AtomicNumber el);
     Part000.symbol := Part000.Symbol el;
     Part000.name := Part000.Name el |}.

(** What a save leaves at path [p] that held [old]: the new content when
    the file could be created, the old file otherwise. *)
Definition afterSave {card : Type} (env : IO.Env) (p : string) (img : card)
    (old : option (IO.file card)) : option (IO.file card) :=
  if IO.createOK env p
  then Some (if IO.encodeOK env p then IO.Png img else IO.Partial)
  else old.

(** The lines main.go prints. *)
Definition writtenLines (elements : list MainGo.Element) : list string :=
  map (fun e => String.app "Written: " (MainGo.fname e)) elements.

(** [filepath.Join] keeps the listed file names of the directory apart:
    two of them that differ give different paths.  (It cleans its result,
    so this fails for names like ["a"] and ["./a"].) *)
Definition namesApart (env : IO.Env) (dir : string) (names : list string) : Prop :=
  forall a b, In a names -> In b names -> IO.Join env dir a = IO.Join env dir b -> a = b.

(** ** Spellings of a category *)

(** The characters the normaliser treats as word separators: the hyphen,
    the underscore and ASCII white space. *)
Definition separator (r : Utf8.rune) : Prop :=
  r = 45 \/ r = 95 \/ r = 32 \/ 9 <= r <= 13.

(** The spellings the [switch] of [normaliseCategory] replaces. *)
Definition aliases : list string :=
  ["diatomic nonmetal"; "polyatomic nonmetal"; "noble gases"; "alkali metals";
   "alkaline earth metals"; "transition metals"; "post transition metal";
   "post transition metals"; "lanthanoid"; "lanthanoids"; "lanthanides";
   "actinoid"; "actinoids"; "actinides"].

(** What the three mappings of [clean] make of one code point. *)
Definition spaced (lower : Utf8.rune -> Utf8.rune) (r : Utf8.rune) : Utf8.rune :=
  let l := lower r in
  let l := if l =? 45 then 32 else l in
  if l =? 95 then 32 else l.

(** ** Sample inputs *)

(** A face whose glyphs all advance 10 pixels. *)
Definition plainFace : Layout.Face :=
  {| Layout.GlyphAdvance := fun _ => Some 640;
     Layout.Kern := fun _ _ => 0;
     Layout.Height := 1280 |}.

Definition plainFonts : Layout.Fonts :=
  {| Layout.numFont := plainFace; Layout.symFont := plainFace;
     Layout.nameFont := plainFace; Layout.massFont := plainFace |}.

(** Surroundings in which every path under [elements/002] is unwritable
    and the font draws every text. *)
Definition demoEnv : IO.Env :=
  {| IO.Join := fun dir file => String.app dir (String.app "/" file);
     IO.formatMass := fun _ => "1.0080";
     IO.createOK := fun p => negb (String.prefix "elements/002" p);
     IO.encodeOK := fun _ => true;
     IO.formatMass3 := fun _ => "1.008";
     IO.drawError := fun _ _ => None |}.

(** The same surroundings with a font that cannot draw the symbol ["He"]. *)
Definition glyphlessEnv : IO.Env :=
  {| IO.Join := IO.Join demoEnv;
     IO.formatMass := IO.formatMass demoEnv;
     IO.createOK := IO.createOK demoEnv;
     IO.encodeOK := IO.encodeOK demoEnv;
     IO.formatMass3 := IO.formatMass3 demoEnv;
     IO.drawError := fun size text =>
       if (size =? 180) && String.eqb text "He" then Some "no glyph" else None |}.

Definition demoColours : gmap string string :=
  {[ "nonmetal" := "#3498db" ]}.

Definition demoElements : list MainGo.Element :=
  [ {| MainGo.Number := 1; MainGo.Symbol := "H"; MainGo.Name := "Hydrogen";
       MainGo.Mass := F64.of_int 1; MainGo.Type_ := "nonmetal" |};
    {| MainGo.Number := 2; MainGo.Symbol := "He"; MainGo.Name := "Helium";
       MainGo.Mass := F64.of_int 4; MainGo.Type_ := "nonmetal" |};
    {| MainGo.Number := 6; MainGo.Symbol := "C"; MainGo.Name := "Carbon";
       MainGo.Mass := F64.of_int 12; MainGo.Type_ := "nonmetal" |} ].

Definition demoElements000 : list Part000.Element :=
  [ {| Part000.Name := "Hydrogen"; Part000.Symbol := "H"; Part000.AtomicNumber := 1;
       Part000.AtomicMass := F64.of_int 1; Part000.Category := "nonmetal" |};
    {| Part000.Name := "Helium"; Part000.Symbol := "He"; Part000.AtomicNumber := 2;
       Part000.AtomicMass := F64.of_int 4; Part000.Category := "nonmetal" |};
    {| Part000.Name := "Carbon"; Part000.Symbol := "C"; Part000.AtomicNumber := 6;
       Part000.AtomicMass := F64.of_int 12; Part000.Category := "nonmetal" |} ].

(** Comparisons of integers decided case by case. *)
Ltac zbool :=
  repeat match goal with
    | |- context [Z.leb ?a ?b] => destruct (Z.leb_spec a b); try lia
    | |- context [Z.ltb ?a ?b] => destruct (Z.ltb_spec a b); try lia
    | |- context [Z.eqb ?a ?b] => destruct (Z.eqb_spec a b); try lia
    end;
  simpl; try lia; try congruence.

(** The last of six bytes that is no hexadecimal digit is the one at
    index [i]. *)
Ltac lastBad i :=
  exists i; split; [lia|]; split; [reflexivity|];
  let j := fresh "j" in
  intros j ?;
  destruct j as [|[|[|[|[|[|j]]]]]]; try lia; eexists; eassumption.

(** * Properties *)

(** ** Integers *)

Section IntFacts.
Import GoInt.

Lemma wrap_inRange z : inRange z -> wrap z = z.
Proof.
  unfold inRange, wrap, minInt, maxInt. intros Hz.
  rewrite Z.mod_small by lia. lia.
Qed.

Lemma wrap_range z : inRange (wrap z).
Proof.
  unfold inRange, wrap, minInt, maxInt.
  pose proof (Z.mod_pos_bound (z + 2 ^ 63) (2 ^ 64) ltac:(lia)). lia.
Qed.

Lemma quot_bounds a b :
  0 < b ->
  (0 <= a -> 0 <= Z.quot a b <= a) /\ (a <= 0 -> a <= Z.quot a b <= 0).
Proof.
  intros Hb. pose proof (Z.quot_rem a b ltac:(lia)) as E.
  split; intros Ha.
  - pose proof (Z.rem_bound_pos a b Ha Hb).
    pose proof (Z.quot_pos a b Ha Hb). nia.
  - pose proof (Z.rem_bound_pos_neg a b Hb Ha).
    assert (Z.quot a b <= 0).
    { rewrite <- (Z.opp_involutive a), Z.quot_opp_l by lia.
      pose proof (Z.quot_pos (- a) b ltac:(lia) Hb). lia. }
    nia.
Qed.

Lemma quot_inRange a b : inRange a -> 0 < b -> inRange (Z.quot a b).
Proof.
  unfold inRange. intros Ha Hb.
  destruct (quot_bounds a b Hb) as [Hp Hn].
  assert (minInt < 0 < maxInt) by (unfold minInt, maxInt; lia).
  destruct (Z.le_gt_cases 0 a);
    [specialize (Hp ltac:(lia))|specialize (Hn ltac:(lia))]; lia.
Qed.

Lemma quo_exact a b : inRange a -> 0 < b -> quo a b = Z.quot a b.
Proof. intros Ha Hb. apply wrap_inRange, quot_inRange; assumption. Qed.

(** Truncated halving is within half a unit of the exact half. *)
Lemma quot2_near a : Z.abs (2 * Z.quot a 2 - a) <= 1.
Proof.
  pose proof (Z.quot_rem a 2 ltac:(lia)) as E.
  pose proof (Z.rem_bound_abs a 2 ltac:(lia)). lia.
Qed.

Lemma wrap32_range z : - 2 ^ 31 <= wrap32 z < 2 ^ 31.
Proof.
  unfold wrap32.
  pose proof (Z.mod_pos_bound (z + 2 ^ 31) (2 ^ 32) ltac:(lia)). lia.
Qed.

Lemma Round_range x : - 2 ^ 25 <= Layout.Round x < 2 ^ 25.
Proof.
  unfold Layout.Round. pose proof (wrap32_range (x + 32)) as H.
  rewrite Z.shiftr_div_pow2 by lia.
  split.
  - apply Z.div_le_lower_bound; lia.
  - apply Z.div_lt_upper_bound; lia.
Qed.

End IntFacts.

(** ** Floating point: the canvas width *)

Section FloatFacts.

(** [iter_pos] is iteration [Pos.to_nat] times. *)
Lemma iter_pos_nat {T : Type} (f : T -> T) p :
  forall x, SpecFloat.iter_pos f p x = Nat.iter (Pos.to_nat p) f x.
Proof.
  induction p as [p IH|p IH|]; intros x; cbn [SpecFloat.iter_pos].
  - rewrite !IH, Pos2Nat.inj_xI. cbn [Nat.mul]. rewrite Nat.add_0_r.
    rewrite Nat.iter_succ_r, Nat.iter_add. reflexivity.
  - rewrite !IH, Pos2Nat.inj_xO. cbn [Nat.mul]. rewrite Nat.add_0_r.
    rewrite Nat.iter_add. reflexivity.
  - reflexivity.
Qed.

Lemma shr_1_nonneg m r s :
  0 <= m ->
  shr_1 {| shr_m := m; shr_r := r; shr_s := s |}
  = {| shr_m := m / 2; shr_r := Z.odd m; shr_s := r || s |}.
Proof.
  intros Hm. rewrite <- Z.div2_div.
  destruct m as [|[p|p|]|p]; try reflexivity. lia.
Qed.

(** [k + 1] right shifts of a mantissa: the quotient, the last bit shifted
    out and whether a bit below it was set. *)
Lemma shr_iter (k : nat) (M : Z) :
  0 <= M ->
  Nat.iter (S k) shr_1 {| shr_m := M; shr_r := false; shr_s := false |}
  = {| shr_m := M / 2 ^ Z.of_nat (S k);
       shr_r := Z.odd (M / 2 ^ Z.of_nat k);
       shr_s := negb (M mod 2 ^ Z.of_nat k =? 0) |}.
Proof.
  intros HM. induction k as [|k IH].
  - cbn [Nat.iter]. rewrite shr_1_nonneg by lia.
    change (2 ^ Z.of_nat 1) with 2. change (2 ^ Z.of_nat 0) with 1.
    rewrite Z.div_1_r, Z.mod_1_r. reflexivity.
  - rewrite Nat.iter_succ, IH.
    assert (Hp : 0 < 2 ^ Z.of_nat k) by (apply Z.pow_pos_nonneg; lia).
    assert (Hp1 : 2 ^ Z.of_nat (S k) = 2 ^ Z.of_nat k * 2)
      by (rewrite Nat2Z.inj_succ, Z.pow_succ_r by lia; lia).
    assert (Hp2 : 2 ^ Z.of_nat (S (S k)) = 2 ^ Z.of_nat (S k) * 2)
      by (rewrite (Nat2Z.inj_succ (S k)), Z.pow_succ_r by lia; lia).
    rewrite shr_1_nonneg by (apply Z.div_pos; lia).
    f_equal.
    + rewrite Hp2, Z.div_div by lia. reflexivity.
    + rewrite Hp1. rewrite Z.rem_mul_r by lia.
      pose proof (Z.mod_pos_bound M (2 ^ Z.of_nat k) Hp) as Hb.
      rewrite (Zmod_odd (M / 2 ^ Z.of_nat k)).
      destruct (Z.odd (M / 2 ^ Z.of_nat k));
        destruct (Z.eqb_spec (M mod 2 ^ Z.of_nat k) 0) as [E|E]; cbn [orb negb];
        symmetry.
      * apply negb_true_iff, Z.eqb_neq. lia.
      * apply negb_true_iff, Z.eqb_neq. lia.
      * apply negb_false_iff, Z.eqb_eq. lia.
      * apply negb_true_iff, Z.eqb_neq. lia.
Qed.

Lemma digits2_size p : digits2_pos p = Pos.size p.
Proof. induction p as [p IH|p IH|]; cbn; rewrite ?IH; reflexivity. Qed.

Lemma digits2_log2 p : Z.pos (digits2_pos p) = Z.log2 (Z.pos p) + 1.
Proof.
  destruct p as [p|p|]; cbn [digits2_pos Z.log2];
    rewrite ?digits2_size, ?Pos2Z.inj_succ; lia.
Qed.

Lemma round_shift (M : Z) (pn : positive) :
  0 <= M ->
  let mrs := SpecFloat.iter_pos shr_1 pn
               {| shr_m := M; shr_r := false; shr_s := false |} in
  shr_m mrs = M / 2 ^ Z.pos pn
  /\ round_nearest_even (shr_m mrs) (loc_of_shr_record mrs) = rne M (Z.pos pn).
Proof.
  intros HM. cbv zeta. rewrite iter_pos_nat.
  destruct (Pos2Nat.is_succ pn) as [k Hk]. rewrite Hk, shr_iter by exact HM.
  assert (E1 : Z.of_nat (S k) = Z.pos pn) by (rewrite <- Hk; apply positive_nat_Z).
  assert (E2 : Z.of_nat k = Z.pos pn - 1) by lia.
  rewrite E1, E2. cbn [shr_m]. split; [reflexivity|].
  unfold rne, loc_of_shr_record, round_nearest_even.
  destruct (Z.odd (M / 2 ^ (Z.pos pn - 1)));
    destruct (M mod 2 ^ (Z.pos pn - 1) =? 0); reflexivity.
Qed.

Lemma rne_near M n :
  0 <= M -> 0 < n ->
  M / 2 ^ n <= rne M n <= M / 2 ^ n + 1
  /\ 2 * Z.abs (rne M n * 2 ^ n - M) <= 2 ^ n.
Proof.
  intros HM Hn. unfold rne.
  assert (Hp : 0 < 2 ^ (n - 1)) by (apply Z.pow_pos_nonneg; lia).
  assert (Hpn : 2 ^ n = 2 ^ (n - 1) * 2).
  { replace n with (Z.succ (n - 1)) at 1 by lia. rewrite Z.pow_succ_r by lia. lia. }
  pose proof (Z.div_mod M (2 ^ n) ltac:(lia)) as Hdm.
  pose proof (Z.rem_mul_r M (2 ^ (n - 1)) 2 ltac:(lia) ltac:(lia)) as Hr.
  rewrite <- Hpn in Hr.
  pose proof (Z.mod_pos_bound M (2 ^ (n - 1)) Hp) as Hb.
  rewrite (Zmod_odd (M / 2 ^ (n - 1))) in Hr.
  set (a := M / 2 ^ n) in *. set (r := M mod 2 ^ n) in *.
  set (r' := M mod 2 ^ (n - 1)) in *. set (P := 2 ^ (n - 1)) in *.
  destruct (Z.odd (M / P)).
  - destruct (Z.eqb_spec r' 0).
    + destruct (Z.even a); split; lia.
    + split; lia.
  - split; lia.
Qed.

Lemma Zdigits2_unique x k :
  0 < k -> 2 ^ (k - 1) <= x < 2 ^ k -> Zdigits2 x = k.
Proof.
  intros Hk Hx.
  assert (0 < 2 ^ (k - 1)) by (apply Z.pow_pos_nonneg; lia).
  destruct x as [|p|p]; try lia.
  cbn [Zdigits2]. rewrite digits2_log2.
  rewrite (Z.log2_unique (Z.pos p) (k - 1)); [lia|lia|].
  replace (Z.succ (k - 1)) with k by lia. exact Hx.
Qed.

Lemma Zdigits2_log2 x : 0 < x -> Zdigits2 x = Z.log2 x + 1.
Proof. destruct x as [|p|p]; try lia. intros _. apply digits2_log2. Qed.

(** Rounding a product mantissa of more than 53 bits: the result is
    finite, and its value is the mantissa rounded to 53 bits, scaled. *)
Lemma binary_round_aux_spec (M : positive) (e : Z) :
  let n := Z.log2 (Z.pos M) + 1 - 53 in
  0 < n -> -1074 <= e + n -> e + n + 1 <= 971 ->
  exists m' e',
    binary_round_aux 53 1024 false (Z.pos M) e loc_Exact = S754_finite false m' e'
    /\ e + n <= e' <= e + n + 1
    /\ Z.pos m' * 2 ^ (e' - (e + n)) = rne (Z.pos M) n.
Proof.
  intros n Hn Hlo Hhi.
  pose proof (Z.log2_spec (Z.pos M) ltac:(lia)) as Hlog.
  assert (Hd : Zdigits2 (Z.pos M) = n + 53) by (rewrite Zdigits2_log2; lia).
  unfold binary_round_aux.
  assert (E1 : shr_fexp 53 1024 (Z.pos M) e loc_Exact
               = (SpecFloat.iter_pos shr_1 (Z.to_pos n)
                    {| shr_m := Z.pos M; shr_r := false; shr_s := false |}, e + n)).
  { unfold shr_fexp. rewrite Hd. unfold fexp, emin.
    rewrite Z.max_l by lia. replace (n + 53 + e - 53 - e) with n by lia.
    destruct n as [|pn|pn]; try lia. reflexivity. }
  rewrite E1.
  destruct (round_shift (Z.pos M) (Z.to_pos n) ltac:(lia)) as [Ea Eq].
  rewrite Z2Pos.id in Ea, Eq by lia.
  set (mrs := SpecFloat.iter_pos shr_1 (Z.to_pos n)
                {| shr_m := Z.pos M; shr_r := false; shr_s := false |}) in *.
  rewrite Eq. clear Eq Ea E1 mrs.
  destruct (rne_near (Z.pos M) n ltac:(lia) Hn) as [[Hq1 Hq2] _].
  assert (Ha : 2 ^ 52 <= Z.pos M / 2 ^ n < 2 ^ 53).
  { assert (Hpn : 0 < 2 ^ n) by (apply Z.pow_pos_nonneg; lia).
    assert (E : 2 ^ (Z.log2 (Z.pos M)) = 2 ^ 52 * 2 ^ n).
    { rewrite <- Z.pow_add_r by lia. f_equal. lia. }
    assert (E' : 2 ^ Z.succ (Z.log2 (Z.pos M)) = 2 ^ 53 * 2 ^ n).
    { rewrite <- Z.pow_add_r by lia. f_equal. lia. }
    split.
    - apply Z.div_le_lower_bound; lia.
    - apply Z.div_lt_upper_bound; lia. }
  set (q := rne (Z.pos M) n) in *.
  destruct (Z.eq_dec q (2 ^ 53)) as [Eq53|Nq53].
  - (* the rounding carried into a 54th bit *)
    exists (Z.to_pos (2 ^ 52)), (e + n + 1).
    rewrite Eq53.
    assert (E2 : shr_fexp 53 1024 (2 ^ 53) (e + n) loc_Exact
                 = ({| shr_m := 2 ^ 52; shr_r := false; shr_s := false |}, e + n + 1)).
    { unfold shr_fexp. change (Zdigits2 (2 ^ 53)) with 54. unfold fexp, emin.
      rewrite Z.max_l by lia. replace (54 + (e + n) - 53 - (e + n)) with 1 by lia.
      reflexivity. }
    rewrite E2. cbn [shr_m]. change (2 ^ 52) with (Z.pos (Z.to_pos (2 ^ 52))) at 1.
    cbv iota. destruct (Z.leb_spec (e + n + 1) (1024 - 53)); [|lia].
    split; [reflexivity|]. split; [lia|].
    replace (e + n + 1 - (e + n)) with 1 by lia. reflexivity.
  - assert (Hq : 2 ^ 52 <= q < 2 ^ 53) by lia.
    exists (Z.to_pos q), (e + n).
    assert (E2 : shr_fexp 53 1024 q (e + n) loc_Exact
                 = ({| shr_m := q; shr_r := false; shr_s := false |}, e + n)).
    { unfold shr_fexp. rewrite (Zdigits2_unique q 53) by lia. unfold fexp, emin.
      rewrite Z.max_l by lia. replace (53 + (e + n) - 53 - (e + n)) with 0 by lia.
      reflexivity. }
    rewrite E2. cbn [shr_m].
    destruct q as [|pq|pq] eqn:Epq; try lia.
    destruct (Z.leb_spec (e + n) (1024 - 53)); [|lia].
    split; [reflexivity|]. split; [lia|].
    replace (e + n - (e + n)) with 0 by lia. cbn [Z.to_pos]. lia.
Qed.

Lemma binary_round_aux_exact (m : positive) (e : Z) :
  2 ^ 52 <= Z.pos m < 2 ^ 53 -> -1074 <= e <= 971 ->
  binary_round_aux 53 1024 false (Z.pos m) e loc_Exact = S754_finite false m e.
Proof.
  intros Hm He. unfold binary_round_aux.
  assert (E : shr_fexp 53 1024 (Z.pos m) e loc_Exact
              = ({| shr_m := Z.pos m; shr_r := false; shr_s := false |}, e)).
  { unfold shr_fexp. rewrite (Zdigits2_unique (Z.pos m) 53) by lia. unfold fexp, emin.
    rewrite Z.max_l by lia. replace (53 + e - 53 - e) with 0 by lia. reflexivity. }
  rewrite E. cbn [shr_m loc_of_shr_record round_nearest_even]. rewrite E. cbn [shr_m].
  destruct (Z.leb_spec e (1024 - 53)); [reflexivity|lia].
Qed.

Lemma iter_xO p k : Z.pos (Pos.iter xO p k) = Z.pos p * 2 ^ Z.pos k.
Proof.
  induction k as [|k IH] using Pos.peano_ind.
  - cbn [Pos.iter]. rewrite Pos2Z.inj_xO. change (2 ^ 1) with 2. lia.
  - rewrite Pos.iter_succ, Pos2Z.inj_xO, IH, Pos2Z.inj_succ, Z.pow_succ_r by lia. lia.
Qed.

(** [float64(h)] is exact below [2^53]: the mantissa is [h] shifted to 53
    bits. *)
Lemma of_int_spec h :
  1 <= h < 2 ^ 53 ->
  let s := 52 - Z.log2 h in
  0 <= s <= 52
  /\ 2 ^ 52 <= h * 2 ^ s < 2 ^ 53
  /\ F64.of_int h = S754_finite false (Z.to_pos (h * 2 ^ s)) (- s).
Proof.
  intros Hh s.
  pose proof (Z.log2_spec h ltac:(lia)) as Hlog.
  pose proof (Z.log2_nonneg h) as Hl0.
  assert (Hl : Z.log2 h < 53).
  { apply Z.log2_lt_pow2; lia. }
  assert (Hs : 0 <= s <= 52) by (unfold s; lia).
  assert (Hm : 2 ^ 52 <= h * 2 ^ s < 2 ^ 53).
  { assert (E52 : 2 ^ 52 = 2 ^ Z.log2 h * 2 ^ s)
      by (rewrite <- Z.pow_add_r by lia; f_equal; unfold s; lia).
    assert (E53 : 2 ^ 53 = 2 ^ Z.succ (Z.log2 h) * 2 ^ s)
      by (rewrite <- Z.pow_add_r by lia; f_equal; unfold s; lia).
    assert (0 < 2 ^ s) by (apply Z.pow_pos_nonneg; lia).
    rewrite E52, E53. split; nia. }
  split; [exact Hs|]. split; [exact Hm|].
  destruct h as [|p|p]; try lia.
  unfold F64.of_int, binary_normalize, binary_round.
  assert (Ef : fexp F64.prec F64.emax (Z.pos (digits2_pos p) + 0) = - s).
  { unfold fexp, emin, F64.prec, F64.emax. rewrite digits2_log2.
    rewrite Z.max_l by lia. unfold s. lia. }
  rewrite Ef. unfold shl_align.
  destruct (Z.eq_dec s 0) as [E0|N0].
  - rewrite E0 in *. cbn [Z.opp Z.sub Z.add]. rewrite Z.mul_1_r in Hm |- *.
    cbn [Z.to_pos]. apply binary_round_aux_exact; lia.
  - destruct s as [|ps|ps] eqn:Es; try lia.
    cbn [Z.opp Z.sub Z.add Z.opp].
    assert (Ez : Z.pos (Pos.iter xO p ps) = Z.pos p * 2 ^ Z.pos ps) by apply iter_xO.
    rewrite <- Ez. cbn [Z.to_pos].
    apply binary_round_aux_exact; [rewrite Ez|]; lia.
Qed.

Lemma ratio_value : Layout.ratio = S754_finite false 5877173583858628 (-52).
Proof. vm_compute. reflexivity. Qed.

Lemma to_int_scaled (m' : positive) (e' q t : Z) :
  0 <= t -> - t <= e' <= - t + 1 ->
  Z.pos m' * 2 ^ (e' + t) = q -> q <= 2 ^ 53 ->
  F64.to_int (S754_finite false m' e') = q / 2 ^ t.
Proof.
  intros Ht He Hq Hq53.
  assert (Hv : (if 0 <=? e' then Z.pos m' * 2 ^ e' else Z.pos m' / 2 ^ (- e'))
               = q / 2 ^ t).
  { assert (Hpt : 0 < 2 ^ t) by (apply Z.pow_pos_nonneg; lia).
    destruct (Z.eq_dec e' (- t)) as [->|Ne].
    - replace (- t + t) with 0 in Hq by lia. rewrite Z.mul_1_r in Hq. subst q.
      rewrite Z.opp_involutive.
      destruct (Z.leb_spec 0 (- t)); [|reflexivity].
      replace t with 0 by lia. cbn. rewrite Z.div_1_r. lia.
    - assert (e' = - t + 1) by lia. subst e'.
      replace (- t + 1 + t) with 1 in Hq by lia. change (2 ^ 1) with 2 in Hq.
      subst q.
      destruct (Z.leb_spec 0 (- t + 1)).
      + assert (Et : t = 0 \/ t = 1) by lia. destruct Et as [->| ->].
        * cbn. rewrite Z.div_1_r. lia.
        * cbn [Z.opp Z.add]. change (2 ^ 0) with 1. change (2 ^ 1) with 2.
          rewrite Z.div_mul by lia. lia.
      + replace t with (1 + (- (- t + 1))) at 2 by lia.
        rewrite Z.pow_add_r by lia. change (2 ^ 1) with 2.
        rewrite <- Z.div_div by (try apply Z.pow_pos_nonneg; lia).
        rewrite Z.div_mul by lia. reflexivity. }
  unfold F64.to_int. cbv zeta. rewrite Hv.
  assert (0 <= q / 2 ^ t <= q).
  { assert (0 < 2 ^ t) by (apply Z.pow_pos_nonneg; lia).
    assert (0 <= q) by (subst q; apply Z.mul_nonneg_nonneg; [lia|apply Z.pow_nonneg; lia]).
    split; [apply Z.div_pos; lia|]. apply Z.div_le_upper_bound; nia. }
  unfold GoInt.minInt, GoInt.maxInt.
  destruct (Z.leb_spec (- 2 ^ 63) (q / 2 ^ t)); [|lia].
  destruct (Z.leb_spec (q / 2 ^ t) (2 ^ 63 - 1)); [reflexivity|lia].
Qed.

Lemma product_bits h :
  1 <= h < 2 ^ 53 ->
  let s := 52 - Z.log2 h in
  let M := 5877173583858628 * (h * 2 ^ s) in
  52 <= Z.log2 M - 52 <= 53.
Proof.
  intros Hh s M. destruct (of_int_spec h Hh) as (Hs & Hm & _). fold s in Hs, Hm.
  assert (H1 : 2 ^ 104 <= M) by (unfold M; lia).
  assert (H2 : M < 2 ^ 106) by (unfold M; lia).
  pose proof (Z.log2_le_mono _ _ H1) as L1. rewrite Z.log2_pow2 in L1 by lia.
  pose proof (Z.log2_lt_pow2 M 106 ltac:(lia)) as [L2 _]. specialize (L2 H2). lia.
Qed.

(** The width the program computes is the width of the integer model. *)
Lemma tileW_model h : 1 <= h < 2 ^ 52 -> Layout.tileW h = widthModel h.
Proof.
  intros Hh. unfold Layout.tileW, widthModel.
  destruct (of_int_spec h ltac:(lia)) as (Hs & Hm & Eh).
  pose proof (product_bits h ltac:(lia)) as Hn. cbv zeta in Hn.
  set (s := 52 - Z.log2 h) in *.
  set (M := 5877173583858628 * (h * 2 ^ s)) in *.
  set (n := Z.log2 M - 52) in *.
  assert (Hs1 : 1 <= s).
  { unfold s. assert (Z.log2 h < 52) by (apply Z.log2_lt_pow2; lia). lia. }
  rewrite Eh, ratio_value. unfold F64.mul, SFmul. cbn [xorb].
  assert (EM : Z.pos (5877173583858628 * Z.to_pos (h * 2 ^ s)) = M).
  { rewrite Pos2Z.inj_mul, Z2Pos.id by lia. reflexivity. }
  destruct (binary_round_aux_spec (5877173583858628 * Z.to_pos (h * 2 ^ s)) (-52 + - s))
    as (m' & e' & E & He' & Hq); rewrite ?EM; try lia.
  unfold F64.prec, F64.emax. rewrite EM in E, He', Hq. rewrite E.
  replace (Z.log2 M + 1 - 53) with n in * by (unfold n; lia).
  apply to_int_scaled.
  - lia.
  - lia.
  - rewrite <- Hq. f_equal. f_equal. lia.
  - destruct (rne_near M n ltac:(lia) ltac:(lia)) as [[_ Hq2] _].
    assert (M / 2 ^ n < 2 ^ 53); [|lia].
    apply Z.div_lt_upper_bound; [apply Z.pow_pos_nonneg; lia|].
    rewrite <- Z.pow_add_r by lia.
    pose proof (Z.log2_spec M ltac:(lia)) as [_ HM].
    replace (n + 53) with (Z.succ (Z.log2 M)) by (unfold n; lia). exact HM.
Qed.

(** The quantities of [widthModel] and what is known of them. *)
Lemma widthModel_parts h :
  1 <= h < 2 ^ 52 ->
  exists s mh n q A,
    s = 52 - Z.log2 h
    /\ mh = h * 2 ^ s /\ 2 ^ 52 <= mh < 2 ^ 53
    /\ (n = 52 \/ n = 53) /\ n = Z.log2 (5877173583858628 * mh) - 52
    /\ q = rne (5877173583858628 * mh) n
    /\ 2 * Z.abs (q * 2 ^ n - 5877173583858628 * mh) <= 2 ^ n
    /\ A = 2 ^ (52 + s - n) /\ 0 < A /\ A * 2 ^ n = 2 ^ 52 * 2 ^ s
    /\ 1 <= s <= 52
    /\ widthModel h = q / A.
Proof.
  intros Hh.
  destruct (of_int_spec h ltac:(lia)) as (Hs & Hm & _).
  pose proof (product_bits h ltac:(lia)) as Hn. cbv zeta in Hn.
  set (s := 52 - Z.log2 h) in *.
  set (M := 5877173583858628 * (h * 2 ^ s)) in *.
  set (n := Z.log2 M - 52) in *.
  assert (Hs1 : 1 <= s).
  { unfold s. assert (Z.log2 h < 52) by (apply Z.log2_lt_pow2; lia). lia. }
  exists s, (h * 2 ^ s), n, (rne M n), (2 ^ (52 + s - n)).
  split; [reflexivity|]. split; [reflexivity|]. split; [exact Hm|].
  split; [lia|]. split; [reflexivity|]. split; [reflexivity|].
  split; [apply rne_near; lia|]. split; [reflexivity|].
  split; [apply Z.pow_pos_nonneg; lia|].
  split; [rewrite <- !Z.pow_add_r by lia; f_equal; lia|].
  split; [lia|]. reflexivity.
Qed.

(** The width is at least the height. *)
Lemma widthModel_ge h : 1 <= h < 2 ^ 52 -> h <= widthModel h.
Proof.
  intros Hh.
  destruct (widthModel_parts h Hh)
    as (s & mh & n & q & A & Es & Emh & Hmh & Hn & _ & _ & Hq & _ & HA & HAn & Hs & ->).
  apply Z.div_le_lower_bound; [exact HA|].
  assert (Hs2 : 0 < 2 ^ s) by (apply Z.pow_pos_nonneg; lia).
  assert (Hk : A * h * 2 ^ n <= q * 2 ^ n).
  { replace (A * h * 2 ^ n) with (A * 2 ^ n * h) by ring.
    rewrite HAn. replace (2 ^ 52 * 2 ^ s * h) with (2 ^ 52 * mh) by (subst mh; ring).
    destruct Hn as [-> | ->]; lia. }
  assert (0 < 2 ^ n) by (destruct Hn as [-> | ->]; lia).
  nia.
Qed.

(** Doubling the height doubles the float product exactly; truncation
    leaves the widths within one. *)
Lemma widthModel_double h :
  1 <= h < 2 ^ 51 ->
  2 * widthModel h <= widthModel (2 * h) <= 2 * widthModel h + 1.
Proof.
  intros Hh. unfold widthModel.
  rewrite Z.log2_double by lia.
  assert (Hl : 0 <= Z.log2 h < 51).
  { split; [apply Z.log2_nonneg|apply Z.log2_lt_pow2; lia]. }
  set (s := 52 - Z.log2 h).
  replace (52 - Z.succ (Z.log2 h)) with (s - 1) by (unfold s; lia).
  assert (Em : 2 * h * 2 ^ (s - 1) = h * 2 ^ s).
  { replace s with (Z.succ (s - 1)) at 2 by lia.
    rewrite Z.pow_succ_r by (unfold s; lia). ring. }
  rewrite Em.
  pose proof (product_bits h ltac:(lia)) as Hn. cbv zeta in Hn. fold s in Hn.
  set (M := 5877173583858628 * (h * 2 ^ s)) in *.
  set (n := Z.log2 M - 52) in *.
  set (q := rne M n).
  replace (52 + (s - 1) - n) with (52 + s - n - 1) by lia.
  set (t := 52 + s - n).
  assert (Ht : 1 <= t) by (unfold t, s; lia).
  assert (E : 2 ^ t = 2 ^ (t - 1) * 2).
  { replace t with (Z.succ (t - 1)) at 1 by lia. rewrite Z.pow_succ_r by lia. ring. }
  assert (Hp : 0 < 2 ^ (t - 1)) by (apply Z.pow_pos_nonneg; lia).
  rewrite E, <- Z.div_div by lia.
  pose proof (Z.div_mod (q / 2 ^ (t - 1)) 2 ltac:(lia)).
  pose proof (Z.mod_pos_bound (q / 2 ^ (t - 1)) 2 ltac:(lia)). lia.
Qed.

(** The width is the exact product [h * 2456 / 1882] with its fraction
    discarded, or one less when the product is whole. *)
Lemma widthModel_exact h :
  1 <= h < 2 ^ 41 ->
  941 * widthModel h <= 1228 * h <= 941 * (widthModel h + 1).
Proof.
  intros Hh.
  destruct (widthModel_parts h ltac:(lia))
    as (s & mh & n & q & A & Es & Emh & Hmh & Hn & _ & _ & Hq & _ & HA & HAn & Hs & ->).
  assert (Hs11 : 11 <= s).
  { subst s. assert (Z.log2 h < 41) by (apply Z.log2_lt_pow2; lia). lia. }
  assert (Hs2 : 2 ^ 11 <= 2 ^ s) by (apply Z.pow_le_mono_r; lia).
  pose proof (Z.div_mod q A ltac:(lia)) as Hdm.
  pose proof (Z.mod_pos_bound q A HA) as Hmod.
  set (W := q / A) in *.
  assert (Hn0 : 0 < 2 ^ n) by (destruct Hn as [-> | ->]; lia).
  (* scaled by [A * 2^n = 2^52 * 2^s] *)
  assert (HW1 : W * (A * 2 ^ n) <= q * 2 ^ n) by nia.
  assert (HW2 : q * 2 ^ n < (W + 1) * (A * 2 ^ n)) by nia.
  rewrite HAn in HW1, HW2.
  assert (Hh' : h * 2 ^ s = mh) by (subst mh; reflexivity).
  assert (HD : Z.abs (q * 2 ^ n - 5877173583858628 * mh) <= 2 ^ 52)
    by (destruct Hn as [-> | ->]; lia).
  assert (HK : 0 < 2 ^ 52 * 2 ^ s) by lia.
  split.
  - assert (Hlt : 941 * W * (2 ^ 52 * 2 ^ s) < (1228 * h + 1) * (2 ^ 52 * 2 ^ s)).
    { replace ((1228 * h + 1) * (2 ^ 52 * 2 ^ s))
        with (1228 * 2 ^ 52 * mh + 2 ^ 52 * 2 ^ s) by (rewrite <- Hh'; ring).
      lia. }
    apply Z.mul_lt_mono_pos_r in Hlt; [lia|exact HK].
  - assert (Hlt : (1228 * h - 1) * (2 ^ 52 * 2 ^ s) < 941 * (W + 1) * (2 ^ 52 * 2 ^ s)).
    { replace ((1228 * h - 1) * (2 ^ 52 * 2 ^ s))
        with (1228 * 2 ^ 52 * mh - 2 ^ 52 * 2 ^ s) by (rewrite <- Hh'; ring).
      lia. }
    apply Z.mul_lt_mono_pos_r in Hlt; [lia|exact HK].
Qed.

(** *** Division *)

Lemma round_nearest_even_range mx lx : mx <= round_nearest_even mx lx <= mx + 1.
Proof.
  unfold round_nearest_even. destruct lx as [|[]]; try destruct (Z.even mx); lia.
Qed.

Lemma shr_record_of_loc_inv m l :
  loc_of_shr_record (shr_record_of_loc m l) = l /\ shr_m (shr_record_of_loc m l) = m.
Proof. destruct l as [|[]]; split; reflexivity. Qed.

(** The second half of [binary_round_aux]: a rounded mantissa of 53 bits
    is kept, and [2^53] is renormalised. *)
Lemma round_final (R e : Z) :
  2 ^ 52 <= R <= 2 ^ 53 -> -1074 <= e -> e + 1 <= 971 ->
  exists m ef,
    (let '(mrs, e'') := shr_fexp 53 1024 R e loc_Exact in
     match shr_m mrs with
     | Z0 => S754_zero false
     | Zpos m => if e'' <=? 1024 - 53 then S754_finite false m e'' else S754_infinity false
     | Zneg _ => S754_nan
     end) = S754_finite false m ef
    /\ 2 ^ 52 <= Z.pos m < 2 ^ 53 /\ e <= ef <= e + 1
    /\ Z.pos m * 2 ^ (ef - e) = R.
Proof.
  intros HR He1 He2.
  destruct (Z.eq_dec R (2 ^ 53)) as [E53|N53].
  - exists (Z.to_pos (2 ^ 52)), (e + 1). rewrite E53.
    assert (E2 : shr_fexp 53 1024 (2 ^ 53) e loc_Exact
                 = ({| shr_m := 2 ^ 52; shr_r := false; shr_s := false |}, e + 1)).
    { unfold shr_fexp. change (Zdigits2 (2 ^ 53)) with 54. unfold fexp, emin.
      rewrite Z.max_l by lia. replace (54 + e - 53 - e) with 1 by lia. reflexivity. }
    rewrite E2. cbn [shr_m]. change (2 ^ 52) with (Z.pos (Z.to_pos (2 ^ 52))) at 1.
    cbv iota. destruct (Z.leb_spec (e + 1) (1024 - 53)); [|lia].
    split; [reflexivity|]. split; [cbn; lia|]. split; [lia|].
    replace (e + 1 - e) with 1 by lia. reflexivity.
  - exists (Z.to_pos R), e.
    assert (E2 : shr_fexp 53 1024 R e loc_Exact
                 = ({| shr_m := R; shr_r := false; shr_s := false |}, e)).
    { unfold shr_fexp. rewrite (Zdigits2_unique R 53) by lia. unfold fexp, emin.
      rewrite Z.max_l by lia. replace (53 + e - 53 - e) with 0 by lia. reflexivity. }
    rewrite E2. cbn [shr_m].
    destruct R as [|pr|pr] eqn:ER; try lia.
    destruct (Z.leb_spec e (1024 - 53)); [|lia].
    split; [reflexivity|]. cbn [Z.to_pos]. split; [lia|]. split; [lia|].
    replace (e - e) with 0 by lia. lia.
Qed.

(** Rounding a quotient of 53 or 54 bits with the location of its
    remainder: the result is normal and within two units of the quotient. *)
Lemma binary_round_aux_loc (q e : Z) (l : location) :
  2 ^ 52 <= q < 2 ^ 54 -> -1074 <= e -> e + 2 <= 971 ->
  exists m ef,
    binary_round_aux 53 1024 false q e l = S754_finite false m ef
    /\ 2 ^ 52 <= Z.pos m < 2 ^ 53 /\ e <= ef <= e + 2
    /\ q - 1 <= Z.pos m * 2 ^ (ef - e) <= q + 2.
Proof.
  intros Hq He1 He2. unfold binary_round_aux.
  destruct (Z.lt_ge_cases q (2 ^ 53)) as [Hlt|Hge].
  - assert (E1 : shr_fexp 53 1024 q e l = (shr_record_of_loc q l, e)).
    { unfold shr_fexp. rewrite (Zdigits2_unique q 53) by lia. unfold fexp, emin.
      rewrite Z.max_l by lia. replace (53 + e - 53 - e) with 0 by lia. reflexivity. }
    rewrite E1. destruct (shr_record_of_loc_inv q l) as [-> ->].
    pose proof (round_nearest_even_range q l) as HR.
    destruct (round_final (round_nearest_even q l) e ltac:(lia) He1 ltac:(lia))
      as (m & ef & E & Hm & Hef & Hv).
    exists m, ef. split; [exact E|]. split; [exact Hm|]. split; [lia|]. lia.
  - assert (E1 : shr_fexp 53 1024 q e l = (shr_1 (shr_record_of_loc q l), e + 1)).
    { unfold shr_fexp. rewrite (Zdigits2_unique q 54) by lia. unfold fexp, emin.
      rewrite Z.max_l by lia. replace (54 + e - 53 - e) with 1 by lia. reflexivity. }
    rewrite E1.
    assert (Hm2 : exists r s,
               shr_1 (shr_record_of_loc q l)
               = {| shr_m := q / 2; shr_r := r; shr_s := s |}).
    { destruct l as [|[]]; cbn [shr_record_of_loc]; rewrite shr_1_nonneg by lia;
        eauto. }
    destruct Hm2 as (r & s & ->). cbn [shr_m].
    set (l' := loc_of_shr_record {| shr_m := q / 2; shr_r := r; shr_s := s |}).
    pose proof (round_nearest_even_range (q / 2) l') as HR.
    pose proof (Z.div_mod q 2 ltac:(lia)) as Hdm.
    pose proof (Z.mod_pos_bound q 2 ltac:(lia)) as Hmod.
    destruct (round_final (round_nearest_even (q / 2) l') (e + 1)
                ltac:(lia) ltac:(lia) ltac:(lia))
      as (m & ef & E & Hm & Hef & Hv).
    exists m, ef. split; [exact E|]. split; [exact Hm|]. split; [lia|].
    replace (ef - e) with (Z.succ (ef - (e + 1))) by lia.
    rewrite Z.pow_succ_r by lia. lia.
Qed.

(** The quotient of two normal numbers is normal; in units of
    [2^(e1 - e2 - 53)] it is within two of the integer quotient of the
    mantissas. *)
Lemma SFdiv_bounds (m1 m2 : positive) (e1 e2 : Z) :
  2 ^ 52 <= Z.pos m1 < 2 ^ 53 -> 2 ^ 52 <= Z.pos m2 < 2 ^ 53 ->
  -1021 <= e1 - e2 <= 1022 ->
  let e := e1 - e2 - 53 in
  let q := Z.pos m1 * 2 ^ 53 / Z.pos m2 in
  exists m ef,
    SFdiv 53 1024 (S754_finite false m1 e1) (S754_finite false m2 e2)
    = S754_finite false m ef
    /\ 2 ^ 52 <= Z.pos m < 2 ^ 53 /\ e <= ef <= e + 2
    /\ q - 1 <= Z.pos m * 2 ^ (ef - e) <= q + 2.
Proof.
  intros H1 H2 He e q.
  assert (Hq : 2 ^ 52 <= q < 2 ^ 54).
  { unfold q. split.
    - apply Z.div_le_lower_bound; lia.
    - apply Z.div_lt_upper_bound; lia. }
  destruct (binary_round_aux_loc q e (new_location (Z.pos m2)
              (Z.pos m1 * 2 ^ 53 mod Z.pos m2)) Hq ltac:(unfold e; lia)
              ltac:(unfold e; lia))
    as (m & ef & E & Hm & Hef & Hv).
  exists m, ef. split; [|split; [exact Hm|split; [exact Hef|exact Hv]]].
  rewrite <- E. unfold SFdiv, SFdiv_core_binary.
  rewrite (Zdigits2_unique (Z.pos m1) 53), (Zdigits2_unique (Z.pos m2) 53) by lia.
  unfold fexp, emin. rewrite Z.max_l by lia. rewrite Z.min_l by lia.
  replace (e1 - e2 - (53 + e1 - (53 + e2) - 53)) with 53 by lia.
  rewrite Z.shiftl_mul_pow2 by lia.
  unfold q, Z.div, Z.modulo.
  destruct (Z.div_eucl (Z.pos m1 * 2 ^ 53) (Z.pos m2)) as [q0 r0].
  cbn [xorb fst snd]. f_equal. unfold e. lia.
Qed.

(** Normal numbers compare as their values do. *)
Lemma finite_lt (m1 m2 : positive) (e1 e2 c : Z) :
  2 ^ 52 <= Z.pos m1 < 2 ^ 53 -> 2 ^ 52 <= Z.pos m2 < 2 ^ 53 ->
  c <= e1 -> c <= e2 ->
  Z.pos m1 * 2 ^ (e1 - c) < Z.pos m2 * 2 ^ (e2 - c) ->
  SFltb (S754_finite false m1 e1) (S754_finite false m2 e2) = true.
Proof.
  intros H1 H2 Hc1 Hc2 Hv. unfold SFltb, SFcompare.
  destruct (Z.compare_spec e1 e2) as [E|L|G].
  - subst e2. assert (Hp : 0 < 2 ^ (e1 - c)) by (apply Z.pow_pos_nonneg; lia).
    apply Z.mul_lt_mono_pos_r in Hv; [|exact Hp].
    change (Pos.compare_cont Eq m1 m2) with (Pos.compare m1 m2).
    rewrite (proj2 (Pos.compare_lt_iff m1 m2)) by lia. reflexivity.
  - reflexivity.
  - exfalso.
    assert (Hp : 0 < 2 ^ (e2 - c)) by (apply Z.pow_pos_nonneg; lia).
    assert (E : 2 ^ (e1 - c) = 2 ^ (e1 - e2) * 2 ^ (e2 - c))
      by (rewrite <- Z.pow_add_r by lia; f_equal; lia).
    assert (H2e : 2 ^ 1 <= 2 ^ (e1 - e2)) by (apply Z.pow_le_mono_r; lia).
    change (2 ^ 1) with 2 in H2e. rewrite E in Hv.
    assert (Z.pos m2 * 2 ^ (e2 - c) < 2 ^ 53 * 2 ^ (e2 - c))
      by (apply Z.mul_lt_mono_pos_r; lia).
    assert (2 ^ 52 * (2 * 2 ^ (e2 - c)) <= Z.pos m1 * (2 ^ (e1 - e2) * 2 ^ (e2 - c))).
    { apply Z.mul_le_mono_nonneg; try lia.
      apply Z.mul_le_mono_nonneg_r; lia. }
    lia.
Qed.

(** Dividing a height by 3 gives more than dividing it by 7 or by 10. *)
Lemma quotient_by_3_largest h (d : Z) (md : positive) (ed : Z) :
  1 <= h < 2 ^ 53 ->
  (d = 7 /\ Z.pos md = 7 * 2 ^ 50 /\ ed = -50)
  \/ (d = 10 /\ Z.pos md = 10 * 2 ^ 49 /\ ed = -49) ->
  F64.of_int d = S754_finite false md ed ->
  SFltb (F64.div (F64.of_int h) (F64.of_int d)) (F64.div (F64.of_int h) (F64.of_int 3))
  = true.
Proof.
  intros Hh Hd Ed.
  destruct (of_int_spec h Hh) as (Hs & Hm & Eh).
  set (s := 52 - Z.log2 h) in *. set (mh := h * 2 ^ s) in *.
  assert (E3 : F64.of_int 3 = S754_finite false 6755399441055744 (-51))
    by (vm_compute; reflexivity).
  rewrite Ed, E3, Eh. unfold F64.div, F64.prec, F64.emax.
  destruct (SFdiv_bounds (Z.to_pos mh) 6755399441055744 (- s) (-51))
    as (m3 & f3 & D3 & N3 & F3 & V3); [rewrite Z2Pos.id by lia; lia|lia|lia|].
  destruct (SFdiv_bounds (Z.to_pos mh) md (- s) ed)
    as (m & f & D & N & F & V);
    [rewrite Z2Pos.id by lia; lia|destruct Hd as [(_ & -> & _)|(_ & -> & _)]; lia
    |destruct Hd as [(_ & _ & ->)|(_ & _ & ->)]; lia|].
  rewrite D3, D. rewrite Z2Pos.id in V3, V by lia.
  change (Z.pos 6755399441055744) with (3 * 2 ^ 51) in V3.
  pose proof (Z.div_mod (mh * 2 ^ 53) (3 * 2 ^ 51) ltac:(lia)) as Q3.
  pose proof (Z.mod_pos_bound (mh * 2 ^ 53) (3 * 2 ^ 51) ltac:(lia)) as R3.
  pose proof (Z.div_mod (mh * 2 ^ 53) (Z.pos md) ltac:(lia)) as Q.
  pose proof (Z.mod_pos_bound (mh * 2 ^ 53) (Z.pos md) ltac:(lia)) as R.
  set (q3 := mh * 2 ^ 53 / (3 * 2 ^ 51)) in *.
  set (q := mh * 2 ^ 53 / Z.pos md) in *.
  destruct Hd as [(_ & Emd & ->)|(_ & Emd & ->)]; rewrite Emd in *.
  - (* 7: one binade below 3 *)
    apply (finite_lt m m3 f f3 (- s - -50 - 53)); try assumption; try lia.
    replace (f3 - (- s - -50 - 53)) with (Z.succ (f3 - (- s - -51 - 53))) by lia.
    rewrite Z.pow_succ_r by lia. lia.
  - apply (finite_lt m m3 f f3 (- s - -49 - 53)); try assumption; try lia.
    replace (f3 - (- s - -49 - 53)) with (Z.succ (Z.succ (f3 - (- s - -51 - 53)))) by lia.
    rewrite !Z.pow_succ_r by lia. lia.
Qed.

End FloatFacts.

(** ** Allocation of the canvas *)

Section AllocationFacts.
Import Colour Raster.

Lemma Rect_ordered ax ay bx by_ :
  ax <= bx -> ay <= by_ -> Rect ax ay bx by_ = mkRect ax ay bx by_.
Proof.
  intros Hx Hy. unfold Rect.
  destruct (Z.ltb_spec bx ax); [lia|]. destruct (Z.ltb_spec by_ ay); [lia|]. reflexivity.
Qed.

(** A canvas of at most [2^48] bytes is allocated. *)
Lemma NewRGBA_ok W H :
  0 <= W <= 1000000000 -> 0 <= H <= 1000000000 -> 4 * W * H <= 2 ^ 48 ->
  NewRGBA (mkRect 0 0 W H)
  = Ret {| Bounds := mkRect 0 0 W H; At := fun _ _ => mkRGBA 0 0 0 0 |}.
Proof.
  intros HW HH Hn. unfold NewRGBA, GoInt.sub, maxAlloc. cbn [x0 y0 x1 y1].
  rewrite !Z.sub_0_r.
  rewrite !wrap_inRange by (unfold GoInt.inRange, GoInt.minInt, GoInt.maxInt; lia).
  destruct (Z.ltb_spec W 0); [lia|]. destruct (Z.ltb_spec H 0); [lia|].
  destruct (Z.leb_spec (2 ^ 64) (4 * W)); [lia|].
  destruct (Z.ltb_spec GoInt.maxInt (4 * W * H)); [unfold GoInt.maxInt in *; lia|].
  destruct (Z.ltb_spec (2 ^ 48) (4 * W * H)); [lia|].
  reflexivity.
Qed.

(** The width of a canvas of height 1 to 7 million. *)
Lemma tileW_range height :
  1 <= height <= 7000000 -> height <= Layout.tileW height <= 9134963.
Proof.
  intros HH. rewrite tileW_model by lia.
  pose proof (widthModel_ge height ltac:(lia)).
  pose proof (widthModel_exact height ltac:(lia)). lia.
Qed.

Lemma tile_bytes height :
  1 <= height <= 7000000 -> 4 * Layout.tileW height * height <= 2 ^ 48.
Proof.
  intros HH. pose proof (tileW_range height HH) as HW.
  assert (Layout.tileW height * height <= 9134963 * 7000000)
    by (apply Z.mul_le_mono_nonneg; lia).
  lia.
Qed.

(** Up to a height of 7 million the canvas fits the largest allocation of
    the runtime. *)
Lemma allocates_range height : 1 <= height <= 7000000 -> allocates height.
Proof.
  intros HH. pose proof (tileW_range height HH) as HW.
  pose proof (tile_bytes height HH) as HB.
  unfold allocates. rewrite Rect_ordered by lia. rewrite NewRGBA_ok by lia.
  discriminate.
Qed.

End AllocationFacts.

(** ** Placement of the symbol *)

Section SymbolPlacement.
Import GoInt Layout.

Lemma measure_empty (f : Face) : Round (MeasureString f "") = 0.
Proof. reflexivity. Qed.

(** C2.  For every canvas width and height and every symbol string, with
    [symW] the rounded measured width of the symbol: the x origin is within
    one pixel of the exact [(tileW - symW) / 2], the y origin is the midline
    [tileH / 2], the symbol ends inside the canvas whenever it is not wider
    than the canvas, and the empty string measures 0 and starts at the
    horizontal centre [tileW / 2].  The width is taken within [2^62] in
    absolute value, where the subtraction cannot wrap. *)
Theorem symbol_origin_centred (fonts : Fonts) (tileW tileH : Z) (symbol : string) :
  - 2 ^ 62 <= tileW <= 2 ^ 62 ->
  inRange tileH ->
  let symW := Round (MeasureString (symFont fonts) symbol) in
  let '(x, y) := symbolOrigin fonts tileW tileH symbol in
  Z.abs (2 * x - (tileW - symW)) <= 1
  /\ y = Z.quot tileH 2
  /\ (symW <= tileW -> x + symW <= tileW)
  /\ (symbol = "" -> symW = 0 /\ x = Z.quot tileW 2).
Proof.
  intros HW HH symW. unfold symbolOrigin, symbolAt. fold symW.
  pose proof (Round_range (MeasureString (symFont fonts) symbol)) as Hs.
  fold symW in Hs.
  assert (Hd : inRange (tileW - symW)) by (unfold inRange, minInt, maxInt; lia).
  unfold sub. rewrite (wrap_inRange _ Hd).
  rewrite !quo_exact by (assumption || lia).
  split; [apply quot2_near|]. split; [reflexivity|]. split.
  - intros Hle. destruct (quot_bounds (tileW - symW) 2 ltac:(lia)) as [Hp _].
    specialize (Hp ltac:(lia)). lia.
  - intros ->. subst symW. rewrite measure_empty. split; [reflexivity|].
    f_equal. lia.
Qed.

Lemma symbol_origin_centred_witness :
  let '(x, y) := symbolOrigin plainFonts 800 600 "He" in
  Z.abs (2 * x - (800 - 20)) <= 1
  /\ y = Z.quot 600 2
  /\ (20 <= 800 -> x + 20 <= 800)
  /\ ("He" = "" -> 20 = 0 /\ x = Z.quot 800 2).
Proof.
  apply (symbol_origin_centred plainFonts 800 600 "He").
  - lia.
  - unfold inRange, minInt, maxInt. lia.
Defined.

End SymbolPlacement.

(** ** Hex colours *)

Section HexFacts.
Import Utf8 Str Colour.

Lemma hexVal_range a v : hexVal a = Some v -> 48 <= code a <= 102 /\ 0 <= v <= 15.
Proof.
  unfold hexVal, between. intros H. revert H.
  zbool; intros [= <-]; lia.
Qed.

Lemma isHex_hv a : isHex a -> hexVal a = Some (hv a).
Proof. intros [v Hv]. unfold hv. rewrite Hv. reflexivity. Qed.

Lemma plain_not_space c : 33 <= c <= 127 -> IsSpace c = false.
Proof. intros Hc. unfold IsSpace, between. zbool. Qed.

Lemma decodeRune_ascii a s : code a < 128 -> decodeRune (String a s) = (code a, 1%nat).
Proof. intros Hc. unfold decodeRune. zbool. Qed.

Lemma trimLeft_S k s :
  trimLeft (S k) s =
  match decodeRune s with
  | (_, O) => s
  | (r, n) => if IsSpace r then trimLeft k (drop n s) else s
  end.
Proof. reflexivity. Qed.

Lemma trimRight_S k s :
  trimRight (S k) s =
  match decodeLastRune s with
  | (_, O) => s
  | (r, n) =>
      if IsSpace r then trimRight k (substring 0 (String.length s - n) s) else s
  end.
Proof. reflexivity. Qed.

Lemma skipSpace_S k s :
  skipSpace (S k) s =
  match decodeRune s with
  | (_, O) => Some s
  | (r, n) =>
      let rest := drop n s in
      if (r =? 13) && (fst (decodeRune rest) =? 10) then skipSpace k rest
      else if r =? 10 then None
      else if IsSpace r then skipSpace k rest
      else Some s
  end.
Proof. reflexivity. Qed.

Lemma decodeLastRune_ascii a s :
  code (byteAt (String a s) (String.length s)) < 128 ->
  decodeLastRune (String a s)
  = (code (byteAt (String a s) (String.length s)), 1%nat).
Proof.
  intros H. unfold decodeLastRune.
  change (String.length (String a s)) with (S (String.length s)). cbv iota beta zeta.
  destruct (Z.ltb_spec (code (byteAt (String a s) (String.length s))) 128); [|lia].
  reflexivity.
Qed.

(** A string that starts and ends with a printable ASCII character is
    left as it is by [TrimSpace]. *)
Lemma TrimSpace_plain a s :
  33 <= code a <= 127 ->
  33 <= code (byteAt (String a s) (String.length s)) <= 127 ->
  TrimSpace (String a s) = String a s.
Proof.
  intros Ha Hz. unfold TrimSpace.
  change (String.length (String a s)) with (S (String.length s)).
  rewrite trimLeft_S, decodeRune_ascii by lia.
  rewrite plain_not_space by lia.
  change (String.length (String a s)) with (S (String.length s)).
  rewrite trimRight_S, decodeLastRune_ascii by lia.
  rewrite plain_not_space by lia. reflexivity.
Qed.

Lemma skipSpace_plain fuel a s :
  33 <= code a <= 127 -> skipSpace fuel (String a s) = Some (String a s).
Proof.
  intros Ha. destruct fuel as [|k]; [reflexivity|].
  rewrite skipSpace_S, decodeRune_ascii by lia. cbv zeta.
  rewrite plain_not_space by lia.
  destruct (Z.eqb_spec (code a) 13); [lia|].
  destruct (Z.eqb_spec (code a) 10); [lia|]. reflexivity.
Qed.

Lemma scanHex2_pair a b s :
  isHex a -> isHex b -> scanHex2 (String a (String b s)) = Some (16 * hv a + hv b, s).
Proof.
  intros Ha Hb. apply isHex_hv in Ha, Hb.
  pose proof (hexVal_range _ _ Ha). unfold scanHex2.
  rewrite skipSpace_plain by lia. rewrite Ha, Hb. reflexivity.
Qed.

Lemma Sscanf3_hex6 a b c d e f :
  isHex a -> isHex b -> isHex c -> isHex d -> isHex e -> isHex f ->
  Sscanf3 (hex6 a b c d e f) = (16 * hv a + hv b, 16 * hv c + hv d, 16 * hv e + hv f).
Proof.
  intros. unfold Sscanf3, hex6. rewrite !scanHex2_pair by assumption. reflexivity.
Qed.

Lemma isHex_plain a : isHex a -> 33 <= code a <= 127 /\ a <> "#"%char.
Proof.
  intros H. apply isHex_hv, hexVal_range in H. split; [lia|].
  intros ->. change (code "#"%char) with 35 in H. lia.
Qed.

Lemma TrimPrefixHash_hex a s : isHex a -> TrimPrefixHash (String a s) = String a s.
Proof.
  intros H. apply isHex_hv, hexVal_range in H. unfold TrimPrefixHash. zbool.
Qed.

Lemma hexToRGBA_trimmed6 h a b c d e f :
  TrimPrefixHash (TrimSpace h) = hex6 a b c d e f ->
  isHex a -> isHex b -> isHex c -> isHex d -> isHex e -> isHex f ->
  hexToRGBA h = rgb6 a b c d e f.
Proof.
  intros E Ha Hb Hc Hd He Hf. unfold hexToRGBA. rewrite E.
  change (String.length (hex6 a b c d e f) =? 3)%nat with false. cbv iota.
  change (String.length (hex6 a b c d e f) =? 6)%nat with true. cbv iota beta delta [negb].
  rewrite Sscanf3_hex6 by assumption. reflexivity.
Qed.


Lemma trim_plain a s :
  isHex a ->
  isHex (byteAt (String a s) (String.length s)) ->
  TrimPrefixHash (TrimSpace (String a s)) = String a s
  /\ TrimPrefixHash (TrimSpace (String "#" (String a s))) = String a s.
Proof.
  intros Ha Hz. pose proof (isHex_plain _ Ha) as [Pa _].
  pose proof (isHex_plain _ Hz) as [Pz _]. split.
  - rewrite TrimSpace_plain by assumption. apply TrimPrefixHash_hex, Ha.
  - rewrite TrimSpace_plain.
    + reflexivity.
    + change (code "#"%char) with 35. lia.
    + exact Pz.
Qed.

Lemma hexToRGBA_hex6 a b c d e f :
  isHex a -> isHex b -> isHex c -> isHex d -> isHex e -> isHex f ->
  hexToRGBA (hex6 a b c d e f) = rgb6 a b c d e f
  /\ hexToRGBA (String "#" (hex6 a b c d e f)) = rgb6 a b c d e f.
Proof.
  intros Ha Hb Hc Hd He Hf.
  destruct (trim_plain a (String b (String c (String d (String e (String f ""))))) Ha Hf)
    as [E1 E2].
  split; apply hexToRGBA_trimmed6; assumption.
Qed.



Lemma hexToRGBA_wrong_length h :
  let t := TrimPrefixHash (TrimSpace h) in
  String.length t <> 3%nat -> String.length t <> 6%nat -> hexToRGBA h = black.
Proof.
  intros t H3 H6. unfold hexToRGBA. fold t.
  destruct (Nat.eqb_spec (String.length t) 3); [contradiction|].
  destruct (Nat.eqb_spec (String.length t) 6); [contradiction|].
  reflexivity.
Qed.

Lemma border_missing (colours : gmap string string) (ty : string) :
  colours !! ty = None -> border colours ty = black.
Proof. intros H. unfold border. rewrite H. reflexivity. Qed.

Lemma border_present (colours : gmap string string) (ty h : string) :
  colours !! ty = Some h -> border colours ty = hexToRGBA h.
Proof. intros H. unfold border. rewrite H. reflexivity. Qed.

End HexFacts.

Section ParseHexColorFacts.
Import Utf8 Str Colour.

Lemma code_inj a b : code a = code b -> a = b.
Proof.
  unfold code. intros H. apply N2Z.inj in H.
  rewrite <- (ascii_N_embedding a), <- (ascii_N_embedding b), H. reflexivity.
Qed.

Lemma hexToByte_hexVal b err :
  hexToByte b err
  = match hexVal b with
    | Some v => (v, err)
    | None => (0, Some (InvalidHexChar b))
    end.
Proof.
  unfold hexToByte, hexVal.
  destruct (between 48 (code b) 57); [reflexivity|].
  destruct (between 97 (code b) 102); [reflexivity|].
  destruct (between 65 (code b) 70); reflexivity.
Qed.

Lemma hexToByte_hex b err : isHex b -> hexToByte b err = (hv b, err).
Proof. intros H. rewrite hexToByte_hexVal, (isHex_hv _ H). reflexivity. Qed.

Lemma hexToByte_None b err v :
  hexToByte b err = (v, None) -> err = None /\ isHex b /\ v = hv b.
Proof.
  rewrite hexToByte_hexVal. unfold hv, isHex.
  destruct (hexVal b) as [w|]; intros [= <- <-]; eauto.
Qed.

Lemma byteShl4Add_hex a b :
  isHex a -> isHex b -> byteShl4Add (hv a) (hv b) = 16 * hv a + hv b.
Proof.
  intros Ha Hb. apply isHex_hv, hexVal_range in Ha, Hb.
  unfold byteShl4Add. rewrite Z.shiftl_mul_pow2 by lia.
  change (2 ^ 4) with 16. rewrite (Z.mod_small (hv a * 16)) by lia.
  rewrite Z.mod_small by lia. lia.
Qed.

Lemma parseHexColor_hex6 a b c d e f :
  isHex a -> isHex b -> isHex c -> isHex d -> isHex e -> isHex f ->
  parseHexColor (String "#" (hex6 a b c d e f)) = Ret (rgb6 a b c d e f, None).
Proof.
  intros Ha Hb Hc Hd He Hf. unfold parseHexColor, hex6.
  change (code "#"%char =? 35) with true.
  cbn [negb String.length byteAt String.get].
  rewrite !hexToByte_hex by assumption.
  rewrite !byteShl4Add_hex by assumption. reflexivity.
Qed.

Lemma parseHexColor_accepts s c0 :
  parseHexColor s = Ret (c0, None) -> wellFormed7 s.
Proof.
  destruct s as [|s0 s]; [discriminate|]. unfold parseHexColor.
  destruct (Z.eqb_spec (code s0) 35) as [E0|]; [|discriminate].
  apply (code_inj s0 "#"%char) in E0. subst s0. cbn [negb].
  destruct s as [|a [|b [|c [|d [|e [|f [|g s]]]]]]]; try discriminate.
  cbn [String.length byteAt String.get].
  destruct (hexToByte a None) as [r1 e1] eqn:E1.
  destruct (hexToByte b e1) as [r2 e2] eqn:E2.
  destruct (hexToByte c e2) as [g1 e3] eqn:E3.
  destruct (hexToByte d e3) as [g2 e4] eqn:E4.
  destruct (hexToByte e e4) as [b1 e5] eqn:E5.
  destruct (hexToByte f e5) as [b2 e6] eqn:E6.
  intros [= _ ->].
  apply hexToByte_None in E6 as (-> & Hf & _).
  apply hexToByte_None in E5 as (-> & He & _).
  apply hexToByte_None in E4 as (-> & Hd & _).
  apply hexToByte_None in E3 as (-> & Hc & _).
  apply hexToByte_None in E2 as (-> & Hb & _).
  apply hexToByte_None in E1 as (_ & Ha & _).
  exists a, b, c, d, e, f. repeat split; assumption.
Qed.

Lemma parseHexColor_returns s :
  s <> "" -> exists c0 err, parseHexColor s = Ret (c0, err).
Proof.
  destruct s as [|s0 s]; [congruence|]. intros _. unfold parseHexColor.
  destruct (negb (code s0 =? 35)); [eauto|].
  destruct (String.length (String s0 s)) as [|[|[|[|[|[|[|[|n]]]]]]]]; eauto.
  repeat match goal with
    | |- context [hexToByte ?x ?y] => destruct (hexToByte x y)
    end.
  eauto.
Qed.

Lemma bgColor_well_formed (colorMap : gmap string string) category a b c d e f :
  isHex a -> isHex b -> isHex c -> isHex d -> isHex e -> isHex f ->
  selectHex colorMap category = String "#" (hex6 a b c d e f) ->
  bgColor colorMap category = Ret (rgb6 a b c d e f, None).
Proof.
  intros Ha Hb Hc Hd He Hf E. unfold bgColor. rewrite E.
  rewrite parseHexColor_hex6 by assumption. reflexivity.
Qed.

Lemma bgColor_malformed (colorMap : gmap string string) category :
  selectHex colorMap category <> "" ->
  ~ wellFormed7 (selectHex colorMap category) ->
  bgColor colorMap category = Ret (gray, Some (selectHex colorMap category)).
Proof.
  intros Hne Hwf. unfold bgColor.
  destruct (parseHexColor_returns _ Hne) as (c0 & err & E). rewrite E.
  destruct err as [err|]; [reflexivity|].
  exfalso. apply Hwf. eapply parseHexColor_accepts, E.
Qed.

Lemma bgColor_empty (colorMap : gmap string string) category :
  selectHex colorMap category = "" -> bgColor colorMap category = Panic.
Proof. intros E. unfold bgColor. rewrite E. reflexivity. Qed.

(** part_000 stops with a run-time panic when neither the category nor
    ["unknown"] is a key of the table: [parseHexColor] reads [s[0]] of the
    empty string. *)
Lemma bgColor_empty_table_panics : bgColor ∅ "ghost-category" = Panic.
Proof. reflexivity. Qed.

End ParseHexColorFacts.

Section ColourClaims.
Import Utf8 Str Colour.

(** C10.  In main.go, [hexToRGBA] returns opaque black for every input
    whose form after [TrimSpace] and the removal of one leading ['#'] has a
    length other than 3 or 6, and the border of the batch loop is opaque
    black whenever the element's category is not a key of the colour table;
    black is not the gray of part_000. *)
Theorem main_go_substitutes_black
    (h : string) (colours : gmap string string) (ty : string) :
  (let t := TrimPrefixHash (TrimSpace h) in
   String.length t <> 3%nat -> String.length t <> 6%nat ->
   hexToRGBA h = mkRGBA 0 0 0 255)
  /\ (colours !! ty = None -> border colours ty = mkRGBA 0 0 0 255)
  /\ mkRGBA 0 0 0 255 <> gray.
Proof.
  split; [|split].
  - apply hexToRGBA_wrong_length.
  - apply border_missing.
  - discriminate.
Qed.

Lemma main_go_substitutes_black_witness :
  hexToRGBA "#12" = mkRGBA 0 0 0 255
  /\ border {[ "unknown" := "#e0e0e0" ]} "ghost-category" = mkRGBA 0 0 0 255.
Proof.
  destruct (main_go_substitutes_black "#12" {[ "unknown" := "#e0e0e0" ]}
              "ghost-category") as (H1 & H2 & _).
  split.
  - apply H1; vm_compute; discriminate.
  - apply H2. vm_compute. reflexivity.
Defined.

(** C1, counterexample.  In main.go the entry ["unknown"] is not
    consulted: a category that is not a key gets a black border, not the
    colour of ["unknown"]. *)
Lemma border_ignores_unknown_entry :
  border {[ "unknown" := "#e0e0e0" ]} "ghost-category" = mkRGBA 0 0 0 255
  /\ mkRGBA 0 0 0 255 <> mkRGBA 224 224 224 255.
Proof. split; [vm_compute; reflexivity | discriminate]. Qed.

(** C1, amended.  part_000: the hex string selected is [table[category]]
    when the key is present and [table["unknown"]] otherwise; when it is
    ['#'] and six hexadecimal digits the background is the colour they
    spell, and when it is any other non-empty string the background is the
    hardcoded gray (so ["ghost-category"] against [{"unknown":"#e0e0e0"}]
    gives RGBA(0xe0,0xe0,0xe0,0xff)).  main.go: the border is
    [hexToRGBA(table[category])] when the key is present and opaque black
    otherwise; ["unknown"] is not consulted. *)
Theorem colour_resolution_amended
    (table : gmap string string) (category : string) (a b c d e f : ascii) :
  (forall h, table !! category = Some h -> selectHex table category = h)
  /\ (table !! category = None ->
      selectHex table category = default "" (table !! "unknown"))
  /\ (isHex a -> isHex b -> isHex c -> isHex d -> isHex e -> isHex f ->
      selectHex table category = String "#" (hex6 a b c d e f) ->
      bgColor table category = Ret (rgb6 a b c d e f, None))
  /\ (selectHex table category <> "" ->
      ~ wellFormed7 (selectHex table category) ->
      bgColor table category = Ret (gray, Some (selectHex table category)))
  /\ bgColor {[ "unknown" := "#e0e0e0" ]} "ghost-category"
     = Ret (mkRGBA 224 224 224 255, None)
  /\ (forall h, table !! category = Some h -> border table category = hexToRGBA h)
  /\ (table !! category = None -> border table category = mkRGBA 0 0 0 255).
Proof.
  split; [intros h H; unfold selectHex; rewrite H; reflexivity|].
  split; [intros H; unfold selectHex; rewrite H; reflexivity|].
  split; [intros; apply bgColor_well_formed; assumption|].
  split; [apply bgColor_malformed|].
  split; [vm_compute; reflexivity|].
  split; [intros h; apply border_present | apply border_missing].
Qed.

Lemma colour_resolution_amended_witness :
  bgColor {[ "nonmetal" := "#3498db" ]} "nonmetal" = Ret (mkRGBA 52 152 219 255, None)
  /\ border {[ "nonmetal" := "#3498db" ]} "nonmetal" = mkRGBA 52 152 219 255.
Proof.
  destruct (colour_resolution_amended {[ "nonmetal" := "#3498db" ]} "nonmetal"
              "3" "4" "9" "8" "d" "b")
    as (_ & _ & H1 & _ & _ & H2 & _).
  split.
  - apply H1; vm_compute; eauto.
  - rewrite (H2 "#3498db"); vm_compute; reflexivity.
Defined.

End ColourClaims.

(** ** The category normaliser *)

Section NormaliserFacts.
Import Utf8 Normaliser.

Context (lower : rune -> rune) (laws : CaseTableLaws lower).

Lemma lower_space : lower 32 = 32.
Proof. rewrite (lower_ascii lower laws) by lia. reflexivity. Qed.

Lemma ToLower_ascii s : asciiText s -> ToLower lower s = ToLower asciiToLower s.
Proof.
  intros H. unfold ToLower. apply map_ext_Forall.
  eapply Forall_impl; [exact H|]. intros r Hr. apply (lower_ascii lower laws r Hr).
Qed.

Lemma normalise_ascii s :
  asciiText s -> normaliseCategory lower s = normaliseCategory asciiToLower s.
Proof.
  intros H. unfold normaliseCategory, clean. rewrite (ToLower_ascii s H). reflexivity.
Qed.

Lemma ToLower_fixed s : Forall (fun r => lower r = r) s -> ToLower lower s = s.
Proof.
  intros H. unfold ToLower. rewrite <- (map_id s) at 2. apply map_ext_Forall, H.
Qed.

Lemma ReplaceAll_absent s old new :
  Forall (fun r => r <> old) s -> ReplaceAll s old new = s.
Proof.
  intros H. unfold ReplaceAll. rewrite <- (map_id s) at 2.
  apply map_ext_Forall. eapply Forall_impl; [exact H|].
  intros r Hr. simpl. destruct (Z.eqb_spec r old); congruence.
Qed.

Lemma Fields_Forall (P : rune -> Prop) s :
  Forall P s -> Forall (Forall P) (Fields s).
Proof.
  induction s as [|r s IH]; intros H; [constructor|].
  inversion H as [|? ? Hr Hs]; subst. specialize (IH Hs).
  cbn [Fields]. destruct (IsSpace r); [exact IH|].
  destruct s as [|r' s']; [repeat constructor; assumption|].
  destruct (IsSpace r'); [constructor; [repeat constructor; assumption|exact IH]|].
  destruct (Fields (r' :: s')) as [|w ws]; [repeat constructor; assumption|].
  inversion IH; subst. constructor; [constructor; assumption|assumption].
Qed.

Lemma Fields_words s : Forall word (Fields s).
Proof.
  induction s as [|r s IH]; [constructor|].
  cbn [Fields]. destruct (IsSpace r) eqn:Er; [exact IH|].
  destruct s as [|r' s'].
  { constructor; [|constructor]. split; [discriminate|]. repeat constructor. exact Er. }
  destruct (IsSpace r') eqn:Er'.
  { constructor; [|exact IH]. split; [discriminate|]. repeat constructor. exact Er. }
  destruct (Fields (r' :: s')) as [|w ws].
  { constructor; [|constructor]. split; [discriminate|]. repeat constructor. exact Er. }
  inversion IH as [|? ? [Hw1 Hw2] Hws]; subst.
  constructor; [|exact Hws]. split; [discriminate|]. constructor; assumption.
Qed.

Lemma Join_cons2 (w w2 : text) ws sep :
  Join (w :: w2 :: ws) sep = w ++ sep ++ Join (w2 :: ws) sep.
Proof. reflexivity. Qed.

Lemma Join_Forall (P : rune -> Prop) ws :
  P 32 -> Forall (Forall P) ws -> Forall P (Join ws [32]).
Proof.
  intros H32. induction ws as [|w ws IH]; intros H; [constructor|].
  inversion H as [|? ? Hw Hws]; subst.
  destruct ws as [|w2 ws]; [exact Hw|].
  rewrite Join_cons2. apply Forall_app. split; [exact Hw|].
  constructor; [exact H32|]. apply IH, Hws.
Qed.

Lemma Join_head_word w ws :
  word w -> exists r rest, Join (w :: ws) [32] = r :: rest /\ IsSpace r = false.
Proof.
  intros [Hne Hw]. destruct w as [|r w']; [congruence|].
  inversion Hw; subst.
  destruct ws as [|w2 ws]; [exists r, w'; split; [reflexivity|assumption]|].
  rewrite Join_cons2. eexists r, _. split; [reflexivity|assumption].
Qed.

(** The fields of a word followed by more text. *)
Lemma Fields_word_app w s :
  word w ->
  Fields (w ++ 32 :: s) = w :: Fields s.
Proof.
  intros [Hne Hw]. induction w as [|r w IH]; [congruence|].
  inversion Hw as [|? ? Hr Hw']; subst.
  destruct w as [|r' w'].
  - cbn [app Fields]. rewrite Hr. change (IsSpace 32) with true. reflexivity.
  - specialize (IH ltac:(discriminate) Hw').
    change ((r :: r' :: w') ++ 32 :: s) with (r :: (r' :: w') ++ 32 :: s).
    inversion Hw' as [|? ? Hr' _]; subst.
    change (Fields (r :: (r' :: w') ++ 32 :: s))
      with (if IsSpace r then Fields ((r' :: w') ++ 32 :: s)
            else if IsSpace r' then [r] :: Fields ((r' :: w') ++ 32 :: s)
                 else match Fields ((r' :: w') ++ 32 :: s) with
                      | [] => [[r]]
                      | w0 :: ws => (r :: w0) :: ws
                      end).
    rewrite Hr, Hr', IH. reflexivity.
Qed.

Lemma Fields_word w : word w -> Fields w = [w].
Proof.
  intros [Hne Hw]. induction w as [|r w IH]; [congruence|].
  inversion Hw as [|? ? Hr Hw']; subst.
  destruct w as [|r' w'].
  - cbn [Fields]. rewrite Hr. reflexivity.
  - specialize (IH ltac:(discriminate) Hw').
    inversion Hw' as [|? ? Hr' _]; subst.
    change (Fields (r :: r' :: w'))
      with (if IsSpace r then Fields (r' :: w')
            else if IsSpace r' then [r] :: Fields (r' :: w')
                 else match Fields (r' :: w') with
                      | [] => [[r]]
                      | w0 :: ws => (r :: w0) :: ws
                      end).
    rewrite Hr, Hr', IH. reflexivity.
Qed.

(** Splitting what was joined gives the fields back. *)
Lemma Fields_Join ws : Forall word ws -> Fields (Join ws [32]) = ws.
Proof.
  induction ws as [|w ws IH]; intros H; [reflexivity|].
  inversion H as [|? ? Hw Hws]; subst.
  destruct ws as [|w2 ws]; [apply Fields_word, Hw|].
  rewrite Join_cons2. change (w ++ [32] ++ Join (w2 :: ws) [32])
    with (w ++ 32 :: Join (w2 :: ws) [32]).
  rewrite Fields_word_app by exact Hw. rewrite IH by exact Hws. reflexivity.
Qed.

Lemma adjacentSpaces_cons2 a b s :
  adjacentSpaces (a :: b :: s) = (IsSpace a && IsSpace b) || adjacentSpaces (b :: s).
Proof. reflexivity. Qed.

Lemma adjacentSpaces_word_app w s :
  Forall (fun r => IsSpace r = false) w ->
  adjacentSpaces (w ++ s) = adjacentSpaces s.
Proof.
  induction w as [|r w IH]; intros H; [reflexivity|].
  inversion H as [|? ? Hr Hw]; subst. specialize (IH Hw).
  change ((r :: w) ++ s) with (r :: (w ++ s)). cbn [adjacentSpaces].
  rewrite Hr. destruct (w ++ s) eqn:E; [|exact IH].
  rewrite <- IH. reflexivity.
Qed.

Lemma adjacentSpaces_Join ws : Forall word ws -> adjacentSpaces (Join ws [32]) = false.
Proof.
  induction ws as [|w ws IH]; intros H; [reflexivity|].
  inversion H as [|? ? Hw Hws]; subst.
  destruct ws as [|w2 ws].
  - cbn [Join]. rewrite <- (app_nil_r w). rewrite adjacentSpaces_word_app by apply Hw.
    reflexivity.
  - rewrite Join_cons2. rewrite adjacentSpaces_word_app by apply Hw.
    inversion Hws as [|? ? Hw2 _]; subst.
    destruct (Join_head_word w2 ws Hw2) as (r & rest & E & Hr).
    specialize (IH Hws). rewrite E in IH |- *.
    change ([32] ++ r :: rest) with (32 :: r :: rest).
    rewrite adjacentSpaces_cons2, Hr, andb_false_r. exact IH.
Qed.

Lemma ReplaceAll_settles x :
  Forall (settled lower) (ReplaceAll (ReplaceAll (ToLower lower x) 45 32) 95 32).
Proof.
  unfold ReplaceAll, ToLower. rewrite !Forall_map.
  apply Forall_forall. intros r _. unfold settled.
  pose proof (lower_idem lower laws r) as Hi. pose proof lower_space as H32.
  destruct (Z.eqb_spec (lower r) 45) as [E|E].
  - change (32 =? 95) with false. cbv iota. repeat split; [exact H32|lia|lia].
  - destruct (Z.eqb_spec (lower r) 95) as [E'|E'].
    + repeat split; [exact H32|lia|lia].
    + repeat split; assumption.
Qed.

Lemma clean_settled x : Forall (settled lower) (clean lower x).
Proof.
  unfold clean. change (runes " ") with [32].
  apply Join_Forall.
  - split; [apply lower_space|lia].
  - apply Fields_Forall, ReplaceAll_settles.
Qed.

(** Cleaning a settled, joined string changes nothing. *)
Lemma clean_Join ws :
  Forall word ws -> Forall (Forall (settled lower)) ws ->
  clean lower (Join ws [32]) = Join ws [32].
Proof.
  intros Hw Hs. unfold clean. change (runes " ") with [32].
  assert (Hj : Forall (settled lower) (Join ws [32])).
  { apply Join_Forall; [|exact Hs]. split; [apply lower_space|lia]. }
  rewrite ToLower_fixed by (eapply Forall_impl; [exact Hj|]; intros r H; apply H).
  rewrite (ReplaceAll_absent (Join ws [32]) 45 32)
    by (eapply Forall_impl; [exact Hj|]; intros r H; apply H).
  rewrite (ReplaceAll_absent (Join ws [32]) 95 32)
    by (eapply Forall_impl; [exact Hj|]; intros r H; apply H).
  rewrite Fields_Join by exact Hw. reflexivity.
Qed.

Lemma clean_idempotent x : clean lower (clean lower x) = clean lower x.
Proof.
  unfold clean at 2 3. change (runes " ") with [32].
  apply clean_Join; [apply Fields_words|].
  apply Fields_Forall, ReplaceAll_settles.
Qed.

Lemma isCase_true c cases :
  isCase c cases = true -> exists k, In k cases /\ c = runes k.
Proof.
  unfold isCase. rewrite existsb_exists. intros (k & Hk & E).
  apply bool_decide_eq_true in E. eauto.
Qed.

Lemma asciiText_check s :
  forallb (fun r => (0 <=? r) && (r <? 128)) s = true -> asciiText s.
Proof.
  intros H. apply Forall_forall. intros r Hr.
  rewrite forallb_forall in H. apply list_elem_of_In in Hr.
  specialize (H r Hr). lia.
Qed.

Lemma notIn_check (r : rune) (s : text) :
  forallb (fun x => negb (x =? r)) s = true -> ~ In r s.
Proof.
  intros H Hin. rewrite forallb_forall in H. specialize (H r Hin).
  rewrite Z.eqb_refl in H. discriminate.
Qed.

(** The canonical names are fixed points. *)
Lemma canonical_fixed k : In k canon -> normaliseCategory lower (runes k) = runes k.
Proof.
  intros H. unfold canon in H. rewrite normalise_ascii.
  - cbn [In] in H.
    repeat (destruct H as [<-|H]; [vm_compute; reflexivity|]). destruct H.
  - cbn [In] in H. apply asciiText_check.
    repeat (destruct H as [<-|H]; [vm_compute; reflexivity|]). destruct H.
Qed.

(** The two ways out of the [switch]: the cleaned string itself, or a
    canonical name. *)
Lemma normalise_cases x :
  (normaliseCategory lower x = clean lower x
   /\ normaliseCategory lower (clean lower x) = clean lower x)
  \/ exists k, In k canon /\ normaliseCategory lower x = runes k
       /\ (k = "post-transition metal" ->
           clean lower x = runes "post transition metal"
           \/ clean lower x = runes "post transition metals").
Proof.
  unfold normaliseCategory at 1 3.
  destruct (isCase (clean lower x) ["diatomic nonmetal"; "polyatomic nonmetal"]) eqn:E1.
  { right. exists "nonmetal". split; [unfold canon; cbn [In]; tauto|].
    split; [reflexivity|discriminate]. }
  destruct (isCase (clean lower x) ["noble gas"; "noble gases"]) eqn:E2.
  { right. exists "noble gas". split; [unfold canon; cbn [In]; tauto|].
    split; [reflexivity|discriminate]. }
  destruct (isCase (clean lower x) ["alkali metal"; "alkali metals"]) eqn:E3.
  { right. exists "alkali metal". split; [unfold canon; cbn [In]; tauto|].
    split; [reflexivity|discriminate]. }
  destruct (isCase (clean lower x) ["alkaline earth metal"; "alkaline earth metals"])
    eqn:E4.
  { right. exists "alkaline earth metal". split; [unfold canon; cbn [In]; tauto|].
    split; [reflexivity|discriminate]. }
  destruct (isCase (clean lower x) ["transition metal"; "transition metals"]) eqn:E5.
  { right. exists "transition metal". split; [unfold canon; cbn [In]; tauto|].
    split; [reflexivity|discriminate]. }
  destruct (isCase (clean lower x) ["post transition metal"; "post transition metals"])
    eqn:E6.
  { right. exists "post-transition metal". split; [unfold canon; cbn [In]; tauto|].
    split; [reflexivity|]. intros _.
    apply isCase_true in E6. destruct E6 as (k0 & Hk0 & E).
    cbn [In] in Hk0. destruct Hk0 as [<-|[<-|[]]]; [left|right]; exact E. }
  destruct (isCase (clean lower x)
              ["lanthanide"; "lanthanoid"; "lanthanoids"; "lanthanides"]) eqn:E7.
  { right. exists "lanthanide". split; [unfold canon; cbn [In]; tauto|].
    split; [reflexivity|discriminate]. }
  destruct (isCase (clean lower x) ["actinide"; "actinoid"; "actinoids"; "actinides"])
    eqn:E8.
  { right. exists "actinide". split; [unfold canon; cbn [In]; tauto|].
    split; [reflexivity|discriminate]. }
  left. split; [reflexivity|].
  unfold normaliseCategory. rewrite clean_idempotent.
  rewrite E1, E2, E3, E4, E5, E6, E7, E8. reflexivity.
Qed.

Lemma normalise_idempotent x :
  normaliseCategory lower (normaliseCategory lower x) = normaliseCategory lower x.
Proof.
  destruct (normalise_cases x) as [[E H]|(k & Hk & E & _)].
  - rewrite E. exact H.
  - rewrite E. apply canonical_fixed, Hk.
Qed.

(** The shape of the canonical names. *)
Lemma canonical_shape k :
  In k canon ->
  ToLower lower (runes k) = runes k
  /\ ~ In 95 (runes k)
  /\ adjacentSpaces (runes k) = false
  /\ (In 45 (runes k) -> k = "post-transition metal").
Proof.
  intros H. unfold canon in H. cbn [In] in H.
  repeat (destruct H as [<-|H];
          [split; [rewrite ToLower_ascii by (apply asciiText_check; vm_compute; reflexivity);
                   vm_compute; reflexivity|];
           split; [apply notIn_check; vm_compute; reflexivity|];
           split; [vm_compute; reflexivity|];
           first [ intros _; reflexivity
                 | intros Hin; exfalso; revert Hin;
                   apply notIn_check; vm_compute; reflexivity ]|]).
  destruct H.
Qed.

Lemma clean_shape x :
  ToLower lower (clean lower x) = clean lower x
  /\ ~ In 95 (clean lower x)
  /\ adjacentSpaces (clean lower x) = false
  /\ ~ In 45 (clean lower x).
Proof.
  pose proof (clean_settled x) as Hs.
  split; [|split; [|split]].
  - apply ToLower_fixed. eapply Forall_impl; [exact Hs|]. intros r H; apply H.
  - intros Hin. rewrite Forall_forall in Hs. apply list_elem_of_In in Hin.
    destruct (Hs _ Hin) as (_ & _ & H). congruence.
  - unfold clean. change (runes " ") with [32].
    apply adjacentSpaces_Join, Fields_words.
  - intros Hin. rewrite Forall_forall in Hs. apply list_elem_of_In in Hin.
    destruct (Hs _ Hin) as (_ & H & _). congruence.
Qed.

Lemma normalise_shape x :
  let out := normaliseCategory lower x in
  ToLower lower out = out
  /\ ~ In 95 out
  /\ adjacentSpaces out = false
  /\ (In 45 out ->
      out = runes "post-transition metal"
      /\ (clean lower x = runes "post transition metal"
          \/ clean lower x = runes "post transition metals")).
Proof.
  cbv zeta. destruct (normalise_cases x) as [[E _]|(k & Hk & E & Hpost)]; rewrite E.
  - destruct (clean_shape x) as (S1 & S2 & S3 & S4).
    split; [exact S1|]. split; [exact S2|]. split; [exact S3|].
    intros Hin. destruct (S4 Hin).
  - destruct (canonical_shape k Hk) as (S1 & S2 & S3 & S4).
    split; [exact S1|]. split; [exact S2|]. split; [exact S3|].
    intros Hin. specialize (S4 Hin). subst k. split; [reflexivity|].
    apply Hpost. reflexivity.
Qed.

End NormaliserFacts.

Section NormaliserClaims.
Import Utf8 Normaliser.

(** The case table restricted to ASCII obeys the laws. *)
Lemma asciiToLower_laws : CaseTableLaws asciiToLower.
Proof.
  split; [reflexivity|].
  intros r. unfold asciiToLower at 2. unfold between.
  destruct (Z.leb_spec 65 r); destruct (Z.leb_spec r 90); cbn [andb];
    try reflexivity;
    unfold asciiToLower, between; zbool.
Qed.

(** C3.  [normaliseCategory] is a function of its argument alone, defined
    on every string, and idempotent; ["Noble Gases"] and ["noble gas"] both
    normalise to ["noble gas"], and ["Unknown"] to ["unknown"].  The case
    table [lower] stands for [unicode.ToLower]. *)
Theorem normalise_total_idempotent
    (lower : rune -> rune) (laws : CaseTableLaws lower) (x : text) :
  normaliseCategory lower (normaliseCategory lower x) = normaliseCategory lower x
  /\ normaliseCategory lower (runes "Noble Gases") = runes "noble gas"
  /\ normaliseCategory lower (runes "noble gas") = runes "noble gas"
  /\ normaliseCategory lower (runes "Unknown") = runes "unknown".
Proof.
  split; [apply normalise_idempotent, laws|].
  repeat split;
    (rewrite (normalise_ascii lower laws)
       by (apply asciiText_check; vm_compute; reflexivity));
    vm_compute; reflexivity.
Qed.

Lemma normalise_total_idempotent_witness :
  normaliseCategory asciiToLower
    (normaliseCategory asciiToLower (runes "  Post-Transition__METALS "))
  = normaliseCategory asciiToLower (runes "  Post-Transition__METALS ")
  /\ normaliseCategory asciiToLower (runes "Noble Gases") = runes "noble gas".
Proof.
  destruct (normalise_total_idempotent asciiToLower asciiToLower_laws
              (runes "  Post-Transition__METALS ")) as (H1 & H2 & _).
  split; [exact H1 | exact H2].
Defined.

(** What [strings.ToLower] leaves unchanged consists of code points the
    case table maps to themselves, none of them a capital [A] to [Z]. *)
Lemma ToLower_unchanged (lower : rune -> rune) (laws : CaseTableLaws lower) (s : text) :
  ToLower lower s = s ->
  Forall (fun r => lower r = r) s /\ Forall (fun r => ~ 65 <= r <= 90) s.
Proof.
  unfold ToLower. induction s as [|r s IH]; intros E; [split; constructor|].
  cbn [map] in E. injection E as Er Es. destruct (IH Es) as [H1 H2].
  split; constructor; try assumption.
  intros Hr. rewrite (lower_ascii lower laws) in Er by lia.
  unfold asciiToLower, between in Er.
  destruct (Z.leb_spec 65 r); [|lia]. destruct (Z.leb_spec r 90); [|lia].
  cbn [andb] in Er. lia.
Qed.

(** C9.  For every input, the string [normaliseCategory] returns is fully
    lower case: each of its characters is its own image under
    [unicode.ToLower], and none is a capital [A] to [Z]; it holds no
    underscore and no two white-space characters in a row; a hyphen occurs
    in it only when it is ["post-transition metal"], which is returned only
    when the cleaned input is ["post transition metal"] or
    ["post transition metals"]. *)
Theorem normalised_output_shape
    (lower : rune -> rune) (laws : CaseTableLaws lower) (x : text) :
  let out := normaliseCategory lower x in
  Forall (fun r => lower r = r) out
  /\ Forall (fun r => ~ 65 <= r <= 90) out
  /\ ~ In 95 out
  /\ adjacentSpaces out = false
  /\ (In 45 out ->
      out = runes "post-transition metal"
      /\ (clean lower x = runes "post transition metal"
          \/ clean lower x = runes "post transition metals")).
Proof.
  destruct (normalise_shape lower laws x) as (H1 & H2).
  destruct (ToLower_unchanged lower laws _ H1) as [Hl Hc].
  cbv zeta. split; [exact Hl|]. split; [exact Hc|]. exact H2.
Qed.

Lemma normalised_output_shape_witness :
  let out := normaliseCategory asciiToLower (runes "Post_Transition  Metals") in
  out = runes "post-transition metal"
  /\ Forall (fun r => asciiToLower r = r) out
  /\ Forall (fun r => ~ 65 <= r <= 90) out
  /\ ~ In 95 out
  /\ adjacentSpaces out = false.
Proof.
  destruct (normalised_output_shape asciiToLower asciiToLower_laws
              (runes "Post_Transition  Metals")) as (H1 & H2 & H3 & H4 & _).
  split; [vm_compute; reflexivity|]. repeat split; assumption.
Defined.

End NormaliserClaims.

(** ** The batch loops and per-element failures *)

Section BatchFacts.
Import IO Colour.

Lemma pngCount_insert_png {card : Type} (files : gmap string (file card)) p c :
  files !! p = None ->
  size (filter (fun kv => isPng (snd kv) = true) (<[p := Png c]> files))
  = S (size (filter (fun kv => isPng (snd kv) = true) files)).
Proof.
  intros H. rewrite map_filter_insert_True by reflexivity.
  apply map_size_insert_None. apply map_lookup_filter_None. left. exact H.
Qed.

Lemma pngCount_insert_partial {card : Type} (files : gmap string (file card)) p :
  files !! p = None ->
  size (filter (fun kv => isPng (snd kv) = true) (<[p := Partial]> files))
  = size (filter (fun kv => isPng (snd kv) = true) files).
Proof.
  intros H. rewrite map_filter_insert_False by (simpl; discriminate).
  rewrite delete_id by exact H. reflexivity.
Qed.

(** *** main.go *)

Lemma MainGo_save_count env p img (files : gmap string (file MainGo.Tile)) :
  files !! p = None ->
  size (filter (fun kv => isPng (snd kv) = true) (MainGo.save env p img files))
  = (size (filter (fun kv => isPng (snd kv) = true) files)
     + (if saved env p then 1 else 0))%nat.
Proof.
  intros H. unfold MainGo.save, saved.
  destruct (createOK env p); cbn [andb]; [|lia].
  destruct (encodeOK env p).
  - rewrite pngCount_insert_png by exact H. lia.
  - rewrite pngCount_insert_partial by exact H. lia.
Qed.

Lemma MainGo_save_other env p img (files : gmap string (file MainGo.Tile)) q :
  q <> p -> MainGo.save env p img files !! q = files !! q.
Proof.
  intros H. unfold MainGo.save.
  destruct (createOK env p); [|reflexivity].
  destruct (encodeOK env p); apply lookup_insert_ne; congruence.
Qed.

Lemma MainGo_loop_spec env colours fonts outdir height elements :
  forall w : World MainGo.Tile,
    NoDup (map (MainGo.path env outdir) elements) ->
    (forall e, In e elements -> fs w !! MainGo.path env outdir e = None) ->
    let w' := effects env colours fonts outdir height elements w in
    (pngCount w'
     = pngCount w
       + length (List.filter (fun e => saved env (MainGo.path env outdir e)) elements))%nat
    /\ logged w' = logged w
    /\ length (stdout w') = (length (stdout w) + length elements)%nat
    /\ (forall q, ~ In q (map (MainGo.path env outdir) elements) ->
        fs w' !! q = fs w !! q).
Proof.
  induction elements as [|e es IH]; intros w Hnd Hfresh.
  - cbn. repeat split; lia.
  - cbn [map] in Hnd. apply NoDup_cons in Hnd as [Hnotin Hnd].
    set (w1 := MainGo.iteration env colours fonts outdir height w e).
    assert (Hfresh1 : forall e', In e' es -> fs w1 !! MainGo.path env outdir e' = None).
    { intros e' He'. unfold w1, MainGo.iteration. cbn [fs].
      rewrite MainGo_save_other.
      - apply Hfresh. right. exact He'.
      - intros E. apply Hnotin. rewrite <- E. apply list_elem_of_In, in_map, He'. }
    specialize (IH w1 Hnd Hfresh1). cbv zeta in IH.
    destruct IH as (IH1 & IH2 & IH3 & IH4).
    change (effects env colours fonts outdir height (e :: es) w)
      with (effects env colours fonts outdir height es w1).
    cbv zeta. split; [|split; [|split]].
    + rewrite IH1. unfold pngCount at 1, pngFiles, w1, MainGo.iteration. cbn [fs].
      rewrite MainGo_save_count by (apply Hfresh; left; reflexivity).
      cbn [List.filter]. unfold pngCount, pngFiles.
      destruct (saved env (MainGo.path env outdir e)); cbn [length]; lia.
    + rewrite IH2. reflexivity.
    + rewrite IH3. unfold w1, MainGo.iteration. cbn [stdout].
      rewrite length_app. cbn [length]. lia.
    + intros q Hq. rewrite IH4.
      * unfold w1, MainGo.iteration. cbn [fs]. apply MainGo_save_other.
        intros ->. apply Hq. left. reflexivity.
      * intros Hin. apply Hq. right. exact Hin.
Qed.

Lemma MainGo_step_allocates env colours fonts outdir height (w : World MainGo.Tile) e :
  allocates height ->
  MainGo.step env colours fonts outdir height w e
  = Ret (MainGo.iteration env colours fonts outdir height w e).
Proof.
  unfold allocates, MainGo.step. intros H.
  destruct (Raster.NewRGBA _); [reflexivity|congruence].
Qed.

(** With a canvas that can be allocated the loop runs to its end. *)
Lemma MainGo_loop_effects env colours fonts outdir height elements :
  allocates height ->
  forall w : World MainGo.Tile,
    MainGo.loop env colours fonts outdir height elements w
    = Ret (effects env colours fonts outdir height elements w).
Proof.
  intros H. induction elements as [|e es IH]; intros w; [reflexivity|].
  cbn [MainGo.loop]. rewrite MainGo_step_allocates by exact H. apply IH.
Qed.

(** *** part_000 *)

Lemma Part000_step_spec env colorMap (w : World Part000.Card) el :
  coloured colorMap el ->
  fontDraws env el ->
  fs w !! Part000.path env el = None ->
  exists w',
    Part000.step env colorMap w el = Ret w'
    /\ pngCount w' = (pngCount w + (if saved env (Part000.path env el) then 1 else 0))%nat
    /\ logged w' = logged w ++ failureLines env el
    /\ (forall q, q <> Part000.path env el -> fs w' !! q = fs w !! q).
Proof.
  intros (a & b & c & d & e & f & Ha & Hb & Hc & Hd & He & Hf & E) Hdraw Hfresh.
  unfold Part000.step, failureLines, saved. unfold fontDraws in Hdraw.
  rewrite (bgColor_well_formed colorMap _ a b c d e f) by assumption.
  rewrite Hdraw, app_nil_r.
  destruct (createOK env (Part000.path env el)); cbn [negb andb].
  - destruct (encodeOK env (Part000.path env el)); cbn [negb].
    + eexists. split; [reflexivity|]. unfold pngCount, pngFiles. cbn [fs logged].
      split; [rewrite pngCount_insert_png by exact Hfresh; lia|].
      split; [rewrite app_nil_r; reflexivity|].
      intros q Hq. apply lookup_insert_ne. congruence.
    + eexists. split; [reflexivity|]. unfold pngCount, pngFiles. cbn [fs logged].
      split; [rewrite pngCount_insert_partial by exact Hfresh; lia|].
      split; [reflexivity|].
      intros q Hq. apply lookup_insert_ne. congruence.
  - eexists. split; [reflexivity|]. unfold pngCount, pngFiles. cbn [fs logged].
    split; [lia|]. split; reflexivity.
Qed.

Lemma Part000_loop_spec env colorMap elements :
  forall w : World Part000.Card,
    NoDup (map (Part000.path env) elements) ->
    (forall el, In el elements -> fs w !! Part000.path env el = None) ->
    Forall (coloured colorMap) elements ->
    Forall (fontDraws env) elements ->
    exists w',
      Part000.loop env colorMap elements w = Ret w'
      /\ (pngCount w'
          = pngCount w
            + length (List.filter (fun el => saved env (Part000.path env el)) elements))%nat
      /\ logged w' = logged w ++ flat_map (failureLines env) elements.
Proof.
  induction elements as [|el els IH]; intros w Hnd Hfresh Hcol Hdraw.
  - exists w. cbn. split; [reflexivity|]. split; [lia|]. rewrite app_nil_r. reflexivity.
  - cbn [map] in Hnd. apply NoDup_cons in Hnd as [Hnotin Hnd].
    inversion Hcol as [|? ? Hel Hels]; subst.
    inversion Hdraw as [|? ? Hdl Hdls]; subst.
    destruct (Part000_step_spec env colorMap w el Hel Hdl (Hfresh el (or_introl eq_refl)))
      as (w1 & E1 & C1 & L1 & F1).
    assert (Hfresh1 : forall el', In el' els -> fs w1 !! Part000.path env el' = None).
    { intros el' Hel'. rewrite F1.
      - apply Hfresh. right. exact Hel'.
      - intros E. apply Hnotin. rewrite <- E. apply list_elem_of_In, in_map, Hel'. }
    destruct (IH w1 Hnd Hfresh1 Hels Hdls) as (w' & E' & C' & L').
    exists w'. cbn [Part000.loop]. rewrite E1. split; [exact E'|].
    split.
    + rewrite C', C1. cbn [List.filter].
      destruct (saved env (Part000.path env el)); cbn [length]; lia.
    + rewrite L', L1. cbn [flat_map]. rewrite app_assoc. reflexivity.
Qed.

Lemma failureLines_length env el :
  length (failureLines env el)
  = if saved env (Part000.path env el) then 0%nat else 1%nat.
Proof.
  unfold failureLines, saved.
  destruct (createOK env (Part000.path env el)); [|reflexivity].
  destruct (encodeOK env (Part000.path env el)); reflexivity.
Qed.

Lemma failure_count env elements :
  length (flat_map (failureLines env) elements)
  = length (List.filter (fun el => negb (saved env (Part000.path env el))) elements).
Proof.
  induction elements as [|el els IH]; [reflexivity|].
  cbn [flat_map List.filter]. rewrite length_app, failureLines_length, IH.
  destruct (saved env (Part000.path env el)); reflexivity.
Qed.

Lemma filter_split {T : Type} (f : T -> bool) (l : list T) :
  (length (List.filter f l) + length (List.filter (fun x => negb (f x)) l))%nat
  = length l.
Proof.
  induction l as [|x l IH]; [reflexivity|].
  cbn [List.filter]. destruct (f x); cbn [negb length]; lia.
Qed.

End BatchFacts.

(** ** Canvas geometry and font sizes *)

Section GeometryClaims.
Import GoInt Layout.

Lemma bt_exact tileH : inRange tileH -> bt tileH = Z.quot tileH 15.
Proof. intros H. apply quo_exact; [exact H|lia]. Qed.

Lemma pad_exact tileH : inRange tileH -> pad tileH = Z.quot tileH 20.
Proof. intros H. apply quo_exact; [exact H|lia]. Qed.

Lemma small_inRange h : 0 <= h < 2 ^ 53 -> inRange h.
Proof. unfold inRange, minInt, maxInt. lia. Qed.

(** Truncated division of a doubled non-negative number. *)
Lemma quot_double h d :
  0 <= h -> 0 < d -> 2 * Z.quot h d <= Z.quot (2 * h) d <= 2 * Z.quot h d + 1.
Proof.
  intros Hh Hd. rewrite !Z.quot_div_nonneg by lia.
  pose proof (Z.div_mod h d ltac:(lia)). pose proof (Z.mod_pos_bound h d Hd).
  pose proof (Z.div_mod (2 * h) d ltac:(lia)).
  pose proof (Z.mod_pos_bound (2 * h) d Hd). nia.
Qed.

Lemma quot_half h d : 0 <= h -> 2 <= d -> 2 * Z.quot h d <= h.
Proof.
  intros Hh Hd. rewrite Z.quot_div_nonneg by lia.
  pose proof (Z.div_mod h d ltac:(lia)). pose proof (Z.mod_pos_bound h d ltac:(lia)).
  nia.
Qed.

(** C5, counterexample.  Nothing guards the configured height: height 0
    gives a canvas of width 0, and height -600 gives width -782 with a
    border thickness of -40, above half of the smaller dimension. *)
Lemma degenerate_height_unguarded :
  tileW 0 = 0
  /\ tileW (-600) = -782
  /\ bt (-600) = -40
  /\ ~ (2 * bt (-600) <= Z.min (tileW (-600)) (-600)).
Proof. vm_compute. repeat split; try reflexivity. intros H. apply H. reflexivity. Qed.

(** C5, amended.  For every configured height, border thickness is
    [tileH / 15] and padding [tileH / 20] under Go's integer division; for
    a height from 1 up, the canvas height and width are positive and
    neither border thickness nor padding exceeds half of the smaller
    canvas dimension.  Heights below 1 are not rejected and do not have
    these properties. *)
Theorem canvas_geometry_amended (tileH : Z) :
  (inRange tileH -> bt tileH = Z.quot tileH 15 /\ pad tileH = Z.quot tileH 20)
  /\ (1 <= tileH < 2 ^ 52 ->
      0 < tileH <= tileW tileH
      /\ 2 * bt tileH <= Z.min (tileW tileH) tileH
      /\ 2 * pad tileH <= Z.min (tileW tileH) tileH).
Proof.
  split.
  - intros H. split; [apply bt_exact|apply pad_exact]; exact H.
  - intros H.
    pose proof (widthModel_ge tileH H) as Hw. rewrite <- tileW_model in Hw by exact H.
    rewrite bt_exact, pad_exact by (apply small_inRange; lia).
    pose proof (quot_half tileH 15 ltac:(lia) ltac:(lia)).
    pose proof (quot_half tileH 20 ltac:(lia) ltac:(lia)).
    rewrite Z.min_r by lia. lia.
Qed.

Lemma canvas_geometry_amended_witness :
  (bt 600 = Z.quot 600 15 /\ pad 600 = Z.quot 600 20)
  /\ (0 < 600 <= tileW 600
      /\ 2 * bt 600 <= Z.min (tileW 600) 600
      /\ 2 * pad 600 <= Z.min (tileW 600) 600).
Proof.
  destruct (canvas_geometry_amended 600) as [H1 H2]. split.
  - apply H1. unfold inRange, minInt, maxInt. lia.
  - apply H2. lia.
Defined.

(** C6, counterexample.  The divisors are not distinct per role: number
    and mass both use 10, so their font sizes coincide. *)
Lemma number_and_mass_share_divisor :
  Number <> Mass
  /\ divisor Number = divisor Mass
  /\ numSize = massSize
  /\ fontSize Number 600 = fontSize Mass 600.
Proof. repeat split; try reflexivity. discriminate. Qed.

(** C6, amended.  Each role's font size is the canvas height divided, in
    [float64], by a fixed constant: 10 for the number, 3 for the symbol, 7
    for the name and 10 for the mass.  Number and mass share their
    constant and no other two roles do; the symbol's is strictly the
    smallest, and for every height from 1 up to [2^53 - 1] the symbol's
    size is strictly the largest.  The height is not checked: at height 0
    all four sizes are 0, and at height -600 the symbol's size is the
    smallest. *)
Theorem font_sizes_amended (r r' : role) (tileH : Z) :
  fontSize r tileH = F64.div (F64.of_int tileH) (F64.of_int (divisor r))
  /\ (divisor Number = 10 /\ divisor Symbol = 3 /\ divisor Name = 7 /\ divisor Mass = 10)
  /\ (divisor r = divisor r' ->
      r = r' \/ (r = Number /\ r' = Mass) \/ (r = Mass /\ r' = Number))
  /\ (r <> Symbol -> divisor Symbol < divisor r)
  /\ (1 <= tileH < 2 ^ 53 -> r <> Symbol ->
      SFltb (fontSize r tileH) (fontSize Symbol tileH) = true)
  /\ fontSize r 0 = S754_zero false
  /\ (r <> Symbol ->
      SFltb (fontSize Symbol (-600)) (fontSize r (-600)) = true).
Proof.
  split; [destruct r; reflexivity|].
  split; [repeat split|].
  split; [destruct r, r'; cbn; intros H; try discriminate H; tauto|].
  split; [destruct r; intros H; [reflexivity|congruence|reflexivity|reflexivity]|].
  split; [|split; [destruct r; reflexivity|]].
  - intros HH Hr. unfold fontSize, numSize, symSize, nameSize, massSize.
    destruct r; [|congruence| |].
    + apply (quotient_by_3_largest tileH 10 5629499534213120 (-49) HH);
        [right; repeat split|vm_compute; reflexivity].
    + apply (quotient_by_3_largest tileH 7 7881299347898368 (-50) HH);
        [left; repeat split|vm_compute; reflexivity].
    + apply (quotient_by_3_largest tileH 10 5629499534213120 (-49) HH);
        [right; repeat split|vm_compute; reflexivity].
  - destruct r; intros H; [reflexivity|congruence|reflexivity|reflexivity].
Qed.

Lemma font_sizes_amended_witness :
  divisor Symbol < divisor Name
  /\ SFltb (fontSize Name 4320) (fontSize Symbol 4320) = true
  /\ fontSize Name 0 = S754_zero false.
Proof.
  destruct (font_sizes_amended Name Symbol 4320) as (_ & _ & _ & H1 & H2 & H3 & _).
  split; [apply H1; discriminate|]. split; [apply H2; [lia|discriminate]|exact H3].
Defined.

(** C7, counterexample.  The width is truncated, not rounded: height 600
    gives 782 where the nearest integer to [600 * 2456 / 1882] is 783; and
    doubling the height does not exactly double border thickness and
    padding. *)
Lemma width_truncated_and_halves_lost :
  tileW 600 = 782
  /\ specWidth 600 = 783
  /\ (bt 8 = 0 /\ bt 16 = 1)
  /\ (pad 10 = 0 /\ pad 20 = 1).
Proof. vm_compute. repeat split; reflexivity. Qed.

(** C7, amended.  The aspect-ratio constant is the [float64] nearest to
    [2456/1882].  For every height [h] from 1 up, the width
    [int(ratio * float64(h))] is the exact product [h * 2456 / 1882] with
    its fraction discarded (one less when the product is whole and the
    float product falls just below it), so it is never above the product
    and less than one below it; doubling the height gives twice the width
    or one more, and likewise for border thickness and padding. *)
Theorem width_scaling_amended (h : Z) :
  1 <= h < 2 ^ 41 ->
  ratio = S754_finite false 5877173583858628 (-52)
  /\ Z.abs (5877173583858628 * 1882 - 2456 * 2 ^ 52) <= 941
  /\ 1882 * tileW h <= 2456 * h <= 1882 * (tileW h + 1)
  /\ 2 * tileW h <= tileW (2 * h) <= 2 * tileW h + 1
  /\ 2 * bt h <= bt (2 * h) <= 2 * bt h + 1
  /\ 2 * pad h <= pad (2 * h) <= 2 * pad h + 1.
Proof.
  intros Hh.
  split; [apply ratio_value|]. split; [vm_compute; discriminate|].
  rewrite !tileW_model by lia.
  pose proof (widthModel_exact h Hh). pose proof (widthModel_double h ltac:(lia)).
  rewrite !bt_exact, !pad_exact by (apply small_inRange; lia).
  pose proof (quot_double h 15 ltac:(lia) ltac:(lia)).
  pose proof (quot_double h 20 ltac:(lia) ltac:(lia)).
  lia.
Qed.

Lemma width_scaling_amended_witness :
  1882 * tileW 600 <= 2456 * 600 <= 1882 * (tileW 600 + 1)
  /\ 2 * tileW 600 <= tileW (2 * 600) <= 2 * tileW 600 + 1.
Proof.
  destruct (width_scaling_amended 600 ltac:(lia)) as (_ & _ & H1 & H2 & _).
  split; [exact H1|exact H2].
Defined.

End GeometryClaims.

(** ** Invariants of the colours *)

Section ColourInvariants.
Import Utf8 Str Colour.

Lemma scanHex2_range s v s' : scanHex2 s = Some (v, s') -> 0 <= v <= 255.
Proof.
  unfold scanHex2. destruct (skipSpace (String.length s) s) as [[|a s1]|]; try discriminate.
  destruct (hexVal a) as [hi|] eqn:Ha; [|discriminate].
  apply hexVal_range in Ha.
  destruct s1 as [|b s2]; [intros [= <- _]; lia|].
  destruct (hexVal b) as [lo|] eqn:Hb; intros [= <- _]; [|lia].
  apply hexVal_range in Hb. lia.
Qed.

Lemma Sscanf3_range h r g b :
  Sscanf3 h = (r, g, b) -> 0 <= r <= 255 /\ 0 <= g <= 255 /\ 0 <= b <= 255.
Proof.
  unfold Sscanf3.
  destruct (scanHex2 h) as [[r1 h1]|] eqn:E1; [|intros [= <- <- <-]; lia].
  apply scanHex2_range in E1.
  destruct (scanHex2 h1) as [[g1 h2]|] eqn:E2; [|intros [= <- <- <-]; lia].
  apply scanHex2_range in E2.
  destruct (scanHex2 h2) as [[b1 h3]|] eqn:E3; intros [= <- <- <-]; [|lia].
  apply scanHex2_range in E3. lia.
Qed.

Lemma hexToRGBA_opaqueBytes h : opaqueBytes (hexToRGBA h).
Proof.
  unfold hexToRGBA, opaqueBytes.
  match goal with |- context [negb ?c] => destruct (negb c) end; [cbn; lia|].
  match goal with |- context [Sscanf3 ?x] => destruct (Sscanf3 x) as [[r g] b] eqn:E end.
  apply Sscanf3_range in E. cbn. lia.
Qed.

Lemma byteShl4Add_range hi lo : 0 <= byteShl4Add hi lo <= 255.
Proof.
  unfold byteShl4Add.
  pose proof (Z.mod_pos_bound (Z.shiftl hi 4 mod 256 + lo) 256 ltac:(lia)). lia.
Qed.

Lemma parseHexColor_opaqueBytes s c e : parseHexColor s = Ret (c, e) -> opaqueBytes c.
Proof.
  destruct s as [|s0 s]; [discriminate|]. unfold parseHexColor.
  destruct (negb (code s0 =? 35)); [intros [= <- _]; unfold opaqueBytes; cbn; lia|].
  destruct (String.length (String s0 s)) as [|[|[|[|[|[|[|[|n]]]]]]]];
    try (intros [= <- _]; unfold opaqueBytes; cbn; lia).
  repeat match goal with
    | |- context [hexToByte ?x ?y] => destruct (hexToByte x y)
    end.
  intros [= <- _]. unfold opaqueBytes. cbn.
  repeat split; try apply byteShl4Add_range.
Qed.

(** X1.  Every colour the two programs hand to the renderer is opaque and
    has channels in the byte range: the results of [hexToRGBA] and of the
    border selection of main.go, and whatever [parseHexColor] and the
    background selection of part_000 return. *)
Theorem colours_are_opaque_bytes
    (h : string) (table : gmap string string) (category : string) :
  opaqueBytes (hexToRGBA h)
  /\ opaqueBytes (border table category)
  /\ (forall c e, parseHexColor h = Ret (c, e) -> opaqueBytes c)
  /\ (forall c w, bgColor table category = Ret (c, w) -> opaqueBytes c).
Proof.
  split; [apply hexToRGBA_opaqueBytes|]. split.
  - unfold border. destruct (table !! category); [apply hexToRGBA_opaqueBytes|].
    unfold opaqueBytes. cbn. lia.
  - split; [intros c e; apply parseHexColor_opaqueBytes|].
    intros c w. unfold bgColor.
    destruct (parseHexColor (selectHex table category)) as [[c0 [e|]]|] eqn:E;
      intros [= <- _].
    + unfold opaqueBytes. cbn. lia.
    + eapply parseHexColor_opaqueBytes, E.
Qed.

(** X2.  What [parseHexColor] accepts, [hexToRGBA] reads as the same
    colour: the stricter parser of part_000 and the lenient one of main.go
    agree wherever the strict one reports no error. *)
Theorem parsers_agree_on_accepted (s : string) (c : RGBA) :
  parseHexColor s = Ret (c, None) -> hexToRGBA s = c.
Proof.
  intros H. destruct (parseHexColor_accepts s c H)
    as (a & b & c1 & d & e & f & Ha & Hb & Hc & Hd & He & Hf & ->).
  rewrite parseHexColor_hex6 in H by assumption. injection H as <-.
  apply hexToRGBA_hex6; assumption.
Qed.

Lemma parsers_agree_on_accepted_witness :
  hexToRGBA "#3498db" = mkRGBA 52 152 219 255.
Proof. apply (parsers_agree_on_accepted "#3498db"). reflexivity. Defined.

Lemma six_bytes (t : string) :
  String.length t = 6%nat ->
  t = hex6 (byteAt t 0) (byteAt t 1) (byteAt t 2) (byteAt t 3) (byteAt t 4) (byteAt t 5).
Proof.
  destruct t as [|a [|b [|c [|d [|e [|f [|g t]]]]]]]; try discriminate. reflexivity.
Qed.

(** X3.  The error [parseHexColor] reports follows a fixed precedence: a
    missing ['#'] before a wrong length, a wrong length before a bad digit;
    with either of the first two the colour is opaque black, and of
    several bad digits the last one is named. *)
Theorem parseHexColor_error_precedence
    (a : ascii) (t : string) (c : RGBA) (e : hexError) :
  parseHexColor (String a t) = Ret (c, Some e) ->
  match e with
  | MissingHash => code a <> 35 /\ c = black
  | InvalidLength n =>
      code a = 35 /\ n = S (String.length t) /\ n <> 7%nat /\ c = black
  | InvalidHexChar b =>
      code a = 35 /\ String.length t = 6%nat /\ hexVal b = None
      /\ exists i, (i < 6)%nat /\ byteAt t i = b
           /\ forall j, (i < j < 6)%nat -> isHex (byteAt t j)
  end.
Proof.
  unfold parseHexColor.
  destruct (Z.eqb_spec (code a) 35) as [Ea|Ea]; cbn [negb].
  2:{ intros [= <- <-]. split; [exact Ea|reflexivity]. }
  destruct (Nat.eq_dec (String.length t) 6%nat) as [E6|E6].
  - cbn [String.length]. rewrite E6.
    change (byteAt (String a t) 1) with (byteAt t 0).
    change (byteAt (String a t) 2) with (byteAt t 1).
    change (byteAt (String a t) 3) with (byteAt t 2).
    change (byteAt (String a t) 4) with (byteAt t 3).
    change (byteAt (String a t) 5) with (byteAt t 4).
    change (byteAt (String a t) 6) with (byteAt t 5).
    set (b0 := byteAt t 0). set (b1 := byteAt t 1). set (b2 := byteAt t 2).
    set (b3 := byteAt t 3). set (b4 := byteAt t 4). set (b5 := byteAt t 5).
    rewrite hexToByte_hexVal. destruct (hexVal b0) as [v0|] eqn:H0.
    all: rewrite hexToByte_hexVal; destruct (hexVal b1) as [v1|] eqn:H1.
    all: rewrite hexToByte_hexVal; destruct (hexVal b2) as [v2|] eqn:H2.
    all: rewrite hexToByte_hexVal; destruct (hexVal b3) as [v3|] eqn:H3.
    all: rewrite hexToByte_hexVal; destruct (hexVal b4) as [v4|] eqn:H4.
    all: rewrite hexToByte_hexVal; destruct (hexVal b5) as [v5|] eqn:H5.
    all: intros [= _ <-].
    all: split; [exact Ea|]; split; [reflexivity|]; split; [assumption|].
    all: first [lastBad 5%nat|lastBad 4%nat|lastBad 3%nat|lastBad 2%nat
               |lastBad 1%nat|lastBad 0%nat].
  - cbn [String.length].
    destruct (String.length t) as [|[|[|[|[|[|[|n]]]]]]] eqn:El; try lia;
      intros [= <- <-]; (split; [exact Ea|]); (split; [reflexivity|]);
      (split; [lia|reflexivity]).
Qed.

Lemma parseHexColor_error_precedence_witness :
  code "#" = 35 /\ String.length "zf00z0" = 6%nat /\ hexVal "z" = None
  /\ exists i, (i < 6)%nat /\ byteAt "zf00z0" i = "z"%char
       /\ forall j, (i < j < 6)%nat -> isHex (byteAt "zf00z0" j).
Proof.
  apply (parseHexColor_error_precedence "#" "zf00z0" (mkRGBA 15 0 0 255)
           (InvalidHexChar "z")).
  reflexivity.
Defined.

End ColourInvariants.

(** ** The lenient parser of main.go *)

Section LenientHexFacts.
Import Utf8 Str Colour.



Lemma scanHex2_last a : isHex a -> scanHex2 (String a "") = Some (hv a, "").
Proof.
  intros Ha. apply isHex_hv in Ha.
  pose proof (hexVal_range _ _ Ha). unfold scanHex2.
  rewrite skipSpace_plain by lia. rewrite Ha. reflexivity.
Qed.








(** *** White space around a colour *)

Lemma app_cons_s a (s t : string) : String.app (String a s) t = String a (String.app s t).
Proof. reflexivity. Qed.

Lemma app_nil_s (t : string) : String.app "" t = t.
Proof. reflexivity. Qed.

Lemma app_assoc_s (s t u : string) : String.app (String.app s t) u = String.app s (String.app t u).
Proof.
  induction s as [|a s IH]; [reflexivity|].
  rewrite !app_cons_s. f_equal. exact IH.
Qed.

Lemma length_app_s (s t : string) :
  String.length (String.app s t) = (String.length s + String.length t)%nat.
Proof.
  induction s as [|a s IH]; [reflexivity|].
  rewrite app_cons_s. cbn [String.length Nat.add]. f_equal. exact IH.
Qed.

Lemma blank_space a : blank a -> code a < 128 /\ IsSpace (code a) = true.
Proof.
  unfold blank, IsSpace, between. intros H.
  split; [lia|]. destruct H as [H| ->]; [|reflexivity].
  destruct (Z.leb_spec 9 (code a)); [|lia].
  destruct (Z.leb_spec (code a) 13); [|lia]. reflexivity.
Qed.

Lemma trimLeft_blanks pre : forall fuel u b,
  blanks pre -> plain b -> (String.length pre <= fuel)%nat ->
  trimLeft fuel (String.app pre (String b u)) = String b u.
Proof.
  induction pre as [|a pre IH]; intros fuel u b Hpre Hb Hfuel.
  - rewrite app_nil_s. destruct fuel as [|k]; [reflexivity|].
    rewrite trimLeft_S, decodeRune_ascii by (unfold plain in Hb; lia).
    rewrite plain_not_space by exact Hb. reflexivity.
  - unfold blanks in Hpre. cbn [list_ascii_of_string] in Hpre.
    inversion Hpre as [|? ? Ha Hrest]; subst.
    destruct (blank_space a Ha) as [Ha1 Ha2].
    destruct fuel as [|k]; [cbn in Hfuel; lia|].
    rewrite app_cons_s, trimLeft_S, decodeRune_ascii by exact Ha1.
    rewrite Ha2. cbn [drop]. apply IH; [exact Hrest|exact Hb|cbn in Hfuel; lia].
Qed.

Lemma byteAt_last u c : byteAt (String.app u (String c "")) (String.length u) = c.
Proof. induction u as [|a u IH]; [reflexivity|]. exact IH. Qed.

Lemma substring_init u c :
  substring 0 (String.length u) (String.app u (String c "")) = u.
Proof.
  induction u as [|a u IH]; [reflexivity|].
  rewrite app_cons_s. cbn [String.length substring]. rewrite IH. reflexivity.
Qed.

Lemma decodeLastRune_snoc u c :
  code c < 128 -> decodeLastRune (String.app u (String c "")) = (code c, 1%nat).
Proof.
  intros Hc. destruct u as [|a u].
  - rewrite app_nil_s, decodeLastRune_ascii; cbn; [reflexivity|exact Hc].
  - rewrite app_cons_s, decodeLastRune_ascii.
    + rewrite length_app_s. cbn [String.length].
      replace (String.length u + 1)%nat with (S (String.length u)) by lia.
      change (byteAt (String a (String.app u (String c ""))) (S (String.length u)))
        with (byteAt (String.app u (String c "")) (String.length u)).
      rewrite byteAt_last. reflexivity.
    + rewrite length_app_s. cbn [String.length].
      replace (String.length u + 1)%nat with (S (String.length u)) by lia.
      change (byteAt (String a (String.app u (String c ""))) (S (String.length u)))
        with (byteAt (String.app u (String c "")) (String.length u)).
      rewrite byteAt_last. exact Hc.
Qed.

Lemma trimRight_snoc fuel u c :
  blank c -> trimRight (S fuel) (String.app u (String c "")) = trimRight fuel u.
Proof.
  intros Hc. destruct (blank_space c Hc) as [H1 H2].
  rewrite trimRight_S, decodeLastRune_snoc by exact H1. rewrite H2.
  rewrite length_app_s. cbn [String.length].
  replace (String.length u + 1 - 1)%nat with (String.length u) by lia.
  rewrite substring_init. reflexivity.
Qed.

Lemma trimRight_blanks post : forall fuel u,
  blanks post -> (String.length post <= fuel)%nat ->
  trimRight fuel (String.app u post) = trimRight (fuel - String.length post) u.
Proof.
  induction post as [|c post IH]; intros fuel u Hpost Hfuel.
  - cbn [String.length]. rewrite Nat.sub_0_r.
    replace (String.app u "") with u; [reflexivity|].
    induction u as [|a u IHu]; [reflexivity|]. rewrite app_cons_s. f_equal. exact IHu.
  - unfold blanks in Hpost. cbn [list_ascii_of_string] in Hpost.
    inversion Hpost as [|? ? Hc Hrest]; subst.
    change (String c post) with (String.app (String c "") post).
    rewrite <- app_assoc_s. cbn [String.length] in Hfuel |- *.
    rewrite IH by (try exact Hrest; lia).
    replace (fuel - String.length post)%nat with (S (fuel - S (String.length post))) by lia.
    apply trimRight_snoc, Hc.
Qed.

Lemma TrimSpace_blanks pre post a s :
  blanks pre -> blanks post ->
  plain a -> plain (byteAt (String a s) (String.length s)) ->
  TrimSpace (String.app pre (String.app (String a s) post)) = String a s.
Proof.
  intros Hpre Hpost Ha Hz. unfold TrimSpace.
  rewrite app_cons_s.
  rewrite trimLeft_blanks by (try assumption; rewrite length_app_s; lia).
  change (String a (String.app s post)) with (String.app (String a s) post).
  rewrite trimRight_blanks by (try assumption; rewrite length_app_s; lia).
  rewrite length_app_s.
  replace (String.length (String a s) + String.length post - String.length post)%nat
    with (S (String.length s)) by (cbn [String.length]; lia).
  rewrite trimRight_S, decodeLastRune_ascii by (unfold plain in Hz; lia).
  rewrite plain_not_space by exact Hz. reflexivity.
Qed.

(** X5.  [hexToRGBA] ignores ASCII white space around its argument:
    blanks, tabs and line ends before and after a string that starts and
    ends with a printable character do not change the colour it reads. *)
Theorem hexToRGBA_ignores_surrounding_space (pre post : string) (a : ascii) (s : string) :
  blanks pre -> blanks post ->
  plain a -> plain (byteAt (String a s) (String.length s)) ->
  hexToRGBA (String.app pre (String.app (String a s) post)) = hexToRGBA (String a s).
Proof.
  intros Hpre Hpost Ha Hz. unfold hexToRGBA.
  rewrite TrimSpace_blanks by assumption.
  rewrite TrimSpace_plain by assumption. reflexivity.
Qed.

Lemma hexToRGBA_ignores_surrounding_space_witness :
  hexToRGBA (String.app " " (String.app "#3498db" (String "010" "")))
  = hexToRGBA "#3498db".
Proof.
  apply (hexToRGBA_ignores_surrounding_space " " (String "010" "") "#" "3498db").
  - constructor; [right; reflexivity|constructor].
  - constructor; [left; vm_compute; split; discriminate|constructor].
  - unfold plain. vm_compute. split; discriminate.
  - unfold plain. vm_compute. split; discriminate.
Defined.

End LenientHexFacts.

Section LenientHexClaims.
Import Utf8 Str Colour.





End LenientHexClaims.

(** ** Output file names *)

Section FileNames.
Import Utf8 IO.

Lemma pretty_N_char_digit x : (x < 10)%N -> isDigit (pretty_N_char x).
Proof.
  intros H. unfold isDigit.
  assert (x = 0 \/ x = 1 \/ x = 2 \/ x = 3 \/ x = 4 \/ x = 5 \/ x = 6 \/ x = 7
          \/ x = 8 \/ x = 9)%N as Hx by lia.
  repeat (destruct Hx as [-> | Hx]; [vm_compute; split; discriminate|]).
  subst x. vm_compute. split; discriminate.
Qed.

Lemma pretty_N_char_value x : (x < 10)%N -> (N_of_ascii (pretty_N_char x) - 48 = x)%N.
Proof.
  intros H.
  assert (x = 0 \/ x = 1 \/ x = 2 \/ x = 3 \/ x = 4 \/ x = 5 \/ x = 6 \/ x = 7
          \/ x = 8 \/ x = 9)%N as Hx by lia.
  repeat (destruct Hx as [-> | Hx]; [reflexivity|]).
  subst x. reflexivity.
Qed.

Lemma pretty_N_go_digits x : forall s, digitString s -> digitString (pretty_N_go x s).
Proof.
  induction (N.lt_wf_0 x) as [x _ IH]. intros s Hs.
  destruct (N.eq_dec x 0%N) as [-> | Hx]; [rewrite pretty_N_go_0; exact Hs|].
  rewrite pretty_N_go_step by lia. apply IH.
  - apply N.div_lt; lia.
  - constructor; [|exact Hs]. apply pretty_N_char_digit, N.mod_lt. lia.
Qed.

Lemma pretty_N_go_decimal x : forall s,
  (decimal (pretty_N_go x s) = x * 10 ^ N.of_nat (String.length s) + decimal s)%N.
Proof.
  induction (N.lt_wf_0 x) as [x _ IH]. intros s.
  destruct (N.eq_dec x 0%N) as [-> | Hx]; [rewrite pretty_N_go_0; lia|].
  rewrite pretty_N_go_step by lia. rewrite IH by (apply N.div_lt; lia).
  cbn [decimal String.length]. rewrite pretty_N_char_value by (apply N.mod_lt; lia).
  rewrite Nat2N.inj_succ, N.pow_succ_r'.
  pose proof (N.div_mod x 10 ltac:(lia)) as Hdm.
  set (q := (x / 10)%N) in *. set (r := (x mod 10)%N) in *.
  set (p := (10 ^ N.of_nat (String.length s))%N).
  rewrite Hdm. lia.
Qed.

Lemma pretty_N_digits (n : N) : digitString (pretty n) /\ decimal (pretty n) = n
                                /\ pretty n <> "".
Proof.
  unfold pretty, pretty_N. destruct (decide (n = 0%N)) as [-> | Hn].
  - split; [|split; [reflexivity|discriminate]].
    constructor; [vm_compute; split; discriminate|constructor].
  - split; [apply pretty_N_go_digits; constructor|].
    split; [rewrite pretty_N_go_decimal; cbn; lia|].
    intros E. pose proof (pretty_N_go_decimal n "") as D. rewrite E in D.
    cbn in D. lia.
Qed.

Lemma pretty_Z_nonneg (n : Z) : 0 <= n -> pretty n = pretty (Z.to_N n).
Proof. destruct n as [|p|p]; [reflexivity|reflexivity|lia]. Qed.

Lemma padZero_digits width d :
  digitString d -> d <> "" ->
  digitString (padZero width d) /\ decimal (padZero width d) = decimal d
  /\ padZero width d <> "".
Proof.
  intros Hd Hne. unfold padZero.
  induction (width - String.length d)%nat as [|k IH].
  - cbn [repeat string_of_list_ascii]. rewrite app_nil_s. auto.
  - cbn [repeat string_of_list_ascii]. rewrite app_cons_s.
    destruct IH as (I1 & I2 & I3). split; [|split; [|discriminate]].
    + constructor; [vm_compute; split; discriminate|exact I1].
    + cbn [decimal]. rewrite I2. change (N_of_ascii "0" - 48)%N with 0%N. lia.
Qed.

(** [fmt03d] writes an optional sign and then digits that denote the
    magnitude. *)
Lemma fmt03d_shape n :
  exists d, digitString d /\ d <> "" /\ decimal d = Z.to_N (Z.abs n)
            /\ fmt03d n = if n <? 0 then String "-" d else d.
Proof.
  unfold fmt03d. destruct (Z.ltb_spec n 0) as [Hn|Hn].
  - rewrite pretty_Z_nonneg by lia.
    destruct (pretty_N_digits (Z.to_N (- n))) as (D1 & D2 & D3).
    destruct (padZero_digits 2 _ D1 D3) as (P1 & P2 & P3).
    eexists. split; [exact P1|]. split; [exact P3|].
    split; [rewrite P2, D2; f_equal; lia|reflexivity].
  - rewrite pretty_Z_nonneg by lia.
    destruct (pretty_N_digits (Z.to_N n)) as (D1 & D2 & D3).
    destruct (padZero_digits 3 _ D1 D3) as (P1 & P2 & P3).
    eexists. split; [exact P1|]. split; [exact P3|].
    split; [rewrite P2, D2; f_equal; lia|reflexivity].
Qed.

Lemma digit_not_sep (a : ascii) : isDigit a -> a <> "-"%char /\ a <> "_"%char.
Proof.
  intros H. split; intros ->; unfold isDigit in H; vm_compute in H; destruct H as [H1 H2];
    first [apply H1; reflexivity|apply H2; reflexivity].
Qed.

(** Digits followed by a separator split in one way only. *)
Lemma digits_split d1 : forall d2 sep r1 r2,
  digitString d1 -> digitString d2 -> ~ isDigit sep ->
  String.app d1 (String sep r1) = String.app d2 (String sep r2) ->
  d1 = d2 /\ r1 = r2.
Proof.
  induction d1 as [|a d1 IH]; intros d2 sep r1 r2 H1 H2 Hsep E.
  - destruct d2 as [|b d2].
    + rewrite !app_nil_s in E. injection E as E. auto.
    + rewrite app_nil_s, app_cons_s in E. injection E as E1 E2. subst b.
      inversion H2; subst. contradiction.
  - inversion H1 as [|? ? Ha H1']; subst.
    destruct d2 as [|b d2].
    + rewrite app_nil_s, app_cons_s in E. injection E as E1 E2. subst a. contradiction.
    + rewrite !app_cons_s in E. injection E as E1 E2. subst b.
      inversion H2 as [|? ? Hb H2']; subst.
      destruct (IH d2 sep r1 r2 H1' H2' Hsep E2) as [-> ->]. auto.
Qed.

Lemma app_inv_tail_s (t : string) : forall s1 s2 : string,
  String.app s1 t = String.app s2 t -> s1 = s2.
Proof.
  induction s1 as [|a s1 IH]; intros s2 E.
  - destruct s2 as [|b s2]; [reflexivity|].
    apply (f_equal String.length) in E. rewrite !length_app_s in E.
    cbn [String.length] in E. lia.
  - destruct s2 as [|b s2].
    + apply (f_equal String.length) in E. rewrite !length_app_s in E.
      cbn [String.length] in E. lia.
    + rewrite !app_cons_s in E. injection E as -> E. f_equal. apply IH, E.
Qed.

Lemma fmt03d_inj n m : fmt03d n = fmt03d m -> n = m.
Proof.
  intros E.
  destruct (fmt03d_shape n) as (d1 & D1 & N1 & V1 & E1).
  destruct (fmt03d_shape m) as (d2 & D2 & N2 & V2 & E2).
  rewrite E1, E2 in E.
  destruct (Z.ltb_spec n 0), (Z.ltb_spec m 0).
  - injection E as ->. rewrite V1 in V2. lia.
  - destruct d2 as [|b d2]; [congruence|]. injection E as <- _.
    inversion D2 as [|? ? Hb _]; subst. apply digit_not_sep in Hb. tauto.
  - destruct d1 as [|b d1]; [congruence|]. injection E as -> _.
    inversion D1 as [|? ? Hb _]; subst. apply digit_not_sep in Hb. tauto.
  - subst d2. rewrite V1 in V2. lia.
Qed.

(** A name built as number, separator, text and extension determines the
    number and the text. *)
Lemma numbered_name_inj (sep : ascii) (n m : Z) (s t ext : string) :
  ~ isDigit sep ->
  String.app (fmt03d n) (String.app (String sep "") (String.app s ext))
  = String.app (fmt03d m) (String.app (String sep "") (String.app t ext)) ->
  n = m /\ s = t.
Proof.
  intros Hsep E.
  assert (K : fmt03d n = fmt03d m /\ String.app s ext = String.app t ext).
  { destruct (fmt03d_shape n) as (d1 & D1 & N1 & V1 & E1).
    destruct (fmt03d_shape m) as (d2 & D2 & N2 & V2 & E2).
    rewrite E1, E2 in E |- *. rewrite !app_cons_s, !app_nil_s in E.
    destruct (n <? 0), (m <? 0).
    - rewrite !app_cons_s in E. injection E as E.
      apply digits_split in E as [-> ->]; auto.
    - destruct d2 as [|b d2]; [congruence|].
      rewrite !app_cons_s in E. injection E as <- _.
      inversion D2 as [|? ? Hb _]; subst. apply digit_not_sep in Hb. tauto.
    - destruct d1 as [|b d1]; [congruence|].
      rewrite !app_cons_s in E. injection E as -> _.
      inversion D1 as [|? ? Hb _]; subst. apply digit_not_sep in Hb. tauto.
    - apply digits_split in E as [-> ->]; auto. }
  destruct K as [K1 K2]. split; [apply fmt03d_inj, K1|].
  eapply app_inv_tail_s, K2.
Qed.

Lemma MainGo_fname_inj (e1 e2 : MainGo.Element) :
  MainGo.fname e1 = MainGo.fname e2 ->
  MainGo.Number e1 = MainGo.Number e2 /\ MainGo.Symbol e1 = MainGo.Symbol e2.
Proof.
  unfold MainGo.fname. apply (numbered_name_inj "_").
  unfold isDigit. vm_compute. intros [H1 H2]. apply H2. reflexivity.
Qed.

Lemma Part000_filename_inj (el1 el2 : Part000.Element) :
  Part000.filename el1 = Part000.filename el2 ->
  Part000.AtomicNumber el1 = Part000.AtomicNumber el2
  /\ Part000.Name el1 = Part000.Name el2.
Proof.
  unfold Part000.filename. apply (numbered_name_inj "-").
  unfold isDigit. vm_compute. intros [H1 H2]. apply H1. reflexivity.
Qed.

(** X6.  The output file names identify their elements: two elements get
    the same name exactly when they agree in atomic number and symbol
    (main.go) or in atomic number and name (part_000), so cards of
    elements with different numbers never overwrite each other by name. *)
Theorem output_names_identify_elements :
  (forall e1 e2 : MainGo.Element,
     MainGo.fname e1 = MainGo.fname e2
     <-> MainGo.Number e1 = MainGo.Number e2 /\ MainGo.Symbol e1 = MainGo.Symbol e2)
  /\ (forall el1 el2 : Part000.Element,
        Part000.filename el1 = Part000.filename el2
        <-> Part000.AtomicNumber el1 = Part000.AtomicNumber el2
            /\ Part000.Name el1 = Part000.Name el2).
Proof.
  split.
  - intros e1 e2. split; [apply MainGo_fname_inj|].
    unfold MainGo.fname. intros [-> ->]. reflexivity.
  - intros e1 e2. split; [apply Part000_filename_inj|].
    unfold Part000.filename. intros [-> ->]. reflexivity.
Qed.

End FileNames.

(** ** The batch loops: exact outcomes *)

Section BatchOutcomes.
Import IO Colour.

Lemma paths_NoDup {E : Type} (number : E -> Z) (name : E -> string)
    (join : string -> string) (elements : list E) :
  (forall a b, In a (map name elements) -> In b (map name elements) ->
               join a = join b -> a = b) ->
  (forall e1 e2, name e1 = name e2 -> number e1 = number e2) ->
  NoDup (map number elements) -> NoDup (map (fun e => join (name e)) elements).
Proof.
  intros Hjoin Hname. induction elements as [|e es IH]; intros Hnd.
  - constructor.
  - cbn [map] in *. apply NoDup_cons in Hnd as [Hnotin Hnd].
    apply NoDup_cons. split.
    + intros Hin. apply Hnotin.
      apply list_elem_of_In, in_map_iff in Hin as (e' & E1 & Hin).
      apply Hjoin in E1.
      * apply Hname in E1. rewrite <- E1. apply list_elem_of_In, in_map, Hin.
      * right. apply in_map, Hin.
      * left. reflexivity.
    + apply IH; [|exact Hnd]. intros a b Ha Hb. apply Hjoin; right; assumption.
Qed.

(** *** main.go *)

Lemma MainGo_save_lookup env p img (files : gmap string (file MainGo.Tile)) :
  MainGo.save env p img files !! p = afterSave env p img (files !! p).
Proof.
  unfold MainGo.save, afterSave.
  destruct (createOK env p); [|reflexivity].
  destruct (encodeOK env p); apply lookup_insert_eq.
Qed.

Lemma MainGo_loop_other env colours fonts outdir height elements :
  forall (w : World MainGo.Tile) q,
    ~ In q (map (MainGo.path env outdir) elements) ->
    fs (effects env colours fonts outdir height elements w) !! q = fs w !! q.
Proof.
  induction elements as [|e es IH]; intros w q Hq; [reflexivity|].
  change (effects env colours fonts outdir height (e :: es) w)
    with (effects env colours fonts outdir height es
            (MainGo.iteration env colours fonts outdir height w e)).
  rewrite IH by (intros Hin; apply Hq; right; exact Hin).
  unfold MainGo.iteration. cbn [fs]. apply MainGo_save_other.
  intros ->. apply Hq. left. reflexivity.
Qed.

Lemma MainGo_loop_stdout env colours fonts outdir height elements :
  forall w : World MainGo.Tile,
    stdout (effects env colours fonts outdir height elements w)
    = stdout w ++ writtenLines elements
    /\ logged (effects env colours fonts outdir height elements w) = logged w.
Proof.
  induction elements as [|e es IH]; intros w.
  - cbn. rewrite app_nil_r. auto.
  - change (effects env colours fonts outdir height (e :: es) w)
      with (effects env colours fonts outdir height es
              (MainGo.iteration env colours fonts outdir height w e)).
    destruct (IH (MainGo.iteration env colours fonts outdir height w e)) as [I1 I2].
    rewrite I1, I2. unfold MainGo.iteration. cbn [stdout logged writtenLines map].
    rewrite <- app_assoc. auto.
Qed.

Lemma MainGo_loop_lookup env colours fonts outdir height elements :
  forall w : World MainGo.Tile,
    NoDup (map (MainGo.path env outdir) elements) ->
    forall e, In e elements ->
      fs (effects env colours fonts outdir height elements w)
        !! MainGo.path env outdir e
      = afterSave env (MainGo.path env outdir e)
          (MainGo.draw env colours fonts (Layout.tileW height) height e)
          (fs w !! MainGo.path env outdir e).
Proof.
  induction elements as [|e0 es IH]; intros w Hnd e He; [destruct He|].
  cbn [map] in Hnd. apply NoDup_cons in Hnd as [Hnotin Hnd].
  change (effects env colours fonts outdir height (e0 :: es) w)
    with (effects env colours fonts outdir height es
            (MainGo.iteration env colours fonts outdir height w e0)).
  destruct He as [<- | He].
  - rewrite MainGo_loop_other by (intros Hin; apply Hnotin, list_elem_of_In, Hin).
    unfold MainGo.iteration. cbn [fs]. apply MainGo_save_lookup.
  - rewrite IH by assumption. f_equal.
    unfold MainGo.iteration. cbn [fs]. apply MainGo_save_other.
    intros E. apply Hnotin. rewrite <- E. apply list_elem_of_In, in_map, He.
Qed.

Lemma MainGo_paths_NoDup env outdir elements :
  namesApart env outdir (map MainGo.fname elements) ->
  NoDup (map MainGo.Number elements) ->
  NoDup (map (MainGo.path env outdir) elements).
Proof.
  intros Hj Hnd.
  apply (paths_NoDup MainGo.Number MainGo.fname (Join env outdir)); [exact Hj| |exact Hnd].
  intros e1 e2 E. apply MainGo_fname_inj in E. tauto.
Qed.

(** X7.  main.go with loaded faces, for a height from 1 to 7 million, at
    which the canvas can be allocated, and elements with pairwise
    different atomic numbers whose file names [filepath.Join] keeps
    apart: the loop runs to its end; after it the path of every element
    holds that element's card when the file could be created and
    encoded, an incomplete file when only the encoding failed, and what
    was there before when the file could not be created; no other path
    is touched, every element is reported as written whatever happened
    to its file, nothing is logged, and a second run over the result
    leaves the files as they are. *)
Theorem main_go_final_state
    (env : Env) (colours : gmap string string) (fonts : Layout.Fonts)
    (outdir : string) (height : Z) (elements : list MainGo.Element)
    (w : World MainGo.Tile) :
  1 <= height <= 7000000 ->
  namesApart env outdir (map MainGo.fname elements) ->
  NoDup (map MainGo.Number elements) ->
  exists w',
    MainGo.loop env colours fonts outdir height elements w = Ret w'
    /\ (forall e, In e elements ->
          fs w' !! MainGo.path env outdir e
          = afterSave env (MainGo.path env outdir e)
              (MainGo.draw env colours fonts (Layout.tileW height) height e)
              (fs w !! MainGo.path env outdir e))
    /\ (forall q, ~ In q (map (MainGo.path env outdir) elements) ->
        fs w' !! q = fs w !! q)
    /\ stdout w' = stdout w ++ writtenLines elements
    /\ logged w' = logged w
    /\ exists w'',
         MainGo.loop env colours fonts outdir height elements w' = Ret w''
         /\ fs w'' = fs w'.
Proof.
  intros HH Hj Hnd.
  pose proof (allocates_range height HH) as Ha.
  pose proof (MainGo_paths_NoDup env outdir elements Hj Hnd) as Hp.
  exists (effects env colours fonts outdir height elements w).
  split; [apply MainGo_loop_effects, Ha|].
  split; [intros e He; apply MainGo_loop_lookup; assumption|].
  split; [intros q Hq; apply MainGo_loop_other; exact Hq|].
  split; [apply MainGo_loop_stdout|]. split; [apply MainGo_loop_stdout|].
  eexists. split; [apply MainGo_loop_effects, Ha|].
  apply map_eq. intros q.
  destruct (in_dec string_dec q (map (MainGo.path env outdir) elements)) as [Hin|Hout].
  - apply in_map_iff in Hin as (e & <- & He).
    rewrite !MainGo_loop_lookup by assumption.
    unfold afterSave. destruct (createOK env (MainGo.path env outdir e)); reflexivity.
  - rewrite MainGo_loop_other by exact Hout. reflexivity.
Qed.

Lemma demoEnv_namesApart dir names : namesApart demoEnv dir names.
Proof.
  intros a b _ _ E. cbn [Join demoEnv] in E.
  apply String.app_inj in E. apply (String.app_inj "/") in E. exact E.
Qed.

Lemma main_go_final_state_witness :
  let helium :=
    {| MainGo.Number := 2; MainGo.Symbol := "He"; MainGo.Name := "Helium";
       MainGo.Mass := F64.of_int 4; MainGo.Type_ := "nonmetal" |} in
  exists w',
    MainGo.loop demoEnv demoColours plainFonts "elements" 600 demoElements emptyWorld
    = Ret w'
    /\ fs w' !! MainGo.path demoEnv "elements" helium = None
    /\ stdout w' = ["Written: 001_H.png"; "Written: 002_He.png"; "Written: 006_C.png"].
Proof.
  intros helium.
  assert (Hnd : NoDup (map MainGo.Number demoElements)).
  { apply NoDup_ListNoDup. repeat constructor; cbn; intros H;
      repeat (destruct H as [H|H]; [discriminate H|]); destruct H. }
  destruct (main_go_final_state demoEnv demoColours plainFonts "elements" 600
              demoElements emptyWorld ltac:(lia)
              (demoEnv_namesApart "elements" _) Hnd)
    as (w' & E & H1 & _ & H3 & _).
  exists w'. split; [exact E|]. split.
  - rewrite (H1 helium); [reflexivity|]. cbn. tauto.
  - rewrite H3. reflexivity.
Defined.

(** *** part_000 *)

Lemma bgColor_Panic (colorMap : gmap string string) category :
  bgColor colorMap category = Panic <-> selectHex colorMap category = "".
Proof.
  split; [|apply bgColor_empty].
  intros H. destruct (selectHex colorMap category) as [|a t] eqn:E; [reflexivity|].
  destruct (parseHexColor_returns (String a t)) as (c0 & err & R); [discriminate|].
  unfold bgColor in H. rewrite E, R in H. destruct err; discriminate.
Qed.

Lemma Part000_step_Panic env colorMap (w : World Part000.Card) el :
  Part000.step env colorMap w el = Panic <-> noColour colorMap el.
Proof.
  unfold noColour. rewrite <- bgColor_Panic. unfold Part000.step.
  destruct (bgColor colorMap (Part000.Category el)) as [[c warn]|].
  - split; [|discriminate].
    destruct (negb (createOK env (Part000.path env el))); [discriminate|].
    destruct (negb (encodeOK env (Part000.path env el))); discriminate.
  - split; reflexivity.
Qed.

Lemma Part000_loop_Panic env colorMap elements :
  forall w : World Part000.Card,
    Part000.loop env colorMap elements w = Panic <-> Exists (noColour colorMap) elements.
Proof.
  induction elements as [|el els IH]; intros w.
  - cbn. split; [discriminate|]. intros H. inversion H.
  - cbn [Part000.loop].
    destruct (Part000.step env colorMap w el) as [w1|] eqn:E.
    + rewrite IH. split; [intros H; apply Exists_cons; right; exact H|].
      intros H. apply Exists_cons in H as [H|H]; [|exact H].
      apply (Part000_step_Panic env colorMap w el) in H. congruence.
    + split; [|reflexivity]. intros _. apply Exists_cons. left.
      apply (Part000_step_Panic env colorMap w el), E.
Qed.

(** X8.  part_000 ends in a run-time panic exactly when the colour table
    gives some element no hex string at all: the entry it would use, that
    of the category or else that of ["unknown"], is missing or empty. *)
Theorem part000_panics_iff_no_colour
    (env : Env) (colorMap : gmap string string) (elements : list Part000.Element)
    (w : World Part000.Card) :
  (Part000.run env colorMap elements w = Panic <-> Exists (noColour colorMap) elements)
  /\ (forall el,
        noColour colorMap el
        <-> match colorMap !! Part000.Category el with
            | Some hexStr => hexStr = ""
            | None => colorMap !! "unknown" = None \/ colorMap !! "unknown" = Some ""
            end).
Proof.
  split.
  - unfold Part000.run. cbv zeta.
    match goal with
    | |- context [Part000.loop env colorMap elements ?w0] =>
        rewrite <- (Part000_loop_Panic env colorMap elements w0);
        destruct (Part000.loop env colorMap elements w0)
    end; split; try discriminate; reflexivity.
  - intros el. unfold noColour, selectHex.
    destruct (colorMap !! Part000.Category el) as [h|]; [reflexivity|].
    destruct (colorMap !! "unknown") as [h|]; cbn [default from_option id].
    + split; [intros ->; right; reflexivity|]. intros [H|H]; congruence.
    + split; [left; reflexivity|reflexivity].
Qed.

Lemma Part000_step_general env colorMap (w : World Part000.Card) el :
  ~ noColour colorMap el ->
  exists c warn w',
    bgColor colorMap (Part000.Category el) = Ret (c, warn)
    /\ Part000.step env colorMap w el = Ret w'
    /\ logged w'
       = logged w ++ colourLines colorMap el ++ Part000.textErrors env el
         ++ failureLines env el
    /\ stdout w' = stdout w ++ createdLines env [el]
    /\ fs w' !! Part000.path env el
       = afterSave env (Part000.path env el) (cardOn c el) (fs w !! Part000.path env el)
    /\ (forall q, q <> Part000.path env el -> fs w' !! q = fs w !! q).
Proof.
  intros Hc. unfold noColour in Hc. rewrite <- bgColor_Panic in Hc.
  unfold Part000.step, colourLines, failureLines, createdLines, afterSave.
  cbn [List.filter].
  destruct (bgColor colorMap (Part000.Category el)) as [[c warn]|]; [|congruence].
  exists c, warn.
  destruct (createOK env (Part000.path env el)); cbn [negb map].
  - destruct (encodeOK env (Part000.path env el)); cbn [negb].
    + eexists. split; [reflexivity|]. split; [reflexivity|]. cbn [fs logged stdout].
      split; [destruct warn; rewrite ?app_nil_r, <- ?app_assoc; reflexivity|].
      split; [reflexivity|]. split; [apply lookup_insert_eq|].
      intros q Hq. apply lookup_insert_ne. congruence.
    + eexists. split; [reflexivity|]. split; [reflexivity|]. cbn [fs logged stdout].
      split; [destruct warn; rewrite <- ?app_assoc; reflexivity|].
      split; [reflexivity|]. split; [apply lookup_insert_eq|].
      intros q Hq. apply lookup_insert_ne. congruence.
  - eexists. split; [reflexivity|]. split; [reflexivity|]. cbn [fs logged stdout].
    split; [destruct warn; rewrite <- ?app_assoc; reflexivity|].
    split; [rewrite app_nil_r; reflexivity|]. split; reflexivity.
Qed.

Lemma createdLines_cons env el els :
  createdLines env (el :: els) = createdLines env [el] ++ createdLines env els.
Proof.
  unfold createdLines. cbn [List.filter].
  destruct (createOK env (Part000.path env el)); reflexivity.
Qed.

Lemma Part000_loop_report env colorMap elements :
  forall w : World Part000.Card,
    Forall (fun el => ~ noColour colorMap el) elements ->
    exists w',
      Part000.loop env colorMap elements w = Ret w'
      /\ logged w'
         = logged w
           ++ flat_map (fun el => colourLines colorMap el ++ Part000.textErrors env el
                                  ++ failureLines env el) elements
      /\ stdout w' = stdout w ++ createdLines env elements
      /\ (forall q, ~ In q (map (Part000.path env) elements) -> fs w' !! q = fs w !! q)
      /\ (NoDup (map (Part000.path env) elements) ->
          forall el, In el elements ->
            exists c warn,
              bgColor colorMap (Part000.Category el) = Ret (c, warn)
              /\ fs w' !! Part000.path env el
                 = afterSave env (Part000.path env el) (cardOn c el)
                     (fs w !! Part000.path env el)).
Proof.
  induction elements as [|el els IH]; intros w Hc.
  - exists w. cbn. rewrite !app_nil_r. repeat split; try reflexivity.
    intros _ el [].
  - inversion Hc as [|? ? Hel Hels]; subst.
    destruct (Part000_step_general env colorMap w el Hel)
      as (c & warn & w1 & B & E1 & L1 & S1 & F1 & O1).
    destruct (IH w1 Hels) as (w' & E' & L' & S' & O' & F').
    exists w'. cbn [Part000.loop]. rewrite E1. split; [exact E'|].
    split; [rewrite L', L1; cbn [flat_map]; rewrite <- !app_assoc; reflexivity|].
    split; [rewrite S', S1, (createdLines_cons env el els), <- app_assoc; reflexivity|].
    split.
    + intros q Hq. rewrite O' by (intros Hin; apply Hq; right; exact Hin).
      apply O1. intros ->. apply Hq. left. reflexivity.
    + intros Hnd el' Hin. cbn [map] in Hnd. apply NoDup_cons in Hnd as [Hnotin Hnd].
      destruct Hin as [<- | Hin].
      * exists c, warn. split; [exact B|].
        rewrite O' by (intros Hin; apply Hnotin, list_elem_of_In, Hin). exact F1.
      * destruct (F' Hnd el' Hin) as (c' & warn' & B' & F'').
        exists c', warn'. split; [exact B'|]. rewrite F''. f_equal.
        apply O1. intros E. apply Hnotin. rewrite <- E.
        apply list_elem_of_In, in_map, Hin.
Qed.

Lemma colourLines_spec colorMap el :
  (wellFormed7 (selectHex colorMap (Part000.Category el)) -> colourLines colorMap el = [])
  /\ (~ noColour colorMap el ->
      ~ wellFormed7 (selectHex colorMap (Part000.Category el)) ->
      colourLines colorMap el
      = [ColourWarning (selectHex colorMap (Part000.Category el)) (Part000.Name el)]).
Proof.
  unfold colourLines, noColour. split.
  - intros (a & b & c & d & e & f & Ha & Hb & Hc & Hd & He & Hf & E).
    rewrite (bgColor_well_formed colorMap _ a b c d e f) by assumption. reflexivity.
  - intros Hne Hbad. rewrite bgColor_malformed by assumption. reflexivity.
Qed.

(** X9.  part_000, when every element has some hex string: the run
    returns; its log holds, element by element, the colour warning (if the
    string did not parse), the errors of drawing the symbol, the name and
    the mass (if any glyph could not be loaded), then the failure line of
    the save (if any); standard output holds the announcement, a
    ["Created"] line for every element whose file could be created, also
    when the encoding failed, an empty line and the closing line, which
    counts all elements, not the cards saved.  The colour warning is
    logged exactly for a hex string that is not ['#'] and six hexadecimal
    digits, and it quotes that string. *)
Theorem part000_run_report
    (env : Env) (colorMap : gmap string string) (elements : list Part000.Element)
    (w : World Part000.Card) :
  Forall (fun el => ~ noColour colorMap el) elements ->
  (exists w',
     Part000.run env colorMap elements w = Ret w'
     /\ logged w'
        = logged w
          ++ flat_map (fun el => colourLines colorMap el ++ Part000.textErrors env el
                                 ++ failureLines env el) elements
     /\ stdout w'
        = stdout w ++ [generatingLine (length elements)] ++ createdLines env elements
          ++ [EmptyString; doneLine (length elements)])
  /\ (forall el, In el elements ->
        (wellFormed7 (selectHex colorMap (Part000.Category el)) ->
         colourLines colorMap el = [])
        /\ (~ wellFormed7 (selectHex colorMap (Part000.Category el)) ->
            colourLines colorMap el
            = [ColourWarning (selectHex colorMap (Part000.Category el))
                 (Part000.Name el)])).
Proof.
  intros Hc. split.
  - unfold Part000.run. cbv zeta.
    match goal with
    | |- context [Part000.loop env colorMap elements ?w0] =>
        destruct (Part000_loop_report env colorMap elements w0 Hc)
          as (w' & E & L & S & _)
    end.
    rewrite E. eexists. split; [reflexivity|].
    cbn [logged stdout] in *. split; [exact L|].
    rewrite S, <- !app_assoc. reflexivity.
  - intros el Hel. rewrite Forall_forall in Hc.
    specialize (Hc el (proj2 (list_elem_of_In _ _) Hel)).
    destruct (colourLines_spec colorMap el) as [H1 H2]. split; [exact H1|].
    intros Hbad. apply H2; assumption.
Qed.

Lemma part000_run_report_witness :
  exists w',
    Part000.run glyphlessEnv {[ "nonmetal" := "#12" ]} demoElements000 emptyWorld = Ret w'
    /\ logged w'
       = [ColourWarning "#12" "Hydrogen";
          ColourWarning "#12" "Helium"; DrawFailed "no glyph"; CreateFailed "Helium";
          ColourWarning "#12" "Carbon"]
    /\ stdout w'
       = ["Generating 3 element images in 'elements/' folder...";
          "Created elements/001-Hydrogen.png"; "Created elements/006-Carbon.png";
          EmptyString; "Done! All 3 element images have been saved."].
Proof.
  destruct (part000_run_report glyphlessEnv {[ "nonmetal" := "#12" ]} demoElements000
              emptyWorld) as ((w' & E & L & S) & _).
  - repeat constructor; unfold noColour; vm_compute; discriminate.
  - exists w'. split; [exact E|]. rewrite L, S. split; vm_compute; reflexivity.
Defined.

Lemma Part000_paths_NoDup env elements :
  namesApart env Part000.outputDir (map Part000.filename elements) ->
  NoDup (map Part000.AtomicNumber elements) ->
  NoDup (map (Part000.path env) elements).
Proof.
  intros Hj Hnd.
  apply (paths_NoDup Part000.AtomicNumber Part000.filename (Join env Part000.outputDir));
    [exact Hj| |exact Hnd].
  intros e1 e2 E. apply Part000_filename_inj in E. tauto.
Qed.

(** X10.  part_000, given elements with pairwise different atomic numbers
    that all have some hex string and whose file names [filepath.Join]
    keeps apart: after the run the path of every element holds the card
    of that element on the background the colour selection returned when
    the file could be created and encoded, an incomplete file when only
    the encoding failed, and what was there before otherwise; no other
    path is touched. *)
Theorem part000_final_state
    (env : Env) (colorMap : gmap string string) (elements : list Part000.Element)
    (w : World Part000.Card) :
  namesApart env Part000.outputDir (map Part000.filename elements) ->
  NoDup (map Part000.AtomicNumber elements) ->
  Forall (fun el => ~ noColour colorMap el) elements ->
  exists w',
    Part000.run env colorMap elements w = Ret w'
    /\ (forall el, In el elements ->
          exists c warn,
            bgColor colorMap (Part000.Category el) = Ret (c, warn)
            /\ fs w' !! Part000.path env el
               = afterSave env (Part000.path env el) (cardOn c el)
                   (fs w !! Part000.path env el))
    /\ (forall q, ~ In q (map (Part000.path env) elements) -> fs w' !! q = fs w !! q).
Proof.
  intros Hj Hnd Hc. unfold Part000.run. cbv zeta.
  match goal with
  | |- context [Part000.loop env colorMap elements ?w0] =>
      destruct (Part000_loop_report env colorMap elements w0 Hc)
        as (w' & E & _ & _ & O & F)
  end.
  rewrite E. eexists. split; [reflexivity|]. cbn [fs] in *.
  split; [apply F, Part000_paths_NoDup; assumption|exact O].
Qed.

Lemma part000_final_state_witness :
  exists w',
    Part000.run demoEnv demoColours demoElements000 emptyWorld = Ret w'
    /\ (forall el, In el demoElements000 ->
          exists c warn,
            bgColor demoColours (Part000.Category el) = Ret (c, warn)
            /\ fs w' !! Part000.path demoEnv el
               = afterSave demoEnv (Part000.path demoEnv el) (cardOn c el)
                   (fs emptyWorld !! Part000.path demoEnv el))
    /\ (forall q, ~ In q (map (Part000.path demoEnv) demoElements000) ->
        fs w' !! q = fs emptyWorld !! q).
Proof.
  apply (part000_final_state demoEnv demoColours demoElements000 emptyWorld).
  - apply demoEnv_namesApart.
  - apply NoDup_ListNoDup. repeat constructor; cbn; intros H;
      repeat (destruct H as [H|H]; [discriminate H|]); destruct H.
  - repeat constructor; unfold noColour; vm_compute; discriminate.
Defined.

End BatchOutcomes.

(** ** Spellings of a category *)

Section SpellingFacts.
Import Utf8 Normaliser.

Context (lower : rune -> rune) (laws : CaseTableLaws lower).

Lemma clean_spaced x : clean lower x = Join (Fields (map (spaced lower) x)) [32].
Proof.
  unfold clean, ReplaceAll, ToLower. rewrite !map_map. reflexivity.
Qed.

Lemma normalise_via_clean x y :
  clean lower x = clean lower y -> normaliseCategory lower x = normaliseCategory lower y.
Proof. intros E. unfold normaliseCategory. rewrite E. reflexivity. Qed.

Lemma lower_separator r : separator r -> lower r = r.
Proof.
  intros H. rewrite (lower_ascii lower laws) by (unfold separator in H; lia).
  unfold asciiToLower, between. unfold separator in H.
  destruct (Z.leb_spec 65 r); [|reflexivity].
  destruct (Z.leb_spec r 90); [lia|reflexivity].
Qed.

Lemma spaced_separator r : separator r -> IsSpace (spaced lower r) = true.
Proof.
  intros H. unfold spaced. rewrite (lower_separator r H).
  destruct (Z.eqb_spec r 45) as [->|N45]; [reflexivity|].
  destruct (Z.eqb_spec r 95) as [->|N95]; [reflexivity|].
  assert (Hr : r = 32 \/ 9 <= r <= 13) by (unfold separator in H; lia).
  destruct Hr as [->|Hr]; [reflexivity|].
  unfold IsSpace, between.
  destruct (Z.leb_spec 9 r); [|lia]. destruct (Z.leb_spec r 13); [|lia]. reflexivity.
Qed.

Lemma spaced_lower r : spaced lower (lower r) = spaced lower r.
Proof. unfold spaced. rewrite (lower_idem lower laws). reflexivity. Qed.

Lemma Fields_spaces_l pre s :
  Forall (fun r => IsSpace r = true) pre -> Fields (pre ++ s) = Fields s.
Proof.
  induction 1 as [|r pre Hr _ IH]; [reflexivity|].
  cbn [app Fields]. rewrite Hr. exact IH.
Qed.

Lemma Fields_spaces post : Forall (fun r => IsSpace r = true) post -> Fields post = [].
Proof. intros H. rewrite <- (app_nil_r post). apply Fields_spaces_l, H. Qed.

Lemma Fields_cons r s :
  Fields (r :: s)
  = if IsSpace r then Fields s
    else match s with
         | [] => [[r]]
         | r' :: _ =>
             if IsSpace r' then [r] :: Fields s
             else match Fields s with
                  | [] => [[r]]
                  | w :: ws => (r :: w) :: ws
                  end
         end.
Proof. reflexivity. Qed.

Lemma Fields_spaces_r s post :
  Forall (fun r => IsSpace r = true) post -> Fields (s ++ post) = Fields s.
Proof.
  intros Hp. induction s as [|r s IH].
  - cbn [app]. apply Fields_spaces, Hp.
  - cbn [app]. rewrite !Fields_cons. destruct (IsSpace r); [exact IH|].
    destruct s as [|r' s'].
    + cbn [app]. destruct Hp as [|p post Hp1 Hp2]; [reflexivity|].
      rewrite Hp1. rewrite Fields_spaces by (constructor; assumption). reflexivity.
    + cbn [app] in IH |- *. rewrite IH. reflexivity.
Qed.

(** Two non-empty runs of white space at the same place give the same
    fields. *)
Lemma Fields_space_runs a s1 s2 b :
  s1 <> [] -> s2 <> [] ->
  Forall (fun r => IsSpace r = true) s1 -> Forall (fun r => IsSpace r = true) s2 ->
  Fields (a ++ s1 ++ b) = Fields (a ++ s2 ++ b).
Proof.
  intros N1 N2 H1 H2. induction a as [|r a IH].
  - cbn [app]. rewrite !Fields_spaces_l by assumption. reflexivity.
  - cbn [app]. rewrite !Fields_cons. destruct (IsSpace r); [exact IH|].
    destruct a as [|r' a'].
    + cbn [app] in IH |- *.
      destruct H1 as [|x1 s1 Hx1 H1]; [congruence|].
      destruct H2 as [|x2 s2 Hx2 H2]; [congruence|].
      cbn [app] in IH |- *. rewrite Hx1, Hx2, IH. reflexivity.
    + cbn [app] in IH |- *. rewrite IH. reflexivity.
Qed.

Lemma separators_spaced l :
  Forall separator l -> Forall (fun r => IsSpace r = true) (map (spaced lower) l).
Proof.
  intros H. apply Forall_map. eapply Forall_impl; [exact H|].
  intros r Hr. apply spaced_separator, Hr.
Qed.

(** X11.  [normaliseCategory] does not depend on the spelling of a
    category: the case of its letters is ignored, separators (hyphens,
    underscores, ASCII white space) before and after it are dropped, any
    separator is as good as another, and a run of separators counts as
    one. *)
Theorem normalise_ignores_spelling (c pre post a b : text) (x y : rune) :
  Forall separator pre -> Forall separator post -> separator x -> separator y ->
  normaliseCategory lower (ToLower lower c) = normaliseCategory lower c
  /\ normaliseCategory lower (pre ++ c ++ post) = normaliseCategory lower c
  /\ normaliseCategory lower (a ++ x :: b) = normaliseCategory lower (a ++ y :: b)
  /\ normaliseCategory lower (a ++ x :: y :: b) = normaliseCategory lower (a ++ x :: b).
Proof.
  intros Hpre Hpost Hx Hy.
  split; [|split; [|split]]; apply normalise_via_clean; rewrite !clean_spaced; f_equal.
  - unfold ToLower. rewrite map_map. f_equal.
    apply map_ext. intros r. apply spaced_lower.
  - rewrite !map_app.
    rewrite Fields_spaces_l by (apply separators_spaced, Hpre).
    apply Fields_spaces_r, separators_spaced, Hpost.
  - rewrite !map_app. cbn [map].
    apply (Fields_space_runs _ [spaced lower x] [spaced lower y]); try discriminate;
      repeat constructor; apply spaced_separator; assumption.
  - rewrite !map_app. cbn [map].
    apply (Fields_space_runs _ [spaced lower x; spaced lower y] [spaced lower x]);
      try discriminate; repeat constructor; apply spaced_separator; assumption.
Qed.

Lemma alias_replaced k :
  In k aliases -> normaliseCategory lower (runes k) <> runes k.
Proof.
  intros H. unfold aliases in H. cbn [In] in H.
  repeat (destruct H as [<-|H];
          [rewrite normalise_ascii by (try exact laws; apply asciiText_check;
                                       vm_compute; reflexivity);
           vm_compute; discriminate|]).
  destruct H.
Qed.

Lemma canon_not_alias k k' : In k canon -> In k' aliases -> runes k <> runes k'.
Proof.
  intros H H'. unfold canon in H. unfold aliases in H'. cbn [In] in H, H'.
  repeat (destruct H as [<-|H];
          [repeat (destruct H' as [<-|H']; [vm_compute; discriminate|]); destruct H'|]).
  destruct H.
Qed.

Lemma normalise_not_alias (c : text) (k : string) :
  In k aliases -> normaliseCategory lower c <> runes k.
Proof.
  intros Hk E.
  destruct (normalise_cases lower laws c) as [[E1 E2]|(k' & Hk' & E' & _)].
  - rewrite E1 in E. rewrite E in E2. exact (alias_replaced k Hk E2).
  - rewrite E' in E. exact (canon_not_alias k' k Hk' Hk E).
Qed.

(** X12.  [normaliseCategory] never returns one of the spellings its
    [switch] replaces: a plural, an ["-oid"] form, a ["diatomic"] or
    ["polyatomic"] non-metal or an unhyphenated post-transition metal is
    no key the colour table is ever asked for. *)
Theorem normalise_never_returns_alias (c : text) (k : string) :
  In k aliases -> normaliseCategory lower c <> runes k.
Proof. apply normalise_not_alias. Qed.

End SpellingFacts.

Section SpellingWitnesses.
Import Utf8 Normaliser.

Lemma normalise_ignores_spelling_witness :
  normaliseCategory asciiToLower (runes "  Noble_Gases ")
  = normaliseCategory asciiToLower (runes "Noble_Gases")
  /\ normaliseCategory asciiToLower (runes "noble-gases")
     = normaliseCategory asciiToLower (runes "noble gases").
Proof.
  assert (S32 : separator 32) by (unfold separator; lia).
  assert (S45 : separator 45) by (unfold separator; lia).
  assert (Hpre : Forall separator [32; 32]) by (repeat constructor; exact S32).
  assert (Hpost : Forall separator [32]) by (repeat constructor; exact S32).
  destruct (normalise_ignores_spelling asciiToLower asciiToLower_laws
              (runes "Noble_Gases") [32; 32] [32] (runes "noble") (runes "gases") 45 32
              Hpre Hpost S45 S32)
    as (_ & H2 & H3 & _).
  split; [exact H2|exact H3].
Defined.

Lemma normalise_never_returns_alias_witness :
  normaliseCategory asciiToLower (runes "Lanthanoids") <> runes "lanthanoids".
Proof.
  apply (normalise_never_returns_alias asciiToLower asciiToLower_laws).
  unfold aliases. cbn [In]. tauto.
Defined.

End SpellingWitnesses.

(** ** The canvases *)

Section RasterFacts.
Import Colour Raster.

Lemma byte_high v : 0 <= v <= 255 -> Z.shiftr (Z.lor v (Z.shiftl v 8)) 8 mod 256 = v.
Proof.
  intros H. rewrite Z.shiftr_lor, Z.shiftr_shiftl_l by lia.
  change (8 - 8) with 0. rewrite Z.shiftl_0_r.
  rewrite (Z.shiftr_div_pow2 v 8) by lia.
  rewrite (Z.div_small v (2 ^ 8)) by lia.
  rewrite Z.lor_0_l. apply Z.mod_small. lia.
Qed.

Lemma pixel_of_opaque c :
  opaqueBytes c ->
  let '(sr, sg, sb, sa) := RGBA16 c in
  mkRGBA (Z.shiftr sr 8 mod 256) (Z.shiftr sg 8 mod 256)
    (Z.shiftr sb 8 mod 256) (Z.shiftr sa 8 mod 256) = c.
Proof.
  intros (Hr & Hg & Hb & Ha). destruct c as [r g b a]. cbn in *. subst a.
  rewrite !byte_high by lia. reflexivity.
Qed.

Lemma inside_Empty x y r : Empty r = true -> inside x y r = false.
Proof.
  unfold Empty, inside. intros H.
  destruct (Z.leb_spec (x1 r) (x0 r)), (Z.leb_spec (y1 r) (y0 r)); try discriminate;
    destruct (Z.leb_spec (x0 r) x), (Z.ltb_spec x (x1 r)), (Z.leb_spec (y0 r) y),
      (Z.ltb_spec y (y1 r)); try reflexivity; lia.
Qed.

Lemma inside_Intersect x y r s :
  inside x y (Intersect r s) = inside x y r && inside x y s.
Proof.
  unfold Intersect.
  set (t := mkRect _ _ _ _).
  assert (Ht : inside x y t = inside x y r && inside x y s).
  { unfold t, inside. cbn [x0 y0 x1 y1].
    destruct (Z.ltb_spec (x0 r) (x0 s)), (Z.ltb_spec (y0 r) (y0 s)),
      (Z.ltb_spec (x1 s) (x1 r)), (Z.ltb_spec (y1 s) (y1 r));
      destruct (Z.leb_spec (x0 r) x), (Z.ltb_spec x (x1 r)), (Z.leb_spec (y0 r) y),
        (Z.ltb_spec y (y1 r)), (Z.leb_spec (x0 s) x), (Z.ltb_spec x (x1 s)),
        (Z.leb_spec (y0 s) y), (Z.ltb_spec y (y1 s));
      cbn [andb]; try reflexivity; lia. }
  destruct (Empty t) eqn:E; [|exact Ht].
  rewrite <- Ht, (inside_Empty x y t E). apply inside_Empty. reflexivity.
Qed.

Lemma inside_uniform x y r :
  - 2 ^ 62 <= x0 r <= 2 ^ 62 -> - 2 ^ 62 <= y0 r <= 2 ^ 62 ->
  x1 r - x0 r <= 1000000000 -> y1 r - y0 r <= 1000000000 ->
  inside x y r = true ->
  inside x y (Add uniformBounds (GoInt.sub (x0 r) 0) (GoInt.sub (y0 r) 0)) = true.
Proof.
  intros Hx0 Hy0 Hx1 Hy1. unfold GoInt.sub, Add, uniformBounds, GoInt.add.
  cbn [x0 y0 x1 y1]. rewrite !Z.sub_0_r.
  rewrite !(wrap_inRange (x0 r)), !(wrap_inRange (y0 r))
    by (unfold GoInt.inRange, GoInt.minInt, GoInt.maxInt; lia).
  rewrite !wrap_inRange by (unfold GoInt.inRange, GoInt.minInt, GoInt.maxInt; lia).
  unfold inside. cbn [x0 y0 x1 y1]. intros H.
  destruct (Z.leb_spec (x0 r) x), (Z.ltb_spec x (x1 r)), (Z.leb_spec (y0 r) y),
    (Z.ltb_spec y (y1 r)); try discriminate.
  destruct (Z.leb_spec (-1000000000 + x0 r) x), (Z.ltb_spec x (1000000000 + x0 r)),
    (Z.leb_spec (-1000000000 + y0 r) y), (Z.ltb_spec y (1000000000 + y0 r));
    try reflexivity; lia.
Qed.

(** A draw of an opaque colour fills exactly the part of its rectangle
    inside the image, for a rectangle no larger than the source. *)
Lemma DrawUniform_At dst r c x y :
  opaqueBytes c ->
  - 2 ^ 62 <= x0 r <= 2 ^ 62 -> - 2 ^ 62 <= y0 r <= 2 ^ 62 ->
  x1 r - x0 r <= 1000000000 -> y1 r - y0 r <= 1000000000 ->
  Bounds (DrawUniform dst r (RGBA16 c)) = Bounds dst
  /\ At (DrawUniform dst r (RGBA16 c)) x y
     = if inside x y r && inside x y (Bounds dst) then c else At dst x y.
Proof.
  intros Hc Hx0 Hy0 Hx1 Hy1. unfold DrawUniform.
  pose proof (pixel_of_opaque c Hc) as Hpx.
  destruct (RGBA16 c) as [[[sr sg] sb] sa]. rewrite Hpx. clear Hpx.
  set (r' := Intersect (Intersect r (Bounds dst)) _).
  assert (Hin : inside x y r' = inside x y r && inside x y (Bounds dst)).
  { unfold r'. rewrite !inside_Intersect.
    destruct (inside x y r) eqn:E; [|reflexivity].
    rewrite (inside_uniform x y r) by assumption.
    cbn [andb]. apply andb_true_r. }
  destruct (Empty r') eqn:E.
  - split; [reflexivity|]. rewrite <- Hin, (inside_Empty x y r' E). reflexivity.
  - cbn [Bounds At]. split; [reflexivity|]. rewrite Hin. reflexivity.
Qed.

Lemma white_opaque : opaqueBytes white.
Proof. unfold opaqueBytes, white. cbn. lia. Qed.

Lemma border_opaqueBytes (colours : gmap string string) ty :
  opaqueBytes (Colour.border colours ty).
Proof.
  unfold Colour.border. destruct (colours !! ty); [apply hexToRGBA_opaqueBytes|].
  unfold opaqueBytes. cbn. lia.
Qed.

Lemma tile_pixels W H c :
  opaqueBytes c ->
  1 <= W <= 1000000000 -> 1 <= H <= 1000000000 -> 4 * W * H <= 2 ^ 48 ->
  exists img,
    tile W H c = Ret img
    /\ Bounds img = mkRect 0 0 W H
    /\ forall x y, 0 <= x < W -> 0 <= y < H ->
        At img x y
        = if (x <? Z.quot H 15) || (W - Z.quot H 15 <=? x)
             || (y <? Z.quot H 15) || (H - Z.quot H 15 <=? y)
          then c else white.
Proof.
  intros Hc HW HH HB. unfold tile.
  assert (RH : GoInt.inRange H) by (unfold GoInt.inRange, GoInt.minInt, GoInt.maxInt; lia).
  rewrite (bt_exact H RH).
  pose proof (Z.quot_pos H 15 ltac:(lia) ltac:(lia)) as Hb0.
  pose proof (quot_half H 15 ltac:(lia) ltac:(lia)) as Hb1.
  set (b := Z.quot H 15) in *.
  unfold GoInt.sub.
  rewrite !wrap_inRange by (unfold GoInt.inRange, GoInt.minInt, GoInt.maxInt; lia).
  rewrite !Rect_ordered by lia. rewrite NewRGBA_ok by lia.
  cbv beta iota zeta. cbn [Bounds]. change White16 with (RGBA16 white).
  eexists. split; [reflexivity|].
  set (i0 := {| Bounds := mkRect 0 0 W H; At := fun _ _ => mkRGBA 0 0 0 0 |}).
  set (i1 := DrawUniform i0 (mkRect 0 0 W H) (RGBA16 white)).
  set (i2 := DrawUniform i1 (mkRect 0 0 W b) (RGBA16 c)).
  set (i3 := DrawUniform i2 (mkRect 0 (H - b) W H) (RGBA16 c)).
  set (i4 := DrawUniform i3 (mkRect 0 0 b H) (RGBA16 c)).
  set (i5 := DrawUniform i4 (mkRect (W - b) 0 W H) (RGBA16 c)).
  assert (B1 : Bounds i1 = mkRect 0 0 W H).
  { apply (DrawUniform_At i0 (mkRect 0 0 W H) white 0 0 white_opaque);
      cbn [x0 y0 x1 y1]; lia. }
  assert (B2 : Bounds i2 = mkRect 0 0 W H).
  { rewrite <- B1. apply (DrawUniform_At i1 (mkRect 0 0 W b) c 0 0 Hc);
      cbn [x0 y0 x1 y1]; lia. }
  assert (B3 : Bounds i3 = mkRect 0 0 W H).
  { rewrite <- B2. apply (DrawUniform_At i2 (mkRect 0 (H - b) W H) c 0 0 Hc);
      cbn [x0 y0 x1 y1]; lia. }
  assert (B4 : Bounds i4 = mkRect 0 0 W H).
  { rewrite <- B3. apply (DrawUniform_At i3 (mkRect 0 0 b H) c 0 0 Hc);
      cbn [x0 y0 x1 y1]; lia. }
  assert (B5 : Bounds i5 = mkRect 0 0 W H).
  { rewrite <- B4. apply (DrawUniform_At i4 (mkRect (W - b) 0 W H) c 0 0 Hc);
      cbn [x0 y0 x1 y1]; lia. }
  split; [exact B5|]. intros x y Hx Hy.
  unfold i5.
  destruct (DrawUniform_At i4 (mkRect (W - b) 0 W H) c x y Hc) as [_ ->];
    [cbn [x0 y0 x1 y1]; lia..|].
  rewrite B4. unfold i4.
  destruct (DrawUniform_At i3 (mkRect 0 0 b H) c x y Hc) as [_ ->];
    [cbn [x0 y0 x1 y1]; lia..|].
  rewrite B3. unfold i3.
  destruct (DrawUniform_At i2 (mkRect 0 (H - b) W H) c x y Hc) as [_ ->];
    [cbn [x0 y0 x1 y1]; lia..|].
  rewrite B2. unfold i2.
  destruct (DrawUniform_At i1 (mkRect 0 0 W b) c x y Hc) as [_ ->];
    [cbn [x0 y0 x1 y1]; lia..|].
  rewrite B1. unfold i1.
  destruct (DrawUniform_At i0 (mkRect 0 0 W H) white x y white_opaque) as [_ ->];
    [cbn [x0 y0 x1 y1]; lia..|].
  unfold i0. cbn [Bounds At].
  unfold inside. cbn [x0 y0 x1 y1].
  destruct (Z.leb_spec 0 x); [|lia]. destruct (Z.leb_spec 0 y); [|lia].
  destruct (Z.ltb_spec x W); [|lia]. destruct (Z.ltb_spec y H); [|lia].
  cbn [andb].
  destruct (Z.ltb_spec x b), (Z.leb_spec (W - b) x), (Z.ltb_spec y b),
    (Z.leb_spec (H - b) y); cbn [andb orb]; try reflexivity;
    repeat match goal with
      | |- context [Z.leb ?a ?b] => destruct (Z.leb_spec a b); try lia
      | |- context [Z.ltb ?a ?b] => destruct (Z.ltb_spec a b); try lia
      end; cbn [andb orb]; reflexivity.
Qed.

(** X13.  main.go, the canvas before the texts are drawn, for a height
    from 1 to 7 million pixels, at which the runtime can allocate it, and
    the width computed from it: the
    image spans [(0,0)-(tileW,tileH)] and is at least as wide as high; its
    pixels within [tileH / 15] of an edge have the border colour of the
    element, exactly as [hexToRGBA] read it, and all others are white.
    Below a height of 15 there is no border. *)
Theorem main_go_tile_frame (colours : gmap string string) (ty : string) (tileH : Z) :
  1 <= tileH <= 7000000 ->
  let tileW := Layout.tileW tileH in
  exists img,
    tile tileW tileH (Colour.border colours ty) = Ret img
    /\ Bounds img = mkRect 0 0 tileW tileH
    /\ tileH <= tileW
    /\ (forall x y, 0 <= x < tileW -> 0 <= y < tileH ->
        At img x y
        = if (x <? Z.quot tileH 15) || (tileW - Z.quot tileH 15 <=? x)
             || (y <? Z.quot tileH 15) || (tileH - Z.quot tileH 15 <=? y)
          then Colour.border colours ty else white)
    /\ (tileH < 15 ->
        forall x y, 0 <= x < tileW -> 0 <= y < tileH -> At img x y = white).
Proof.
  intros HH tileW.
  pose proof (tileW_range tileH HH) as HW. fold tileW in HW.
  pose proof (tile_bytes tileH HH) as HB. fold tileW in HB.
  destruct (tile_pixels tileW tileH _ (border_opaqueBytes colours ty)
              ltac:(lia) ltac:(lia) HB) as (img & E & B & P).
  exists img. split; [exact E|]. split; [exact B|]. split; [lia|]. split; [exact P|].
  intros Hsmall x y Hx Hy. rewrite (P x y Hx Hy).
  rewrite Z.quot_small by lia. rewrite !Z.sub_0_r.
  destruct (Z.ltb_spec x 0); [lia|]. destruct (Z.leb_spec tileW x); [lia|].
  destruct (Z.ltb_spec y 0); [lia|]. destruct (Z.leb_spec tileH y); [lia|].
  reflexivity.
Qed.

Lemma main_go_tile_frame_witness :
  let tileW := Layout.tileW 600 in
  exists img,
    tile tileW 600 (Colour.border demoColours "nonmetal") = Ret img
    /\ Bounds img = mkRect 0 0 tileW 600
    /\ 600 <= tileW
    /\ (forall x y, 0 <= x < tileW -> 0 <= y < 600 ->
        At img x y
        = if (x <? Z.quot 600 15) || (tileW - Z.quot 600 15 <=? x)
             || (y <? Z.quot 600 15) || (600 - Z.quot 600 15 <=? y)
          then Colour.border demoColours "nonmetal" else white)
    /\ (600 < 15 ->
        forall x y, 0 <= x < tileW -> 0 <= y < 600 -> At img x y = white).
Proof. apply (main_go_tile_frame demoColours "nonmetal" 600). lia. Defined.

(** X14.  part_000, the canvas before the texts are drawn: 2456 by 1882
    pixels, every one of them the background colour the colour selection
    returned, whatever the colour table. *)
Theorem part000_card_background
    (colorMap : gmap string string) (category : string) (c : RGBA) (warn : option string) :
  bgColor colorMap category = Ret (c, warn) ->
  exists img,
    card c = Ret img
    /\ Bounds img = mkRect 0 0 2456 1882
    /\ forall x y, 0 <= x < 2456 -> 0 <= y < 1882 -> At img x y = c.
Proof.
  intros Hbg.
  assert (Hc : opaqueBytes c).
  { unfold bgColor in Hbg.
    destruct (parseHexColor (selectHex colorMap category)) as [[c0 [e|]]|] eqn:E;
      [| |discriminate]; injection Hbg as <- _.
    - unfold opaqueBytes. cbn. lia.
    - eapply parseHexColor_opaqueBytes, E. }
  unfold card. rewrite Rect_ordered by lia. rewrite NewRGBA_ok by lia.
  eexists. split; [reflexivity|]. cbn [Bounds].
  set (i0 := {| Bounds := mkRect 0 0 2456 1882; At := fun _ _ => mkRGBA 0 0 0 0 |}).
  split.
  - apply (DrawUniform_At i0 (mkRect 0 0 2456 1882) c 0 0 Hc); cbn [x0 y0 x1 y1]; lia.
  - intros x y Hx Hy.
    destruct (DrawUniform_At i0 (mkRect 0 0 2456 1882) c x y Hc) as [_ ->];
      [cbn [x0 y0 x1 y1]; lia..|].
    unfold i0, inside. cbn [Bounds At x0 y0 x1 y1].
    destruct (Z.leb_spec 0 x); [|lia]. destruct (Z.leb_spec 0 y); [|lia].
    destruct (Z.ltb_spec x 2456); [|lia]. destruct (Z.ltb_spec y 1882); [|lia].
    reflexivity.
Qed.

Lemma part000_card_background_witness :
  exists img,
    card (mkRGBA 52 152 219 255) = Ret img
    /\ Bounds img = mkRect 0 0 2456 1882
    /\ forall x y, 0 <= x < 2456 -> 0 <= y < 1882 -> At img x y = mkRGBA 52 152 219 255.
Proof.
  apply (part000_card_background demoColours "nonmetal" (mkRGBA 52 152 219 255) None).
  reflexivity.
Defined.

End RasterFacts.

(** ** Placement of the texts *)

Section TextPlacement.
Import GoInt Layout.

Lemma measureFrom_range f s : forall prevC advance,
  - 2 ^ 31 <= advance < 2 ^ 31 -> - 2 ^ 31 <= measureFrom f prevC advance s < 2 ^ 31.
Proof.
  induction s as [|c s IH]; intros prevC advance Ha; [exact Ha|].
  cbn [measureFrom].
  assert (Hk : - 2 ^ 31
               <= (if 0 <=? prevC then wrap32 (advance + Kern f prevC c) else advance)
               < 2 ^ 31).
  { destruct (0 <=? prevC); [apply wrap32_range|exact Ha]. }
  destruct (GlyphAdvance f c); apply IH; [apply wrap32_range|exact Hk].
Qed.

Lemma MeasureString_range f s : - 2 ^ 31 <= MeasureString f s < 2 ^ 31.
Proof. apply measureFrom_range. lia. Qed.

Lemma wrap32_small z : - 2 ^ 31 <= z < 2 ^ 31 -> wrap32 z = z.
Proof.
  intros H. unfold wrap32.
  rewrite Z.mod_small by lia. lia.
Qed.

(** X15.  part_000, [drawCenteredText]: the text is drawn on the line of
    the given point and starts half its measured width to the left of it,
    so that the middle of the text is within 1/128 pixel of the point,
    for every face and string; at the centre of the canvas a text no
    wider than the canvas lies inside it. *)
Theorem part000_text_is_centred (face : Face) (text : string) (pt : Z * Z) :
  - 2 ^ 30 <= fst pt < 2 ^ 30 ->
  let width := MeasureString face text in
  let '(x, y) := Part000Text.drawCenteredText face text pt in
  y = snd pt
  /\ 0 <= 2 * fst pt - (2 * x + width) + 1 <= 2
  /\ (pt = Part000Text.centerPointSymbol ->
      fst pt = 64 * 1228
      /\ (0 <= width <= 64 * Part000Text.imgWidth ->
          0 <= x /\ x + width <= 64 * Part000Text.imgWidth)).
Proof.
  intros Hpt width. unfold Part000Text.drawCenteredText. fold width.
  pose proof (MeasureString_range face text) as Hw. fold width in Hw.
  pose proof (Z.quot_rem width 2 ltac:(lia)) as E.
  pose proof (Z.rem_bound_abs width 2 ltac:(lia)) as R.
  assert (Hq : - 2 ^ 30 <= Z.quot width 2 <= 2 ^ 30) by lia.
  rewrite (wrap32_small (Z.quot width 2)) by lia.
  rewrite wrap32_small by lia.
  split; [reflexivity|]. split; [lia|].
  intros ->. split; [reflexivity|].
  change (fst Part000Text.centerPointSymbol) with (64 * 1228).
  unfold Part000Text.imgWidth. intros Hwd.
  assert (0 <= Z.rem width 2) by (apply Z.rem_nonneg; lia). lia.
Qed.

Lemma part000_text_is_centred_witness :
  let width := MeasureString plainFace "He" in
  let '(x, y) := Part000Text.drawCenteredText plainFace "He" Part000Text.centerPointSymbol in
  y = snd Part000Text.centerPointSymbol
  /\ 0 <= 2 * fst Part000Text.centerPointSymbol - (2 * x + width) + 1 <= 2
  /\ (Part000Text.centerPointSymbol = Part000Text.centerPointSymbol ->
      fst Part000Text.centerPointSymbol = 64 * 1228
      /\ (0 <= width <= 64 * Part000Text.imgWidth ->
          0 <= x /\ x + width <= 64 * Part000Text.imgWidth)).
Proof.
  apply (part000_text_is_centred plainFace "He" Part000Text.centerPointSymbol).
  vm_compute. split; [discriminate|reflexivity].
Defined.

(** X16.  main.go, the top row and the name, for a height from 1 to 700
    million pixels and the width computed from it: the atomic number
    starts [tileH/15 + tileH/20] pixels from the left edge and the atomic
    mass ends as many pixels from the right edge, both inside the border
    bars, which leave more than half the width between them; each
    baseline lies one rounded line height of its face below that margin;
    the name is centred like the symbol, within one pixel, on a baseline
    one rounded line height and [tileH/20] below the symbol's. *)
Theorem main_go_text_margins
    (fonts : Fonts) (tileH : Z) (massTxt name symbol : string) :
  1 <= tileH <= 700000000 ->
  let tileW := Layout.tileW tileH in
  let margin := Z.quot tileH 15 + Z.quot tileH 20 in
  let mw := Round (MeasureString (massFont fonts) massTxt) in
  let nameW := Round (MeasureString (nameFont fonts) name) in
  let '(nx, ny) := numberOrigin fonts tileH in
  let '(mx, my) := massOrigin fonts tileW tileH massTxt in
  let '(sx, sy) := symbolOrigin fonts tileW tileH symbol in
  let '(ax, ay) := nameOrigin fonts tileW tileH name in
  nx = margin /\ mx + mw = tileW - margin
  /\ Z.quot tileH 15 <= margin /\ 4 * margin < tileW
  /\ ny = margin + Round (Height (numFont fonts))
  /\ my = margin + Round (Height (massFont fonts))
  /\ Z.abs (2 * ax - (tileW - nameW)) <= 1
  /\ ay = sy + Round (Height (nameFont fonts)) + Z.quot tileH 20.
Proof.
  intros HH tileW margin mw nameW.
  assert (HW : tileH <= tileW <= 1000000000).
  { unfold tileW. rewrite tileW_model by lia.
    pose proof (widthModel_ge tileH ltac:(lia)).
    pose proof (widthModel_exact tileH ltac:(lia)). lia. }
  assert (RH : inRange tileH) by (unfold inRange, minInt, maxInt; lia).
  unfold numberOrigin, massOrigin, symbolOrigin, symbolAt, nameOrigin.
  fold tileW. rewrite (bt_exact tileH RH), (pad_exact tileH RH). fold mw nameW.
  pose proof (Z.quot_pos tileH 15 ltac:(lia) ltac:(lia)) as Hb0.
  pose proof (Z.quot_pos tileH 20 ltac:(lia) ltac:(lia)) as Hp0.
  assert (Hb1 : 15 * Z.quot tileH 15 <= tileH).
  { rewrite Z.quot_div_nonneg by lia. apply Z.mul_div_le. lia. }
  assert (Hp1 : 20 * Z.quot tileH 20 <= tileH).
  { rewrite Z.quot_div_nonneg by lia. apply Z.mul_div_le. lia. }
  pose proof (Round_range (MeasureString (massFont fonts) massTxt)) as Hmw. fold mw in Hmw.
  pose proof (Round_range (MeasureString (nameFont fonts) name)) as Hnw. fold nameW in Hnw.
  pose proof (Round_range (MeasureString (symFont fonts) symbol)) as Hsw.
  pose proof (Round_range (Height (numFont fonts))) as Hh1.
  pose proof (Round_range (Height (massFont fonts))) as Hh2.
  pose proof (Round_range (Height (nameFont fonts))) as Hh3.
  pose proof (Z.quot_pos tileH 2 ltac:(lia) ltac:(lia)) as Hq0.
  assert (Hq1 : Z.quot tileH 2 <= tileH).
  { rewrite Z.quot_div_nonneg by lia. apply Z.div_le_upper_bound; lia. }
  unfold add, sub.
  repeat match goal with
    | |- context [wrap ?z] =>
        rewrite (wrap_inRange z) by (unfold inRange, minInt, maxInt; lia)
    | |- context [quo ?a ?b] =>
        rewrite (quo_exact a b) by (try lia; unfold inRange, minInt, maxInt; lia)
    end.
  fold margin.
  split; [reflexivity|]. split; [unfold margin; lia|]. split; [unfold margin; lia|].
  split; [unfold margin; lia|]. split; [reflexivity|]. split; [reflexivity|].
  split; [apply quot2_near|]. lia.
Qed.

Lemma main_go_text_margins_witness :
  let tileW := Layout.tileW 600 in
  let margin := Z.quot 600 15 + Z.quot 600 20 in
  let mw := Round (MeasureString (massFont plainFonts) "1.0080") in
  let nameW := Round (MeasureString (nameFont plainFonts) "Hydrogen") in
  let '(nx, ny) := numberOrigin plainFonts 600 in
  let '(mx, my) := massOrigin plainFonts tileW 600 "1.0080" in
  let '(sx, sy) := symbolOrigin plainFonts tileW 600 "H" in
  let '(ax, ay) := nameOrigin plainFonts tileW 600 "Hydrogen" in
  nx = margin /\ mx + mw = tileW - margin
  /\ Z.quot 600 15 <= margin /\ 4 * margin < tileW
  /\ ny = margin + Round (Height (numFont plainFonts))
  /\ my = margin + Round (Height (massFont plainFonts))
  /\ Z.abs (2 * ax - (tileW - nameW)) <= 1
  /\ ay = sy + Round (Height (nameFont plainFonts)) + Z.quot 600 20.
Proof. apply (main_go_text_margins plainFonts 600 "1.0080" "Hydrogen" "H"). lia. Defined.

Lemma I_exact x : - 2 ^ 25 <= x < 2 ^ 25 -> Fixed.I x = 64 * x.
Proof.
  intros H. unfold Fixed.I. rewrite Z.shiftl_mul_pow2 by lia.
  rewrite wrap_inRange by (unfold inRange, minInt, maxInt; lia).
  rewrite wrap32_small by lia. lia.
Qed.

(** X17.  main.go, [drawText], for a height from 1 to [2^24] pixels, faces
    whose rounded line height is between 0 and [2^24] and a mass that
    does not measure negative: the drawer of each of the four texts
    starts exactly at the origin the loop computed, 64 fixed-point units
    to the pixel, with no wrap-around of the 26.6 coordinates.  The
    range of those coordinates ends at [2^25] pixels, where [fixed.I]
    wraps to the most negative value. *)
Theorem main_go_text_dots_exact
    (fonts : Fonts) (tileH : Z) (massTxt name symbol : string) :
  1 <= tileH <= 2 ^ 24 ->
  0 <= Round (Height (numFont fonts)) <= 2 ^ 24 ->
  0 <= Round (Height (massFont fonts)) <= 2 ^ 24 ->
  0 <= Round (Height (nameFont fonts)) <= 2 ^ 24 ->
  0 <= Round (MeasureString (massFont fonts) massTxt) ->
  let tileW := Layout.tileW tileH in
  let exact o := Fixed.drawTextDot o = (64 * fst o, 64 * snd o) in
  exact (numberOrigin fonts tileH)
  /\ exact (massOrigin fonts tileW tileH massTxt)
  /\ exact (symbolOrigin fonts tileW tileH symbol)
  /\ exact (nameOrigin fonts tileW tileH name)
  /\ Fixed.I (2 ^ 25) = - 2 ^ 31.
Proof.
  intros HH H1 H2 H3 Hmw tileW exact.
  assert (HW : tileH <= tileW <= 21900000).
  { unfold tileW. rewrite tileW_model by lia.
    pose proof (widthModel_ge tileH ltac:(lia)).
    pose proof (widthModel_exact tileH ltac:(lia)). lia. }
  assert (RH : inRange tileH) by (unfold inRange, minInt, maxInt; lia).
  unfold exact, Fixed.drawTextDot, Fixed.P,
    numberOrigin, massOrigin, symbolOrigin, symbolAt, nameOrigin.
  fold tileW. rewrite (bt_exact tileH RH), (pad_exact tileH RH).
  pose proof (Z.quot_pos tileH 15 ltac:(lia) ltac:(lia)) as Hb0.
  pose proof (Z.quot_pos tileH 20 ltac:(lia) ltac:(lia)) as Hp0.
  assert (Hb1 : 15 * Z.quot tileH 15 <= tileH).
  { rewrite Z.quot_div_nonneg by lia. apply Z.mul_div_le. lia. }
  assert (Hp1 : 20 * Z.quot tileH 20 <= tileH).
  { rewrite Z.quot_div_nonneg by lia. apply Z.mul_div_le. lia. }
  pose proof (Round_range (MeasureString (massFont fonts) massTxt)) as Hmw'.
  pose proof (Round_range (MeasureString (nameFont fonts) name)) as Hnw.
  pose proof (Round_range (MeasureString (symFont fonts) symbol)) as Hsw.
  pose proof (Z.quot_pos tileH 2 ltac:(lia) ltac:(lia)) as Hq0.
  assert (Hq1 : 2 * Z.quot tileH 2 <= tileH).
  { rewrite Z.quot_div_nonneg by lia. apply Z.mul_div_le. lia. }
  set (mw := Round (MeasureString (massFont fonts) massTxt)) in *.
  set (nameW := Round (MeasureString (nameFont fonts) name)) in *.
  set (symW := Round (MeasureString (symFont fonts) symbol)) in *.
  pose proof (quot2_near (tileW - symW)) as Hs2.
  pose proof (quot2_near (tileW - nameW)) as Hn2.
  unfold add, sub.
  repeat match goal with
    | |- context [wrap ?z] =>
        rewrite (wrap_inRange z) by (unfold inRange, minInt, maxInt; lia)
    | |- context [quo ?a ?b] =>
        rewrite (quo_exact a b) by (try lia; unfold inRange, minInt, maxInt; lia)
    end.
  cbn [fst snd].
  rewrite !I_exact by lia.
  repeat split; reflexivity.
Qed.

Lemma main_go_text_dots_exact_witness :
  Fixed.drawTextDot (symbolOrigin plainFonts (Layout.tileW 600) 600 "He")
  = (64 * fst (symbolOrigin plainFonts (Layout.tileW 600) 600 "He"),
     64 * snd (symbolOrigin plainFonts (Layout.tileW 600) 600 "He")).
Proof.
  apply (main_go_text_dots_exact plainFonts 600 "1.0080" "Helium" "He");
    vm_compute; first [split; discriminate|discriminate].
Defined.

End TextPlacement.

(** ** The fetched element list *)

Section FetchFacts.
Import Utf8 Normaliser Fetch.

Context (lower : rune -> rune) (laws : CaseTableLaws lower).

Lemma cap_firstn es : cap es = firstn 118 es.
Proof.
  unfold cap. destruct (Nat.ltb_spec 118 (length es)); [reflexivity|].
  symmetry. apply firstn_all2. lia.
Qed.

(** X18.  main.go, [fetchElements], for every list of decoded records and
    every slice the unstable sort may leave: at most 118 elements are
    returned, all of them converted records, in ascending order of atomic
    number; a record that is dropped has a number no smaller than every
    one kept; the numbers returned do not depend on how the sort orders
    equal numbers; and every [Type] is a fixed point of the normaliser and
    none of the spellings it replaces. *)
Theorem fetch_elements_sorted_capped_normalised
    (root : list SourceElement) (es : list MainGo.Element) :
  returns lower root es ->
  length es = Nat.min 118 (length root)
  /\ StronglySorted Z.le (map MainGo.Number es)
  /\ (forall e, In e es -> exists s, In s root /\ e = convert lower s)
  /\ (forall s, In s root ->
        In (convert lower s) es \/ forall e, In e es -> MainGo.Number e <= number s)
  /\ (forall es', returns lower root es' -> map MainGo.Number es' = map MainGo.Number es)
  /\ (forall e, In e es ->
        exists t, MainGo.Type_ e = encode t
                  /\ normaliseCategory lower t = t
                  /\ forall k, In k aliases -> t <> runes k).
Proof.
  intros (sorted & HP & HS & ->). rewrite cap_firstn.
  assert (Hsplit : sorted = firstn 118 sorted ++ skipn 118 sorted)
    by (symmetry; apply firstn_skipn).
  assert (Hfrom : forall e, In e (firstn 118 sorted) ->
                    exists s, In s root /\ e = convert lower s).
  { intros e He. assert (Hin : In e sorted).
    { rewrite Hsplit. apply in_or_app. left. exact He. }
    apply list_elem_of_In in Hin. rewrite HP in Hin.
    apply list_elem_of_In, in_map_iff in Hin as (s & <- & Hs). eauto. }
  split; [|split; [|split; [|split; [|split]]]].
  - rewrite length_firstn. apply Permutation_length in HP.
    rewrite HP, length_map. reflexivity.
  - rewrite <- firstn_map. rewrite <- (firstn_skipn 118 (map MainGo.Number sorted)) in HS.
    eapply StronglySorted_app_1_l, HS.
  - exact Hfrom.
  - intros s Hs.
    assert (Hin : In (convert lower s) sorted).
    { apply list_elem_of_In. rewrite HP. apply list_elem_of_In, in_map, Hs. }
    rewrite Hsplit in Hin. apply in_app_or in Hin as [Hin|Hin]; [left; exact Hin|].
    right. intros e He.
    rewrite Hsplit, map_app in HS.
    change (number s) with (MainGo.Number (convert lower s)).
    eapply (StronglySorted_app_1_elem_of Z.le _ _ _ _ HS);
      apply list_elem_of_In, in_map; assumption.
  - intros es' (sorted' & HP' & HS' & ->). rewrite cap_firstn, <- !firstn_map.
    f_equal. apply (StronglySorted_unique Z.le); [exact HS'|exact HS|].
    rewrite HP, HP'. reflexivity.
  - intros e He. destruct (Hfrom e He) as (s & _ & ->).
    eexists. split; [reflexivity|].
    split; [apply (normalise_idempotent lower laws)|].
    intros k Hk. apply (normalise_not_alias lower laws), Hk.
Qed.

End FetchFacts.

Section FetchWitness.
Import Utf8 Normaliser Fetch.

Lemma fetch_elements_sorted_capped_normalised_witness :
  let h := {| number := 1; symbol := "H"; name := "Hydrogen";
              atomic_mass := F64.of_int 1; category := "diatomic nonmetal" |} in
  let he := {| number := 2; symbol := "He"; name := "Helium";
               atomic_mass := F64.of_int 4; category := "Noble_Gas" |} in
  map MainGo.Type_ [convert asciiToLower h; convert asciiToLower he]
  = ["nonmetal"; "noble gas"]
  /\ length [convert asciiToLower h; convert asciiToLower he] = 2%nat.
Proof.
  intros h he.
  assert (R : returns asciiToLower [he; h] [convert asciiToLower h; convert asciiToLower he]).
  { exists [convert asciiToLower h; convert asciiToLower he].
    split; [apply perm_swap|]. split; [|reflexivity].
    cbn. repeat constructor. lia. }
  destruct (fetch_elements_sorted_capped_normalised asciiToLower asciiToLower_laws
              [he; h] [convert asciiToLower h; convert asciiToLower he] R) as (L & _).
  split; [vm_compute; reflexivity|exact L].
Defined.

End FetchWitness.

(** ** main.go from its inputs to its end *)

Section ProgramFacts.
Import IO Program.

Lemma loop_loaded env colours (fonts : Layout.Fonts) outdir height elements :
  allocates height ->
  forall w,
    loop env colours (Some (Layout.numFont fonts)) (Some (Layout.symFont fonts))
      (Some (Layout.nameFont fonts)) (Some (Layout.massFont fonts))
      outdir height elements w
    = Returned (effects env colours fonts outdir height elements w).
Proof.
  intros HH. induction elements as [|e es IH]; intros w; [reflexivity|].
  cbn [loop default from_option id].
  replace {| Layout.numFont := Layout.numFont fonts; Layout.symFont := Layout.symFont fonts;
             Layout.nameFont := Layout.nameFont fonts;
             Layout.massFont := Layout.massFont fonts |} with fonts
    by (destruct fonts; reflexivity).
  rewrite MainGo_step_allocates by exact HH.
  cbn [derefsNil isNil orb andb]. rewrite IH. reflexivity.
Qed.

(** With the four faces loaded and a canvas that can be allocated, [main]
    is the loop over the fetched elements. *)
Lemma main_loaded env inp outdir height w colours elements fonts :
  allocates height ->
  sampleError inp = None ->
  coloursFile inp = ColoursTable colours ->
  fetched inp = inr elements ->
  loadFont inp (Layout.fontSize Layout.Number height) = Some (Layout.numFont fonts) ->
  loadFont inp (Layout.fontSize Layout.Symbol height) = Some (Layout.symFont fonts) ->
  loadFont inp (Layout.fontSize Layout.Name height) = Some (Layout.nameFont fonts) ->
  loadFont inp (Layout.fontSize Layout.Mass height) = Some (Layout.massFont fonts) ->
  main env inp outdir height w
  = Returned (effects env colours fonts outdir height elements w).
Proof.
  intros HH H1 H2 H3 F1 F2 F3 F4. unfold main.
  rewrite H1, H2, H3, F1, F2, F3, F4. apply loop_loaded, HH.
Qed.

Lemma loop_fs env colours numFont symFont nameFont massFont outdir height elements :
  forall w,
    fs (worldOf (loop env colours numFont symFont nameFont massFont outdir height
                   elements w)) <> fs w ->
    numFont <> None /\ nameFont <> None /\ massFont <> None.
Proof.
  induction elements as [|e es IH]; intros w H; [cbn in H; congruence|].
  cbn [loop] in H. unfold derefsNil in H.
  destruct (MainGo.step _ _ _ _ _ _ _); [|cbn [worldOf] in H; congruence].
  destruct numFont, nameFont, massFont; cbn [isNil orb] in H;
    rewrite ?orb_true_r in H; cbn [worldOf] in H; try congruence.
  repeat split; discriminate.
Qed.

(** X19.  main.go writes or changes a file only in a run in which
    [Untitled.png] opened, the colour file was read and parsed, the
    element list was fetched and the faces for the number, the name and
    the mass were loaded; with all four faces loaded and a height from 1
    to 7 million pixels, at which the canvas can be allocated, the loop
    over the fetched elements runs to its end and the run returns with
    what the loop left. *)
Theorem main_go_writes_only_after_setup
    (env : Env) (inp : Inputs) (outdir : string) (height : Z) (w : World MainGo.Tile) :
  (fs (worldOf (main env inp outdir height w)) <> fs w ->
   sampleError inp = None
   /\ (exists colours, coloursFile inp = ColoursTable colours)
   /\ (exists elements, fetched inp = inr elements)
   /\ loadFont inp (Layout.fontSize Layout.Number height) <> None
   /\ loadFont inp (Layout.fontSize Layout.Name height) <> None
   /\ loadFont inp (Layout.fontSize Layout.Mass height) <> None)
  /\ (forall colours elements fonts,
        1 <= height <= 7000000 ->
        sampleError inp = None ->
        coloursFile inp = ColoursTable colours ->
        fetched inp = inr elements ->
        loadFont inp (Layout.fontSize Layout.Number height) = Some (Layout.numFont fonts) ->
        loadFont inp (Layout.fontSize Layout.Symbol height) = Some (Layout.symFont fonts) ->
        loadFont inp (Layout.fontSize Layout.Name height) = Some (Layout.nameFont fonts) ->
        loadFont inp (Layout.fontSize Layout.Mass height) = Some (Layout.massFont fonts) ->
        exists w',
          MainGo.loop env colours fonts outdir height elements w = Colour.Ret w'
          /\ main env inp outdir height w = Returned w').
Proof.
  split.
  - unfold main. destruct (sampleError inp) as [err|]; [cbn; congruence|].
    destruct (coloursFile inp) as [err|err|colours]; [cbn; congruence..|].
    destruct (fetched inp) as [err|elements]; [cbn; congruence|].
    intros H. apply loop_fs in H. destruct H as (H1 & H2 & H3).
    split; [reflexivity|]. split; [eauto|]. split; [eauto|]. auto.
  - intros colours elements fonts HH H1 H2 H3 F1 F2 F3 F4.
    pose proof (allocates_range height HH) as Ha.
    eexists. split; [apply MainGo_loop_effects, Ha|].
    eapply main_loaded; eassumption.
Qed.

(** X20.  main.go does not report a font that failed to load: when the
    other inputs are in order and the face for the atomic number is nil
    (the face for the mass is requested at the same size), the run ends
    in a panic at the first element, having printed nothing and written
    no file; with an empty element list it returns as if nothing were
    wrong. *)
Theorem main_go_missing_font_panics
    (env : Env) (inp : Inputs) (outdir : string) (height : Z) (w : World MainGo.Tile)
    (colours : gmap string string) (e : MainGo.Element) (rest : list MainGo.Element) :
  sampleError inp = None ->
  coloursFile inp = ColoursTable colours ->
  loadFont inp (Layout.fontSize Layout.Number height) = None ->
  Layout.fontSize Layout.Mass height = Layout.fontSize Layout.Number height
  /\ (fetched inp = inr (e :: rest) -> main env inp outdir height w = Panicked w)
  /\ (fetched inp = inr [] -> main env inp outdir height w = Returned w).
Proof.
  intros H1 H2 F. split; [reflexivity|].
  unfold main. rewrite H1, H2, F. split; intros ->; [|reflexivity].
  cbn [loop derefsNil isNil orb].
  destruct (MainGo.step _ _ _ _ _ _ _); reflexivity.
Qed.

Lemma main_go_missing_font_panics_witness :
  let inp := {| sampleError := None; coloursFile := ColoursTable demoColours;
                loadFont := fun _ => None; fetched := inr demoElements |} in
  main demoEnv inp "elements" 600 emptyWorld = Panicked emptyWorld.
Proof.
  intros inp.
  apply (main_go_missing_font_panics demoEnv inp "elements" 600 emptyWorld demoColours
           {| MainGo.Number := 1; MainGo.Symbol := "H"; MainGo.Name := "Hydrogen";
              MainGo.Mass := F64.of_int 1; MainGo.Type_ := "nonmetal" |}
           (tl demoElements)); reflexivity.
Defined.

Lemma main_go_writes_only_after_setup_witness :
  let inp := {| sampleError := None; coloursFile := ColoursTable demoColours;
                loadFont := fun _ => Some plainFace; fetched := inr demoElements |} in
  exists w',
    MainGo.loop demoEnv demoColours plainFonts "elements" 600 demoElements emptyWorld
    = Colour.Ret w'
    /\ main demoEnv inp "elements" 600 emptyWorld = Returned w'.
Proof.
  intros inp.
  apply (main_go_writes_only_after_setup demoEnv inp "elements" 600 emptyWorld);
    try reflexivity. lia.
Defined.

End ProgramFacts.

(** ** Failures in the middle of a batch *)

Section BatchClaims.
Import IO Colour.

(** C8, counterexample.  In main.go a failure in the middle of the batch
    is not logged: with three elements and an unwritable path for the
    second, the run returns with two files written, nothing logged, and
    the progress line printed for the failed element as well. *)
Lemma main_go_failure_not_logged :
  let inp :=
    {| Program.sampleError := None;
       Program.coloursFile := Program.ColoursTable demoColours;
       Program.loadFont := fun _ => Some plainFace;
       Program.fetched := inr demoElements |} in
  exists w,
    Program.main demoEnv inp "elements" 600 emptyWorld = Program.Returned w
    /\ MainGo.loop demoEnv demoColours plainFonts "elements" 600 demoElements emptyWorld
       = Ret w
    /\ pngCount w = 2%nat
    /\ logged w = []
    /\ stdout w = ["Written: 001_H.png"; "Written: 002_He.png"; "Written: 006_C.png"].
Proof.
  intros inp.
  exists (effects demoEnv demoColours plainFonts "elements" 600 demoElements emptyWorld).
  split; [vm_compute; reflexivity|]. split; [vm_compute; reflexivity|].
  vm_compute. repeat split.
Qed.

(** C8, amended.  Neither program aborts the batch on a failed
    [os.Create] or [png.Encode].  Started on an empty output directory
    with elements of distinct output paths: main.go, at a height from 1 to
    7 million, at which the canvas can be allocated, runs its loop to the
    end, and with its inputs in order and its four faces loaded returns;
    it writes one PNG per element whose two file operations succeed, logs
    nothing and prints its progress line for every element.  part_000, on
    a colour table with a well-formed entry for every element and with a
    font that draws every text, returns normally, writes one PNG per
    element whose two file operations succeed and logs one line per failed
    element, and nothing else.  So [N] elements give [N] files without
    failure and [N - 1] files with one failure, which part_000 logs and
    main.go does not. *)
Theorem batch_continues_past_failures
    (env : Env) (colours : gmap string string) (fonts : Layout.Fonts)
    (outdir : string) (height : Z) (elements : list MainGo.Element)
    (colorMap : gmap string string) (elements000 : list Part000.Element) :
  (1 <= height <= 7000000 ->
   NoDup (map (MainGo.path env outdir) elements) ->
   let failed :=
     List.filter (fun e => negb (saved env (MainGo.path env outdir e))) elements in
   exists w,
     MainGo.loop env colours fonts outdir height elements emptyWorld = Ret w
     /\ (forall inp,
           Program.sampleError inp = None ->
           Program.coloursFile inp = Program.ColoursTable colours ->
           Program.fetched inp = inr elements ->
           Program.loadFont inp (Layout.fontSize Layout.Number height)
           = Some (Layout.numFont fonts) ->
           Program.loadFont inp (Layout.fontSize Layout.Symbol height)
           = Some (Layout.symFont fonts) ->
           Program.loadFont inp (Layout.fontSize Layout.Name height)
           = Some (Layout.nameFont fonts) ->
           Program.loadFont inp (Layout.fontSize Layout.Mass height)
           = Some (Layout.massFont fonts) ->
           Program.main env inp outdir height emptyWorld = Program.Returned w)
     /\ (pngCount w + length failed)%nat = length elements
     /\ logged w = []
     /\ stdout w = writtenLines elements)
  /\ (NoDup (map (Part000.path env) elements000) ->
      Forall (coloured colorMap) elements000 ->
      Forall (fontDraws env) elements000 ->
      let failed :=
        List.filter (fun el => negb (saved env (Part000.path env el))) elements000 in
      exists w,
        Part000.run env colorMap elements000 emptyWorld = Ret w
        /\ (pngCount w + length failed)%nat = length elements000
        /\ logged w = flat_map (failureLines env) elements000
        /\ length (logged w) = length failed).
Proof.
  split.
  - intros HH Hnd failed.
    pose proof (allocates_range height HH) as Ha.
    exists (effects env colours fonts outdir height elements emptyWorld).
    destruct (MainGo_loop_spec env colours fonts outdir height elements emptyWorld Hnd)
      as (H1 & H2 & _ & _); [intros; apply lookup_empty|].
    split; [apply MainGo_loop_effects, Ha|].
    split; [intros inp I1 I2 I3 F1 F2 F3 F4; eapply main_loaded; eassumption|].
    split; [|split].
    + rewrite H1. unfold failed. cbn.
      apply (filter_split (fun e => saved env (MainGo.path env outdir e))).
    + exact H2.
    + apply (MainGo_loop_stdout env colours fonts outdir height elements emptyWorld).
  - intros Hnd Hcol Hdraw failed. unfold Part000.run. cbv zeta.
    match goal with
    | |- context [Part000.loop env colorMap elements000 ?w0] =>
        destruct (Part000_loop_spec env colorMap elements000 w0 Hnd)
          as (w & E & C & L); [intros; apply lookup_empty|exact Hcol|exact Hdraw|]
    end.
    eexists. rewrite E. split; [reflexivity|].
    unfold pngCount, pngFiles in *. cbn [fs logged] in *.
    split; [|split].
    + rewrite C. unfold failed. cbn.
      apply (filter_split (fun el => saved env (Part000.path env el))).
    + exact L.
    + rewrite L. cbn. apply failure_count.
Qed.

Lemma batch_continues_past_failures_witness :
  (exists w,
     MainGo.loop demoEnv demoColours plainFonts "elements" 600 demoElements emptyWorld
     = Ret w
     /\ (pngCount w + 1)%nat = 3%nat /\ logged w = []
     /\ stdout w = ["Written: 001_H.png"; "Written: 002_He.png"; "Written: 006_C.png"])
  /\ (exists w,
        Part000.run demoEnv demoColours demoElements000 emptyWorld = Ret w
        /\ (pngCount w + 1)%nat = 3%nat
        /\ logged w = [CreateFailed "Helium"]
        /\ length (logged w) = 1%nat).
Proof.
  destruct (batch_continues_past_failures demoEnv demoColours plainFonts "elements" 600
              demoElements demoColours demoElements000) as [H1 H2].
  split.
  - destruct H1 as (w & E & _ & C & L & S);
      [lia|apply (bool_decide_unpack _); vm_compute; exact I|].
    exists w. split; [exact E|]. split; [exact C|]. split; [exact L|exact S].
  - apply H2.
    + apply (bool_decide_unpack _). vm_compute. exact I.
    + repeat constructor;
        exists "3"%char, "4"%char, "9"%char, "8"%char, "d"%char, "b"%char;
        repeat split; vm_compute; eauto.
    + repeat constructor.
Defined.

End BatchClaims.
